(** * The comment-filtering pipeline of ytc-analyzer

    A shallow embedding of [filter_low_value] and [_near_dedup_remove_all]
    (Scripts/analyze_video.py) and of the settings sanitiser that the
    analysis worker of Scripts/server.py applies before calling it.

    Conventions of the embedding:
    - a character is a code point 0..255 ([ascii]); Python's [str.isspace],
      [str.lower] and the regex classes are written out on that range;
    - a DataFrame of comments is a [list comment] in row order; a boolean
      mask selection [df[mask]] is [List.filter];
    - the [reasons] dict is a [gmap string string];
    - the optional libraries (emoji, lingua, vaderSentiment, rapidfuzz) are
      capabilities passed in a record; [None] means "not installed", and a
      per-call result [None] means "the call raised an exception";
    - an exception escaping [filter_low_value] is the result [None]. *)

From Stdlib Require Import QArith ZArith Ascii String Relations.
From Stdlib Require DecimalString DecimalNat.
From stdpp Require Import base list gmap strings.

(* ------------------------------------------------------------------ *)
(** ** Text helpers *)

Definition code (a : ascii) : nat := nat_of_ascii a.

(** [str.isspace()] and the regex class [\s], on code points 0..255. *)
Definition is_space (a : ascii) : bool :=
  let n := code a in
  ((9 <=? n) && (n <=? 13)) || ((28 <=? n) && (n <=? 32)) || (n =? 133) || (n =? 160).

Fixpoint drop_while (p : ascii -> bool) (l : list ascii) : list ascii :=
  match l with
  | [] => []
  | a :: l' => if p a then drop_while p l' else l
  end.

(** [str.strip()] *)
Definition strip (s : string) : string :=
  string_of_list_ascii
    (rev (drop_while is_space (rev (drop_while is_space (list_ascii_of_string s))))).

(** [str.lower()] on code points 0..255 (A-Z and the Latin-1 capitals). *)
Definition lower_char (a : ascii) : ascii :=
  let n := code a in
  if ((65 <=? n) && (n <=? 90)) || ((192 <=? n) && (n <=? 222) && negb (n =? 215))
  then ascii_of_nat (n + 32) else a.

Definition lower (s : string) : string :=
  string_of_list_ascii (map lower_char (list_ascii_of_string s)).

Definition is_ascii_letter (a : ascii) : bool :=
  let n := code a in ((65 <=? n) && (n <=? 90)) || ((97 <=? n) && (n <=? 122)).

Definition is_digit (a : ascii) : bool :=
  let n := code a in (48 <=? n) && (n <=? 57).

(** the character class [[a-zA-Z0-9]] *)
Definition is_alnum_ascii (a : ascii) : bool := is_ascii_letter a || is_digit a.

(** [text.str.count(r"[a-zA-Z]")] *)
Definition count_alpha (s : string) : nat :=
  length (List.filter is_ascii_letter (list_ascii_of_string s)).

Fixpoint words_from (in_word : bool) (l : list ascii) : nat :=
  match l with
  | [] => 0
  | a :: l' =>
      if is_space a then words_from false l'
      else if in_word then words_from true l' else S (words_from true l')
  end.

(** [len(text.split())] *)
Definition count_words (s : string) : nat := words_from false (list_ascii_of_string s).

(** Case-insensitive literal prefix ([re.IGNORECASE]); [pat] is lower case.
    Returns the rest of the input after the prefix. *)
Fixpoint prefix_ci (pat l : list ascii) : option (list ascii) :=
  match pat, l with
  | [], _ => Some l
  | p :: pat', a :: l' => if Ascii.eqb (lower_char a) p then prefix_ci pat' l' else None
  | _ :: _, [] => None
  end.

(** One attempt of [_URL_RE = r"https?://\S+|www\.\S+"] at the current
    position: the rest of the input after the (greedy) match, if any. *)
Definition url_at (l : list ascii) : option (list ascii) :=
  let try_pat (pat : string) :=
    match prefix_ci (list_ascii_of_string pat) l with
    | Some (a :: r) =>
        if is_space a then None
        else Some (drop_while (fun b => negb (is_space b)) r)
    | _ => None
    end in
  match try_pat "https://" with
  | Some r => Some r
  | None =>
      match try_pat "http://" with
      | Some r => Some r
      | None => try_pat "www."
      end
  end.

(** [re.sub] scanning left to right; every step consumes a character, so
    [length l] steps suffice. *)
Fixpoint url_sub_fuel (fuel : nat) (l : list ascii) : list ascii :=
  match fuel with
  | O => l
  | S f =>
      match l with
      | [] => []
      | a :: l' =>
          match url_at l with
          | Some r => url_sub_fuel f r
          | None => a :: url_sub_fuel f l'
          end
      end
  end.

(** [_URL_RE.sub("", t)] *)
Definition url_sub (s : string) : string :=
  let l := list_ascii_of_string s in string_of_list_ascii (url_sub_fuel (length l) l).

Fixpoint split_colon (l : list ascii) : list (list ascii) :=
  match l with
  | [] => [[]]
  | a :: l' =>
      let parts := split_colon l' in
      if Ascii.eqb a ":" then [] :: parts
      else match parts with
           | p :: ps => (a :: p) :: ps
           | [] => [[a]]
           end
  end.

Definition all_digits (l : list ascii) : bool := forallb is_digit l.

(** [bool(_TIMESTAMP_RE.fullmatch(t))], [_TIMESTAMP_RE = r"^(\d+:)?\d{1,2}:\d{2}$"] *)
Definition timestamp_full (s : string) : bool :=
  let mm_ss (m sec : list ascii) :=
    all_digits m && (1 <=? length m) && (length m <=? 2)
    && all_digits sec && (length sec =? 2) in
  match split_colon (list_ascii_of_string s) with
  | [m; sec] => mm_ss m sec
  | [h; m; sec] => all_digits h && (1 <=? length h) && mm_ss m sec
  | _ => false
  end.

Definition repeats_at (a : ascii) (l : list ascii) : bool :=
  match l with
  | b :: c :: d :: e :: _ =>
      is_alnum_ascii a && Ascii.eqb a b && Ascii.eqb a c && Ascii.eqb a d && Ascii.eqb a e
  | _ => false
  end.

(** [bool(_REPEAT_CHAR_RE.search(t))], [_REPEAT_CHAR_RE = r"([a-zA-Z0-9])\1{4,}"] *)
Fixpoint has_repeat (l : list ascii) : bool :=
  match l with
  | [] => false
  | a :: l' => repeats_at a l' || has_repeat l'
  end.

(* ------------------------------------------------------------------ *)
(** ** Comments, configuration, capabilities *)

Record comment := mkComment {
  cid : string;
  author : string;
  text : option string;   (** [None]: missing / NaN *)
  like_count : Z;
  timestamp : Z
}.

Definition ctext (c : comment) : string := default "" (text c).

(** [df["text"] = df["text"].fillna("").astype(str).str.strip()] *)
Definition entry_row (c : comment) : comment :=
  {| cid := cid c; author := author c; text := Some (strip (ctext c));
     like_count := like_count c; timestamp := timestamp c |}.

(** [df["text"].str.lower().str.strip()] *)
Definition norm (c : comment) : string := strip (lower (ctext c)).

(** The keyword arguments of [filter_low_value]. *)
Record config := mkConfig {
  min_chars : bool;
  min_chars_threshold : Z;
  min_alpha : bool;
  min_words : bool;
  min_words_threshold : Z;
  blacklist_match : bool;
  emoji_only : bool;
  url_only : bool;
  timestamp_only : bool;
  repeat_char : bool;
  english_only : bool;
  english_confidence : Q;
  sentiment_filter : bool;
  sentiment_threshold : Q;
  dedup : bool;
  dedup_threshold : Z
}.

(** The defaults of the signature of [filter_low_value]. *)
Definition default_config : config :=
  mkConfig true 20 true true 3 true true true true true true (1 # 2) true (-4 # 5) true 85.

(** The optional libraries, as module-level capabilities. *)
Record caps := mkCaps {
  strip_emoji : string -> string;                     (** [_strip_emoji] *)
  lingua : option (string -> option Q);               (** English confidence *)
  vader : option (string -> option Q);                (** compound score *)
  fuzz_ratio : option (string -> string -> Q)         (** [_fuzz.ratio] *)
}.

(* ------------------------------------------------------------------ *)
(** ** Reason bookkeeping *)

Abbreviation reasons_map := (gmap string string).
Abbreviation state := (list comment * gmap string string)%type.

(** [reasons.setdefault(k, v)] *)
Definition setdefault (k v : string) (m : reasons_map) : reasons_map :=
  match m !! k with
  | Some _ => m
  | None => <[k := v]> m
  end.

(** [_apply(mask, label)] followed by [df = df[mask]]. *)
Definition _apply (keep : comment -> bool) (lbl : string) (st : state) : state :=
  let '(df, reasons) := st in
  (List.filter keep df,
   foldl (fun r c => setdefault (cid c) lbl r) reasons
         (List.filter (fun c => negb (keep c)) df)).

(** [_is_english] of stage 4: an exception keeps the comment. *)
Definition _is_english (detect : string -> option Q) (min_conf : Q) (t : string) : bool :=
  match detect t with
  | Some conf => Qle_bool min_conf conf
  | None => true
  end.

(** [compound > threshold] *)
Definition sentiment_keep (compound threshold : Q) : bool :=
  negb (Qle_bool compound threshold).

Definition raises {A} (r : option A) : bool :=
  match r with Some _ => false | None => true end.

(** [norm.duplicated(keep=False)] at a row with normalised text [n]. *)
Definition duplicated (norms : list string) (n : string) : bool :=
  2 <=? length (List.filter (String.eqb n) norms).

(* ------------------------------------------------------------------ *)
(** ** [_near_dedup_remove_all]: union-find over row indices *)

(** The [while parent[x] != x] loop of [_find], with path halving.  On a
    well-formed forest it stops within [len(parent)] rounds
    ([find_loop_spec] below), so that many rounds of fuel are given. *)
Fixpoint find_loop (fuel : nat) (parent : list nat) (x : nat) : list nat * nat :=
  match fuel with
  | O => (parent, x)
  | S fuel' =>
      if decide (parent !!! x = x) then (parent, x)
      else
        let parent' := <[x := parent !!! (parent !!! x)]> parent in
        find_loop fuel' parent' (parent' !!! x)
  end.

Definition _find (parent : list nat) (x : nat) : list nat * nat :=
  find_loop (length parent) parent x.

Definition _union (parent : list nat) (x y : nat) : list nat :=
  let '(p1, px) := _find parent x in
  let '(p2, py) := _find p1 y in
  if decide (px = py) then p2 else <[px := py]> p2.

(** [_fuzz.ratio(a, b) >= threshold] *)
Definition similar (ratio : string -> string -> Q) (threshold : Z) (a b : string) : bool :=
  Qle_bool (inject_Z threshold) (ratio a b).

(** [for j in range(i + 1, n): ...] *)
Definition union_inner (ratio : string -> string -> Q) (threshold : Z)
    (texts : list string) (n i : nat) (parent : list nat) : list nat :=
  foldl (fun p j =>
           if similar ratio threshold (texts !!! i) (texts !!! j) then _union p i j else p)
        parent (seq (S i) (n - S i)).

(** [parent = list(range(n))] and [for i in range(n): ...] *)
Definition union_all (ratio : string -> string -> Q) (threshold : Z) (texts : list string)
    : list nat :=
  let n := length texts in
  foldl (fun p i => union_inner ratio threshold texts n i p) (seq 0 n) (seq 0 n).

(** [_find(i) for i in xs], threading the compressed [parent]. *)
Fixpoint find_each (parent : list nat) (xs : list nat) : list nat * list nat :=
  match xs with
  | [] => (parent, [])
  | x :: xs' =>
      let '(p1, r) := _find parent x in
      let '(p2, rs) := find_each p1 xs' in
      (p2, r :: rs)
  end.

(** [group_sizes = Counter(_find(i) for i in range(n))] (a multiset,
    here the list of roots) and
    [keep_mask = [group_sizes[_find(i)] == 1 for i in range(n)]]. *)
Definition near_keep_mask (ratio : string -> string -> Q) (threshold : Z)
    (texts : list string) : list bool :=
  let n := length texts in
  let parent := union_all ratio threshold texts in
  let '(p1, group_roots) := find_each parent (seq 0 n) in
  let '(_, roots) := find_each p1 (seq 0 n) in
  map (fun r => count_occ Nat.eq_dec group_roots r =? 1) roots.

(** [df.iloc[[i for i, keep in enumerate(keep_mask) if keep]]] *)
Fixpoint mask_filter {A} (mask : list bool) (l : list A) : list A :=
  match mask, l with
  | b :: mask', x :: l' => if b then x :: mask_filter mask' l' else mask_filter mask' l'
  | _, _ => []
  end.

Definition _near_dedup_remove_all (ratio : string -> string -> Q) (df : list comment)
    (threshold : Z) : list comment :=
  let texts := map ctext df in
  mask_filter (near_keep_mask ratio threshold texts) df.

(** The near-duplicate phase of stage 6, with its reason loop. *)
Definition near_phase (ratio : string -> string -> Q) (threshold : Z) (st : state) : state :=
  let '(df_before, reasons) := st in
  let df := _near_dedup_remove_all ratio df_before threshold in
  let kept_ids := map cid df in
  (df, foldl (fun r c =>
                if bool_decide (cid c ∈ kept_ids) then r else setdefault (cid c) "Duplicate" r)
             reasons df_before).

(* ------------------------------------------------------------------ *)
(** ** The stages of [filter_low_value] *)

Inductive stage_kind :=
  | KRow (keep : string -> bool)                          (** a per-row pure mask *)
  | KApply (keep : string -> bool)        (** a mask [~df["text"].apply(...)] (stage 3) *)
  | KLang (detect : option (string -> option Q)) (min_conf : Q)         (** stage 4 *)
  | KSent (score : option (string -> option Q)) (threshold : Q)         (** stage 5 *)
  | KExact                                                (** stage 6, exact phase *)
  | KNear (fuzz : option (string -> string -> Q)) (threshold : Z).    (** stage 6, near phase *)

Record stage := mkStage { gate : bool; label : string; kind : stage_kind }.

Definition nonempty {A} (l : list A) : bool :=
  match l with [] => false | _ :: _ => true end.

(** One [if gate: ...] block of [filter_low_value].  Where the mask is
    [df["text"].apply(f)] itself (or its negation), an empty working frame
    gives an empty mask of dtype [object]; [df[~mask]] then selects columns
    instead of rows, and [["id"]] raises [KeyError].  The masks built with
    [.str.len()], [.isin] or [.duplicated] stay boolean on an empty frame. *)
Definition run_stage (s : stage) (st : state) : option state :=
  if gate s then
    match kind s with
    | KRow keep => Some (_apply (fun c => keep (ctext c)) (label s) st)
    | KApply keep =>
        if nonempty st.1 then Some (_apply (fun c => keep (ctext c)) (label s) st)
        else None                                  (* [KeyError: 'id'] *)
    | KLang (Some detect) mc =>
        if nonempty st.1
        then Some (_apply (fun c => _is_english detect mc (ctext c)) (label s) st)
        else None                                  (* [KeyError: 'id'] *)
    | KLang None _ => Some st                      (* [warn]: lingua missing *)
    | KSent (Some score) thr =>
        (* [df["text"].apply(...)]: an exception of [polarity_scores] propagates *)
        if existsb (fun c => raises (score (ctext c))) st.1 then None
        else if nonempty st.1
        then Some (_apply (fun c => match score (ctext c) with
                                    | Some v => sentiment_keep v thr
                                    | None => true
                                    end) (label s) st)
        else None                                  (* [KeyError: 'id'] *)
    | KSent None _ => Some st                      (* [warn]: vaderSentiment missing *)
    | KExact => Some (_apply (fun c => negb (duplicated (map norm st.1) (norm c))) (label s) st)
    | KNear (Some ratio) thr =>
        if (thr <? 100)%Z then Some (near_phase ratio thr st) else Some st
    | KNear None _ => Some st                      (* [warn]: rapidfuzz missing *)
    end
  else Some st.

Fixpoint run_stages (ss : list stage) (st : state) : option state :=
  match ss with
  | [] => Some st
  | s :: ss' =>
      match run_stage s st with
      | Some st' => run_stages ss' st'
      | None => None
      end
  end.

(** Stages 1-5, in the order of the source. *)
Definition pre_dedup_stages (cfg : config) (cp : caps) (blacklist_texts : list string)
    : list stage :=
  [ mkStage (min_chars cfg) "Too Short"
      (KRow (fun t => Z.of_nat (String.length t) >=? min_chars_threshold cfg)%Z);
    mkStage (min_alpha cfg) "No Alpha" (KRow (fun t => 2 <=? count_alpha t));
    mkStage (min_words cfg) "Too Few Words"
      (KRow (fun t => Z.of_nat (count_words t) >=? min_words_threshold cfg)%Z);
    mkStage (blacklist_match cfg && nonempty blacklist_texts) "Blacklisted"
      (KRow (fun t => negb (existsb (String.eqb (strip (lower t))) blacklist_texts)));
    mkStage (emoji_only cfg) "Emoji Only"
      (KRow (fun t => 2 <=? String.length (strip (strip_emoji cp t))));
    mkStage (url_only cfg) "URL Only" (KRow (fun t => 2 <=? String.length (strip (url_sub t))));
    mkStage (timestamp_only cfg) "Timestamp" (KApply (fun t => negb (timestamp_full t)));
    mkStage (repeat_char cfg) "Repeated Chars"
      (KApply (fun t => negb (has_repeat (list_ascii_of_string t))));
    mkStage (english_only cfg) "Non-English" (KLang (lingua cp) (english_confidence cfg));
    mkStage (sentiment_filter cfg) "Negative Sentiment"
      (KSent (vader cp) (sentiment_threshold cfg)) ].

(** Stage 6: [if dedup:] exact phase, then near phase. *)
Definition dedup_stages (cfg : config) (cp : caps) : list stage :=
  [ mkStage (dedup cfg) "Duplicate" KExact;
    mkStage (dedup cfg) "Duplicate" (KNear (fuzz_ratio cp) (dedup_threshold cfg)) ].

Definition stages (cfg : config) (cp : caps) (blacklist_texts : list string) : list stage :=
  pre_dedup_stages cfg cp blacklist_texts ++ dedup_stages cfg cp.

(** [filter_low_value(df, blacklist_texts=..., **cfg)]: [Some (df, reasons)],
    or [None] when an exception escapes. *)
Definition filter_low_value (cfg : config) (cp : caps) (blacklist_texts : list string)
    (df : list comment) : option (list comment * reasons_map) :=
  run_stages (stages cfg cp blacklist_texts) (map entry_row df, ∅).

(* ------------------------------------------------------------------ *)
(** ** Concrete capabilities for examples *)

(** rapidfuzz's [fuzz.ratio]: the normalised InDel similarity
    [100 * (1 - (|a| + |b| - 2 LCS(a, b)) / (|a| + |b|))], 100 on two
    empty strings (exact rationals instead of doubles). *)
Fixpoint lcs_row (a : ascii) (b : list ascii) (prev : list nat) (left diag : nat) : list nat :=
  match b, prev with
  | x :: b', up :: prev' =>
      let cur := if Ascii.eqb a x then S diag else Nat.max left up in
      cur :: lcs_row a b' prev' cur up
  | _, _ => []
  end.

Fixpoint lcs_table (a b : list ascii) (prev : list nat) : list nat :=
  match a with
  | [] => prev
  | x :: a' => lcs_table a' b (lcs_row x b prev 0 0)
  end.

Definition lcs (a b : list ascii) : nat :=
  List.last (lcs_table a b (repeat 0 (length b))) 0.

Definition indel_ratio (s t : string) : Q :=
  let a := list_ascii_of_string s in
  let b := list_ascii_of_string t in
  let tot := length a + length b in
  if tot =? 0 then 100%Q
  else (inject_Z (200 * Z.of_nat (lcs a b)) / inject_Z (Z.of_nat tot))%Q.

(** The emoji-stripping fallback regex: its ranges lie above U+00FF, so on
    code points 0..255 it removes nothing. *)
Definition strip_emoji_fallback (s : string) : string := s.

Definition no_models : caps := mkCaps strip_emoji_fallback None None None.
Definition with_rapidfuzz : caps := mkCaps strip_emoji_fallback None None (Some indel_ratio).

Definition mk (i t : string) : comment := mkComment i "" (Some t) 0 0.

(* ------------------------------------------------------------------ *)
(** ** The settings sanitiser of [_run_analysis_inner] (Scripts/server.py) *)

(** A Python [float]: a finite value, an infinity ([json.loads] reads
    [1e400], [Infinity] and [-Infinity] as such) or a NaN. *)
Inductive pyfloat := FFin (q : Q) | FInf (neg : bool) | FNaN.

(** A JSON value of the job's [filter_settings] object. *)
Inductive pyval :=
  | PInt (z : Z)
  | PFloat (f : pyfloat)
  | PBool (b : bool)
  | PStr (s : string)
  | PNone
  | PList (len : nat).        (** an array or object; only its size matters here *)

(** A keyword argument forwarded to [filter_low_value]. *)
Inductive kwval := KwBool (b : bool) | KwInt (z : Z) | KwFloat (f : pyfloat).

(** The exceptions a conversion [int(v)] or [float(v)] can raise. *)
Inductive pyexc := TypeError | ValueError | OverflowError.

(** A conversion's outcome: a value, or an exception. *)
Inductive pyres (A : Type) := Ret (a : A) | Exc (e : pyexc).
Arguments Ret {A} a.
Arguments Exc {A} e.

(** [(type, min, max, default)] of [_FILTER_NUM_KEYS]. *)
Inductive numspec := NInt (lo hi dflt : Z) | NFloat (lo hi dflt : Q).

Definition _FILTER_BOOL_KEYS : list string :=
  ["min_chars"; "min_alpha"; "min_words"; "emoji_only"; "url_only"; "timestamp_only";
   "repeat_char"; "blacklist_match"; "english_only"; "sentiment_filter"; "dedup"].

Definition _FILTER_NUM_KEYS : list (string * numspec) :=
  [("min_chars_threshold", NInt 1 50 20);
   ("min_words_threshold", NInt 1 10 3);
   ("sentiment_threshold", NFloat (-1) 0 (-4 # 5));
   ("english_confidence", NFloat 0 1 (1 # 2));
   ("dedup_threshold", NInt 50 100 85)].

(** Python truthiness [bool(v)]. *)
Definition py_bool (v : pyval) : bool :=
  match v with
  | PInt z => negb (z =? 0)%Z
  | PFloat (FFin q) => negb (Qeq_bool q 0)
  | PFloat _ => true
  | PBool b => b
  | PStr s => negb (String.eqb s "")
  | PNone => false
  | PList n => negb (n =? 0)
  end.

Section Sanitiser.

(** [int(s)] and [float(s)] on strings (Python's numeric literal parsers;
    [None] is a [ValueError]).  [float(s)] never overflows: ["1e400"] and
    ["inf"] read as an infinity. *)
Variable parse_int : string -> option Z.
Variable parse_float : string -> option pyfloat.

(** [int(v)]: a float is truncated towards zero; an infinity raises
    [OverflowError] and a NaN [ValueError]. *)
Definition py_int (v : pyval) : pyres Z :=
  match v with
  | PInt z => Ret z
  | PFloat (FFin q) => Ret (Z.quot (Qnum q) (Zpos (Qden q)))
  | PFloat (FInf _) => Exc OverflowError
  | PFloat FNaN => Exc ValueError
  | PBool b => Ret (if b then 1%Z else 0%Z)
  | PStr s => match parse_int s with Some z => Ret z | None => Exc ValueError end
  | PNone | PList _ => Exc TypeError
  end.

(** The least integer that [float()] rounds past the largest double
    [(2^53 - 1) * 2^971]: [float(z)] raises [OverflowError] from
    [|z| >= 2^1024 - 2^970] on. *)
Definition float_overflow_bound : Z := (2 ^ 1024 - 2 ^ 970)%Z.

(** [float(v)].  Below the bound an int is kept as the exact rational:
    the rounding to a double is monotone and leaves the small bounds of
    [_FILTER_NUM_KEYS] fixed, so the clamped result is the same. *)
Definition py_float (v : pyval) : pyres pyfloat :=
  match v with
  | PInt z => if (float_overflow_bound <=? Z.abs z)%Z then Exc OverflowError
              else Ret (FFin (inject_Z z))
  | PFloat f => Ret f
  | PBool b => Ret (FFin (if b then 1%Q else 0%Q))
  | PStr s => match parse_float s with Some f => Ret f | None => Exc ValueError end
  | PNone | PList _ => Exc TypeError
  end.

(** Python's [min(a, b)] and [max(a, b)] return [a] unless [b] is strictly
    smaller (larger). *)
Definition py_min_Z (a b : Z) : Z := if (b <? a)%Z then b else a.
Definition py_max_Z (a b : Z) : Z := if (a <? b)%Z then b else a.

(** IEEE [a < b] on floats: false as soon as one side is a NaN. *)
Definition flt_lt (a b : pyfloat) : bool :=
  match a, b with
  | FFin x, FFin y => negb (Qle_bool y x)
  | FFin _, FInf neg => negb neg
  | FInf true, FFin _ => true
  | FInf true, FInf neg => negb neg
  | FInf false, _ => false
  | FNaN, _ | _, FNaN => false
  end.

Definition py_min_F (a b : pyfloat) : pyfloat := if flt_lt b a then b else a.
Definition py_max_F (a b : pyfloat) : pyfloat := if flt_lt a b then b else a.

(** [val = typ(raw_settings[key]); filter_kwargs[key] = max(lo, min(hi, val))]. *)
Definition sanitise_num (spec : numspec) (v : pyval) : pyres kwval :=
  match spec with
  | NInt lo hi _ =>
      match py_int v with
      | Ret z => Ret (KwInt (py_max_Z lo (py_min_Z hi z)))
      | Exc e => Exc e
      end
  | NFloat lo hi _ =>
      match py_float v with
      | Ret f => Ret (KwFloat (py_max_F (FFin lo) (py_min_F (FFin hi) f)))
      | Exc e => Exc e
      end
  end.

(** [except (TypeError, ValueError): pass]; an [OverflowError] escapes. *)
Definition caught (e : pyexc) : bool :=
  match e with TypeError | ValueError => true | OverflowError => false end.

Fixpoint assoc {A} (k : string) (l : list (string * A)) : option A :=
  match l with
  | [] => None
  | (k', v) :: l' => if String.eqb k k' then Some v else assoc k l'
  end.

(** [d[k] = v] on a dict kept in insertion order. *)
Definition dict_set {A} (k : string) (v : A) (d : list (string * A)) : list (string * A) :=
  if existsb (fun kv => String.eqb k kv.1) d
  then map (fun kv => if String.eqb k kv.1 then (k, v) else kv) d
  else d ++ [(k, v)].

(** One iteration of [for key, (typ, lo, hi, _default) in _FILTER_NUM_KEYS.items()]
    ([if key in raw_settings: try: ... except (TypeError, ValueError): pass]);
    [None] once an exception has escaped. *)
Definition num_iter (raw : list (string * pyval)) (acc : option (list (string * kwval)))
    (ks : string * numspec) : option (list (string * kwval)) :=
  match acc with
  | None => None
  | Some kw =>
      match assoc ks.1 raw with
      | Some v =>
          match sanitise_num ks.2 v with
          | Ret x => Some (dict_set ks.1 x kw)
          | Exc e => if caught e then Some kw else None
          end
      | None => Some kw
      end
  end.

(** [filter_kwargs] built from [raw_settings] (a dict: unique keys);
    [None] when an exception escapes the loop (and [_run_analysis_inner]). *)
Definition build_filter_kwargs (raw : list (string * pyval)) : option (list (string * kwval)) :=
  let bools := map (fun kv => (kv.1, KwBool (py_bool kv.2)))
                   (List.filter (fun kv => existsb (String.eqb kv.1) _FILTER_BOOL_KEYS) raw) in
  foldl (num_iter raw) (Some bools) _FILTER_NUM_KEYS.

End Sanitiser.

(** [filter_low_value(..., **kwargs)]: a keyword present in [kwargs] sets
    its parameter, the others keep the signature's default. *)
Definition kw_bool (kw : list (string * kwval)) (k : string) (d : bool) : bool :=
  match assoc k kw with Some (KwBool b) => b | _ => d end.
Definition kw_int (kw : list (string * kwval)) (k : string) (d : Z) : Z :=
  match assoc k kw with Some (KwInt z) => z | _ => d end.
(** The sanitiser only stores finite floats, the one kind a [Q] holds. *)
Definition kw_float (kw : list (string * kwval)) (k : string) (d : Q) : Q :=
  match assoc k kw with Some (KwFloat (FFin q)) => q | _ => d end.

Definition config_of_kwargs (kw : list (string * kwval)) : config :=
  mkConfig (kw_bool kw "min_chars" true) (kw_int kw "min_chars_threshold" 20)
           (kw_bool kw "min_alpha" true) (kw_bool kw "min_words" true)
           (kw_int kw "min_words_threshold" 3) (kw_bool kw "blacklist_match" true)
           (kw_bool kw "emoji_only" true) (kw_bool kw "url_only" true)
           (kw_bool kw "timestamp_only" true) (kw_bool kw "repeat_char" true)
           (kw_bool kw "english_only" true) (kw_float kw "english_confidence" (1 # 2))
           (kw_bool kw "sentiment_filter" true) (kw_float kw "sentiment_threshold" (-4 # 5))
           (kw_bool kw "dedup" true) (kw_int kw "dedup_threshold" 85).

(* ------------------------------------------------------------------ *)
(** ** Union-find: the parent list as a forest *)

(** [reach p x r d]: following [parent] from [x] reaches the root [r]
    in [d] steps. *)
Inductive reach (p : list nat) : nat -> nat -> nat -> Prop :=
  | reach_root x : p !! x = Some x -> reach p x x 0
  | reach_step x y r d : p !! x = Some y -> y <> x -> reach p y r d -> reach p x r (S d).

Definition root_of (p : list nat) (x r : nat) : Prop := exists d, reach p x r d.

(** Every index has a root: the parent list is a forest. *)
Definition uf_wf (p : list nat) : Prop := forall x, x < length p -> exists r, root_of p x r.

Definition same_roots (p p' : list nat) : Prop := forall z r, root_of p z r <-> root_of p' z r.

Definition relabel (rx ry r : nat) : nat := if decide (r = rx) then ry else r.

(** Two indices in one tree. *)
Definition same_set (p : list nat) (a b : nat) : Prop := exists r, root_of p a r /\ root_of p b r.

(** [i] is a root and the only member of its tree. *)
Definition isolated (p : list nat) (i : nat) : Prop :=
  root_of p i i /\ forall z, root_of p z i -> z = i.

(** One iteration of the double loop, for an edge predicate [e]. *)
Definition uf_step (e : nat -> nat -> bool) (p : list nat) (ij : nat * nat) : list nat :=
  if e ij.1 ij.2 then _union p ij.1 ij.2 else p.

(** The pairs [(i, j)] visited by the double loop, in order. *)
Definition all_pairs (n : nat) : list (nat * nat) :=
  flat_map (fun i => map (fun j => (i, j)) (seq (S i) (n - S i))) (seq 0 n).

(** [_fuzz.ratio(texts[i], texts[j]) >= threshold] for the pair at
    positions [i] and [j], compared in row order as the loop does. *)
Definition near_edge (ratio : string -> string -> Q) (threshold : Z) (texts : list string)
    (i j : nat) : Prop :=
  i < length texts /\ j < length texts /\
  ((i < j /\ similar ratio threshold (texts !!! i) (texts !!! j) = true) \/
   (j < i /\ similar ratio threshold (texts !!! j) (texts !!! i) = true)).

(* ------------------------------------------------------------------ *)
(** ** Analysis vocabulary for the pipeline *)

Definition ids (df : list comment) : list string := map cid df.

(** The effect of one stage that drops rows under the label [lbl]: the
    rows left are a sublist, and exactly the dropped ids that have no
    reason yet receive [lbl]. *)
Definition stage_effect (lbl : string) (st st' : state) : Prop :=
  st'.1 `sublist_of` st.1 /\
  forall k, st'.2 !! k =
    if bool_decide (k ∈ ids st.1 /\ k ∉ ids st'.1)
    then Some (default lbl (st.2 !! k)) else st.2 !! k.

(** The near phase records the literal ["Duplicate"]; a stage list is
    well formed when near stages carry that label. *)
Definition wf_stage (s : stage) : Prop :=
  match kind s with KNear _ _ => label s = "Duplicate" | _ => True end.

(** The bookkeeping invariant of [filter_low_value]: the working frame is
    a sublist of the input rows, and [reasons] has exactly the ids of the
    input that left it. *)
Definition pipeline_inv (input : list comment) (st : state) : Prop :=
  st.1 `sublist_of` input /\
  forall k, is_Some (st.2 !! k) <-> k ∈ ids input /\ k ∉ ids st.1.

(** Two comments the near phase does not join (first one first). *)
Definition far (ratio : string -> string -> Q) (threshold : Z) (a b : comment) : Prop :=
  similar ratio threshold (ctext a) (ctext b) = false.

(** [cfg2] is [cfg1] with possibly more gates switched on. *)
Definition gates_le (cfg1 cfg2 : config) : Prop :=
  (min_chars cfg1 = true -> min_chars cfg2 = true) /\
  (min_alpha cfg1 = true -> min_alpha cfg2 = true) /\
  (min_words cfg1 = true -> min_words cfg2 = true) /\
  (blacklist_match cfg1 = true -> blacklist_match cfg2 = true) /\
  (emoji_only cfg1 = true -> emoji_only cfg2 = true) /\
  (url_only cfg1 = true -> url_only cfg2 = true) /\
  (timestamp_only cfg1 = true -> timestamp_only cfg2 = true) /\
  (repeat_char cfg1 = true -> repeat_char cfg2 = true) /\
  (english_only cfg1 = true -> english_only cfg2 = true) /\
  (sentiment_filter cfg1 = true -> sentiment_filter cfg2 = true) /\
  (dedup cfg1 = true -> dedup cfg2 = true) /\
  min_chars_threshold cfg1 = min_chars_threshold cfg2 /\
  min_words_threshold cfg1 = min_words_threshold cfg2 /\
  english_confidence cfg1 = english_confidence cfg2 /\
  sentiment_threshold cfg1 = sentiment_threshold cfg2 /\
  dedup_threshold cfg1 = dedup_threshold cfg2.

(* ================================================================== *)
(* ------------------------------------------------------------------ *)
(** ** Definitions used by the statements *)

Definition ex_df : list comment :=
  [mk "1" "hi"; mk "2" "This is a wonderful video, thanks a lot";
   mk "3" "  this is a wonderful video, thanks a lot";
   mk "4" "Great explanation of the topic, very helpful"].
Definition ex_retained : list comment := [mk "4" "Great explanation of the topic, very helpful"].
Definition ex_reasons : reasons_map :=
  <["1" := "Too Short"]> (<["2" := "Duplicate"]> (<["3" := "Duplicate"]> ∅)).
Definition ex_first_stage : stage := hd (mkStage false "" KExact) (stages default_config no_models []).
Definition ex_after_first : state :=
  default (map entry_row ex_df, ∅) (run_stage ex_first_stage (map entry_row ex_df, ∅)).

(** Pairs a stage of the first run with the stage of the rerun: the same
    stage, or one whose gate is off. *)
Definition rerun_rel (s1 s2 : stage) : Prop := s2 = s1 \/ gate s2 = false.

(** A stage whose mask is [df["text"].apply(...)]: on an empty working
    frame [df[~mask]["id"]] raises [KeyError]. *)
Definition obj_mask (k : stage_kind) : bool :=
  match k with KApply _ | KLang (Some _) _ | KSent (Some _) _ => true | _ => false end.

(** Some stage of [filter_low_value] with such a mask runs. *)
Definition apply_stage_on (cfg : config) (cp : caps) : bool :=
  timestamp_only cfg || repeat_char cfg ||
  (english_only cfg && match lingua cp with Some _ => true | None => false end) ||
  (sentiment_filter cfg && match vader cp with Some _ => true | None => false end).

#[export] Instance comment_inhabited : Inhabited comment := populate (mkComment "" "" None 0 0).
Definition ex_cluster_df : list comment :=
  [mk "a" "This cooking video was really very helpful";
   mk "b" "This cooking video was really very helpful, thanks";
   mk "c" "This cooking video was really very helpful, thanks a lot!!";
   mk "d" "Great explanation of the topic, clear and useful"].
Definition ex_cluster_front : state :=
  default ([], ∅) (run_stages (pre_dedup_stages default_config with_rapidfuzz [] ++
                               [mkStage true "Duplicate" KExact]) (map entry_row ex_cluster_df, ∅)).
Definition ex_cluster_retained : list comment :=
  [mk "d" "Great explanation of the topic, clear and useful"].
Definition ex_cluster_reasons : reasons_map :=
  <["a" := "Duplicate"]> (<["b" := "Duplicate"]> (<["c" := "Duplicate"]> ∅)).

Definition with_threshold (cfg : config) (t : Z) : config :=
  mkConfig (min_chars cfg) (min_chars_threshold cfg) (min_alpha cfg) (min_words cfg)
           (min_words_threshold cfg) (blacklist_match cfg) (emoji_only cfg) (url_only cfg)
           (timestamp_only cfg) (repeat_char cfg) (english_only cfg) (english_confidence cfg)
           (sentiment_filter cfg) (sentiment_threshold cfg) (dedup cfg) t.
Definition ex_twins : list comment :=
  [mk "1" "Great explanation of the topic, very helpful";
   mk "2" "great explanation of the topic, very helpful"].

(** A stage that drops rows by a per-row mask (stages 1-5). *)
Definition mask_kind (k : stage_kind) : Prop :=
  match k with KExact | KNear _ _ => False | _ => True end.
(** [s2] is [s1], possibly with its gate switched on. *)
Definition stage_le (s1 s2 : stage) : Prop :=
  kind s1 = kind s2 /\ label s1 = label s2 /\ (gate s1 = true -> gate s2 = true) /\
  mask_kind (kind s1).
Definition without_repeat_check (cfg : config) : config :=
  mkConfig (min_chars cfg) (min_chars_threshold cfg) (min_alpha cfg) (min_words cfg)
           (min_words_threshold cfg) (blacklist_match cfg) (emoji_only cfg) (url_only cfg)
           (timestamp_only cfg) false (english_only cfg) (english_confidence cfg)
           (sentiment_filter cfg) (sentiment_threshold cfg) (dedup cfg) (dedup_threshold cfg).
Definition without_dedup (cfg : config) : config :=
  mkConfig (min_chars cfg) (min_chars_threshold cfg) (min_alpha cfg) (min_words cfg)
           (min_words_threshold cfg) (blacklist_match cfg) (emoji_only cfg) (url_only cfg)
           (timestamp_only cfg) (repeat_char cfg) (english_only cfg) (english_confidence cfg)
           (sentiment_filter cfg) (sentiment_threshold cfg) false (dedup_threshold cfg).
Definition ex_case_pair : list comment :=
  [mk "1" "Wooooow what a nice video"; mk "2" "WoOoOow what a nice video"].

Definition ex_padded : comment := mk "1" " Great explanation of the topic, very helpful".
(** A language detector and a sentiment scorer that raise on one text. *)
Definition bad_text : string := "This video is terrible and I hate it so much".
Definition lingua_raising (t : string) : option Q := if String.eqb t bad_text then None else Some 1%Q.
Definition vader_raising (t : string) : option Q := if String.eqb t bad_text then None else Some 0%Q.
Definition raising_models : caps :=
  mkCaps strip_emoji_fallback (Some lingua_raising) (Some vader_raising) None.
Definition ex_raising_df : list comment :=
  [mk "1" "Great explanation of the topic, very helpful"; mk "2" bad_text].
Definition without_sentiment (cfg : config) : config :=
  mkConfig (min_chars cfg) (min_chars_threshold cfg) (min_alpha cfg) (min_words cfg)
           (min_words_threshold cfg) (blacklist_match cfg) (emoji_only cfg) (url_only cfg)
           (timestamp_only cfg) (repeat_char cfg) (english_only cfg) (english_confidence cfg)
           false (sentiment_threshold cfg) (dedup cfg) (dedup_threshold cfg).
Definition with_min_chars (cfg : config) (t : Z) : config :=
  mkConfig (min_chars cfg) t (min_alpha cfg) (min_words cfg)
           (min_words_threshold cfg) (blacklist_match cfg) (emoji_only cfg) (url_only cfg)
           (timestamp_only cfg) (repeat_char cfg) (english_only cfg) (english_confidence cfg)
           (sentiment_filter cfg) (sentiment_threshold cfg) (dedup cfg) (dedup_threshold cfg).
Definition ex_long : comment := mk "1" "This is a thoughtful video essay about urban gardening".
Definition ex_longer : comment :=
  mk "2" "Another careful comment about composting kitchen scraps in small flats".

(** What an iteration of the loop over [_FILTER_NUM_KEYS] stores under
    [k], if anything. *)
Definition num_result (parse_int : string -> option Z) (parse_float : string -> option pyfloat)
    (raw : list (string * pyval)) (k : string) (sp : numspec) : option kwval :=
  match assoc k raw with
  | Some v => match sanitise_num parse_int parse_float sp v with Ret x => Some x | Exc _ => None end
  | None => None
  end.
(** Whether that iteration raises an exception the loop does not catch. *)
Definition num_raises (parse_int : string -> option Z) (parse_float : string -> option pyfloat)
    (raw : list (string * pyval)) (k : string) (sp : numspec) : bool :=
  match assoc k raw with
  | Some v =>
      match sanitise_num parse_int parse_float sp v with Ret _ => false | Exc e => negb (caught e) end
  | None => false
  end.
(** One iteration of that loop when it does not raise. *)
Definition num_step (parse_int : string -> option Z) (parse_float : string -> option pyfloat)
    (raw : list (string * pyval)) (kw : list (string * kwval))
    (ks : string * numspec) : list (string * kwval) :=
  match num_result parse_int parse_float raw ks.1 ks.2 with
  | Some x => dict_set ks.1 x kw
  | None => kw
  end.

(* ------------------------------------------------------------------ *)
(** ** Folder-name slugs: [_slugify], [_video_slug], [_channel_slug]
    (Scripts/analyze_video.py) *)

(** the character class [[a-z0-9]] *)
Definition is_slug_char (a : ascii) : bool :=
  let n := code a in ((97 <=? n) && (n <=? 122)) || is_digit a.

Definition is_us (a : ascii) : bool := Ascii.eqb a "_"%char.

(** [re.sub(r"[^a-z0-9]+", "_", s)]: every maximal run of characters
    outside the class becomes one ["_"]; [in_run] records that the
    previous character was outside the class. *)
Fixpoint sub_runs (in_run : bool) (l : list ascii) : list ascii :=
  match l with
  | [] => []
  | a :: l' =>
      if is_slug_char a then a :: sub_runs false l'
      else if in_run then sub_runs true l'
      else "_"%char :: sub_runs true l'
  end.

(** [s.strip("_")] and [s.rstrip("_")] *)
Definition strip_us (l : list ascii) : list ascii :=
  rev (drop_while is_us (rev (drop_while is_us l))).
Definition rstrip_us (l : list ascii) : list ascii :=
  rev (drop_while is_us (rev l)).

(** [s[:n]] for an int [n] (a negative [n] counts from the end). *)
Definition py_take {A} (n : Z) (l : list A) : list A :=
  if (0 <=? n)%Z then firstn (Z.to_nat n) l
  else firstn (length l - Z.to_nat (- n)) l.

(** [_slugify(text, max_len)]; [max_len = None] is [None], and
    [if max_len:] is false for [None] and [0]. *)
Definition _slugify (text : string) (max_len : option Z) : string :=
  let slug := strip_us (sub_runs false (map lower_char (list_ascii_of_string text))) in
  let slug :=
    match max_len with
    | Some n => if (n =? 0)%Z then slug else rstrip_us (py_take n slug)
    | None => slug
    end in
  match slug with
  | [] => "unknown"
  | _ => string_of_list_ascii slug
  end.

Definition _video_slug (title : string) : string := _slugify title (Some 10%Z).

Definition _channel_slug (channel : string) : string := _slugify channel None.

(** No two consecutive underscores. *)
Fixpoint no_double_us (l : list ascii) : bool :=
  match l with
  | a :: ((b :: _) as l') => negb (is_us a && is_us b) && no_double_us l'
  | _ => true
  end.

(** A well-formed slug body: letters, digits and single inner underscores. *)
Definition slug_wf (l : list ascii) : Prop :=
  l <> [] /\ Forall (fun a => is_slug_char a || is_us a = true) l /\
  head l <> Some "_"%char /\ last l <> Some "_"%char /\ no_double_us l = true.


(* ------------------------------------------------------------------ *)
(** ** Comment stores: [CommentStore] (Scripts/comment_store.py) and the
    routes of Scripts/server.py that move comments between them

    A store is its list of comment dicts (the value of [_get_data()]).
    A dict is kept as the keys the code reads: ["id"] (comment ids are
    strings: the YouTube id, or [str(row["id"])]; [None] when the key is
    missing), ["text"], ["_reportPath"], and the remaining keys in order. *)

Record entry := mkEntry {
  e_id : option string;
  e_text : option string;
  e_report : option string;
  e_rest : list (string * pyval)
}.

(** The three module-level stores of the server. *)
Inductive store_name := Saved | Blacklist | Deleted.

#[global] Instance store_name_eq_dec : EqDecision store_name.
Proof. solve_decision. Defined.

Record stores := mkStores { saved_store : list entry; blacklist_store : list entry;
                            deleted_store : list entry }.

Definition get_store (n : store_name) (S : stores) : list entry :=
  match n with
  | Saved => saved_store S | Blacklist => blacklist_store S | Deleted => deleted_store S
  end.

Definition set_store (n : store_name) (l : list entry) (S : stores) : stores :=
  match n with
  | Saved => mkStores l (blacklist_store S) (deleted_store S)
  | Blacklist => mkStores (saved_store S) l (deleted_store S)
  | Deleted => mkStores (saved_store S) (blacklist_store S) l
  end.

(** A call on the stores: its result ([None] when it raises) and the
    stores when it returns or raises. *)
Definition M (A : Type) : Type := stores -> option A * stores.

Definition mret {A} (a : A) : M A := fun S => (Some a, S).
Definition mbind' {A B} (m : M A) (k : A -> M B) : M B :=
  fun S => match m S with
           | (Some a, S') => k a S'
           | (None, S') => (None, S')
           end.
Definition raise {A} : M A := fun S => (None, S).

Notation "'let*' x := m 'in' k" := (mbind' m (fun x => k))
  (at level 200, x name, m at level 100, k at level 200, right associativity).

(** [c.get("id") == comment_id] *)
Definition has_id (i : option string) (c : entry) : bool := bool_decide (e_id c = i).

Section Store.

(** Whether writing [data] to the Parquet file of a store succeeds. *)
Variable write_ok : store_name -> list entry -> bool.

(** [_save_and_cache(data)]: on a failed write the cache is unchanged and
    the exception propagates. *)
Definition _save_and_cache (n : store_name) (data : list entry) : M unit :=
  fun S => if write_ok n data then (Some tt, set_store n data S) else (None, S).

(** [all()] and [load()] *)
Definition all (n : store_name) : M (list entry) := fun S => (Some (get_store n S), S).

(** [add_many(comments)] *)
Definition add_many (n : store_name) (comments : list entry) : M nat :=
  match comments with
  | [] => mret 0
  | _ =>
      let* data := all n in
      let new := List.filter (fun c => negb (existsb (fun d => has_id (e_id d) c) data)) comments in
      match new with
      | [] => mret 0
      | _ => let* _ := _save_and_cache n (new ++ data) in mret (length new)
      end
  end.

(** [add(comment)]: a dict without ["id"] raises [ValueError]. *)
Definition add (n : store_name) (comment : entry) : M bool :=
  match e_id comment with
  | None => raise
  | Some i =>
      let* data := all n in
      if existsb (has_id (Some i)) data then mret false
      else let* _ := _save_and_cache n (comment :: data) in mret true
  end.

(** [remove(comment_id)] *)
Definition remove (n : store_name) (comment_id : option string) : M bool :=
  let* data := all n in
  let filtered := List.filter (fun c => negb (has_id comment_id c)) data in
  if length filtered =? length data then mret false
  else let* _ := _save_and_cache n filtered in mret true.

(** [get(comment_id)] *)
Definition get (n : store_name) (comment_id : option string) : M (option entry) :=
  let* data := all n in mret (List.find (has_id comment_id) data).

(** [clear()] *)
Definition clear (n : store_name) : M unit := _save_and_cache n [].

(** Whether [_remove_from_parquet(cid, report_path)] returns normally. *)
Variable parquet_ok : option string -> string -> bool.

(** [if report_path: _remove_from_parquet(cid, report_path)] *)
Definition remove_from_parquet (cid : option string) (report_path : option string) : M unit :=
  match report_path with
  | Some r => if String.eqb r "" then mret tt
              else if parquet_ok cid r then mret tt else raise
  | None => mret tt
  end.

(** [_move_exclusive(comment, dest_store)] *)
Definition _move_exclusive (comment : entry) (dest : store_name) : M unit :=
  let cid := e_id comment in
  let* _ := remove Saved cid in
  let* _ := remove Blacklist cid in
  let* _ := remove Deleted cid in
  let* _ := remove_from_parquet cid (e_report comment) in
  let* _ := add dest comment in
  mret tt.

(** [not isinstance(comment, dict) or not comment.get("id")] fails *)
Definition valid_comment (c : entry) : bool :=
  match e_id c with Some i => negb (String.eqb i "") | None => false end.

(** [comment.setdefault("reason", "User")] *)
Definition setdefault_reason (c : entry) : entry :=
  match assoc "reason" (e_rest c) with
  | Some _ => c
  | None => mkEntry (e_id c) (e_text c) (e_report c) (e_rest c ++ [("reason", PStr "User")])
  end.

(** A route's answer: [{"success": true}] (with a count), or the 400 error. *)
Inductive response := Ok (count : option nat) | BadRequest.

(** [api_comment_blacklist], [api_comment_delete] and [api_comment_save]. *)
Definition api_comment_blacklist (comment : entry) : M response :=
  if valid_comment comment
  then let* _ := _move_exclusive (setdefault_reason comment) Blacklist in mret (Ok None)
  else mret BadRequest.

Definition api_comment_delete (comment : entry) : M response :=
  if valid_comment comment
  then let* _ := _move_exclusive comment Deleted in mret (Ok None)
  else mret BadRequest.

Definition api_comment_save (comment : entry) : M response :=
  if valid_comment comment
  then let* _ := _move_exclusive comment Saved in mret (Ok None)
  else mret BadRequest.

Fixpoint add_each (n : store_name) (cs : list entry) : M unit :=
  match cs with
  | [] => mret tt
  | c :: cs' => let* _ := add n c in add_each n cs'
  end.

(** [api_blacklist_clear] ([src = Blacklist]) and [api_saved_delete_all]
    ([src = Saved]): every comment is added to the Deleted bin, then the
    source store is cleared. *)
Definition move_all_to_deleted (src : store_name) : M response :=
  let* comments := all src in
  let* _ := add_each Deleted comments in
  let* _ := clear src in
  mret (Ok (Some (length comments))).

Definition api_blacklist_clear : M response := move_all_to_deleted Blacklist.
Definition api_saved_delete_all : M response := move_all_to_deleted Saved.

End Store.

(** The ids a store holds. *)
Definition store_ids (l : list entry) : list string := omap e_id l.


(* ------------------------------------------------------------------ *)
(** ** The classify step of [_run_analysis_inner] (Scripts/server.py):
    the blacklist texts, [filter_low_value], the save of the filtered
    rows, and the auto-blacklist batch. *)

(** [{c.get("text", "").lower().strip() for c in blacklist_store.all() if c.get("text")}],
    as a list (only membership and emptiness of the set are used). *)
Definition blacklist_texts_of (bl : list entry) : list string :=
  omap (fun c => match e_text c with
                 | Some t => if String.eqb t "" then None else Some (strip (lower t))
                 | None => None
                 end) bl.

(** [df_raw[~df_raw["id"].isin(df_filtered["id"])]] *)
Definition df_low_of (df_raw df_filtered : list comment) : list comment :=
  List.filter (fun c => negb (bool_decide (cid c ∈ ids df_filtered))) df_raw.

(** One dict of the batch: [id], [author], [text], [like_count],
    [_reportPath], [reason]. *)
Definition batch_entry (reasons : reasons_map) (report_path : string) (c : comment) : entry :=
  mkEntry (Some (cid c)) (Some (ctext c)) (Some report_path)
    [("author", PStr (author c)); ("like_count", PInt (like_count c));
     ("reason", PStr (default "Low Value" (reasons !! cid c)))].

(** [[{...} for _, row in df_low.iterrows() if row.get("id")]] *)
Definition auto_blacklist_batch (df_low : list comment) (reasons : reasons_map)
    (report_path : string) : list entry :=
  map (batch_entry reasons report_path) (List.filter (fun c => negb (String.eqb (cid c) "")) df_low).

Section Worker.

Variable write_ok : store_name -> list entry -> bool.
(** Whether [df_filtered.to_parquet(parquet_path)] succeeds. *)
Variable parquet_save_ok : list comment -> bool.

(** Lines 172-209 of [_run_analysis_inner], on the stores: the result is
    [(df_filtered, reasons)], [None] when an exception escapes. *)
Definition classify_and_blacklist (kw : list (string * kwval)) (cp : caps)
    (report_path : string) (df_raw : list comment) : M (list comment * reasons_map) :=
  let* bl := all Blacklist in
  let blacklist_texts := if kw_bool kw "blacklist_match" true then blacklist_texts_of bl else [] in
  match filter_low_value (config_of_kwargs kw) cp blacklist_texts df_raw with
  | None => raise
  | Some (df_filtered, reasons) =>
      if parquet_save_ok df_filtered then
        let df_low := df_low_of df_raw df_filtered in
        match df_low with
        | [] => mret (df_filtered, reasons)
        | _ =>
            let* _ := add_many write_ok Blacklist (auto_blacklist_batch df_low reasons report_path) in
            mret (df_filtered, reasons)
        end
      else raise
  end.

End Worker.


(** Example data for the analysis worker. *)
Definition ex_worker_df : list comment :=
  [mk "1" "  buy cheap followers at my channel NOW "; mk "2" "Great explanation of the topic, very helpful";
   mk "3" "ok"].
Definition ex_worker_stores : stores :=
  mkStores [] [mkEntry (Some "b") (Some "Buy cheap followers at my channel now") None []] [].


(* ------------------------------------------------------------------ *)
(** ** [_parse_iso8601_duration] (Scripts/get_comments.py)

    [re.match(r"PT(?:(\d+)H)?(?:(\d+)M)?(?:(\d+)S)?", duration or "")]:
    the match is anchored at the start only, every group is optional, and
    a group [(\d+)u] matches exactly when the maximal run of digits is
    non-empty and followed by [u] (a shorter run is followed by a digit). *)

(** The maximal run of leading digits, and the rest. *)
Fixpoint take_digits (l : list ascii) : list ascii * list ascii :=
  match l with
  | [] => ([], [])
  | a :: l' => if is_digit a then let '(ds, r) := take_digits l' in (a :: ds, r) else ([], l)
  end.

(** [(?:(\d+)u)?]: the group, and the rest of the input. *)
Definition opt_group (u : ascii) (l : list ascii) : option (list ascii) * list ascii :=
  match take_digits l with
  | ((_ :: _) as ds, b :: r) => if Ascii.eqb b u then (Some ds, r) else (None, l)
  | _ => (None, l)
  end.

(** [int(match.group(k) or 0)] *)
Definition int_of_group (g : option (list ascii)) : Z :=
  match g with
  | Some ds => fold_left (fun acc d => acc * 10 + Z.of_nat (code d - 48))%Z ds 0%Z
  | None => 0%Z
  end.

Definition _parse_iso8601_duration (duration : option string) : Z :=
  match list_ascii_of_string (default "" duration) with
  | p :: t :: l =>
      if Ascii.eqb p "P" && Ascii.eqb t "T" then
        let '(hours, l1) := opt_group "H" l in
        let '(minutes, l2) := opt_group "M" l1 in
        let '(seconds, _) := opt_group "S" l2 in
        (int_of_group hours * 3600 + int_of_group minutes * 60 + int_of_group seconds)%Z
      else 0%Z
  | _ => 0%Z
  end.

(** The decimal digits of [n], as [str(n)] writes them. *)
Definition decimal (n : nat) : list ascii :=
  list_ascii_of_string (DecimalString.NilEmpty.string_of_uint (Nat.to_uint n)).

(** An optional component [<n><u>] of a duration. *)
Definition duration_part (n : option nat) (u : ascii) : list ascii :=
  match n with Some k => decimal k ++ [u] | None => [] end.


(* ------------------------------------------------------------------ *)
(** ** [esc] (Scripts/create_report.py) *)

(** The double quote character. *)
Definition dquote : ascii := ascii_of_nat 34.

(** [s.replace(c, new)] for a one-character [c]: every occurrence of [c]
    is replaced by [new]. *)
Definition replace_char (c : ascii) (new : string) (s : string) : string :=
  string_of_list_ascii
    (flat_map (fun a => if Ascii.eqb a c then list_ascii_of_string new else [a])
              (list_ascii_of_string s)).

(** [str(text)] with [&], [<], [>] and then the double quote replaced
    by [&amp;], [&lt;], [&gt;] and [&quot;], by four chained [replace] calls. *)
Definition esc (text : string) : string :=
  replace_char dquote "&quot;"
    (replace_char ">" "&gt;" (replace_char "<" "&lt;" (replace_char "&" "&amp;" text))).

(** What [esc] writes for one character. *)
Definition esc_char (a : ascii) : list ascii :=
  if Ascii.eqb a "&" then list_ascii_of_string "&amp;"
  else if Ascii.eqb a "<" then list_ascii_of_string "&lt;"
  else if Ascii.eqb a ">" then list_ascii_of_string "&gt;"
  else if Ascii.eqb a dquote then list_ascii_of_string "&quot;"
  else [a].


(* ------------------------------------------------------------------ *)
(** ** The [.env] routes: [api_env_keys_get] and [api_env_keys_post]
    (Scripts/server.py)

    The file's text is taken as Python reads it in text mode (universal
    newlines: only ["\n"] ends a line); [readlines] keeps each line's
    ["\n"] and [writelines] concatenates. *)

(** ["\n"] *)
Definition nl : string := String "010"%char EmptyString.

(** [f.readlines()], on the characters. *)
Fixpoint readlines_l (l : list ascii) : list (list ascii) :=
  match l with
  | [] => []
  | a :: l' =>
      if Ascii.eqb a "010" then [a] :: readlines_l l'
      else match readlines_l l' with
           | [] => [[a]]
           | x :: r => (a :: x) :: r
           end
  end.

Definition readlines (content : string) : list string :=
  map string_of_list_ascii (readlines_l (list_ascii_of_string content)).

(** [f.writelines(lines)] *)
Definition writelines (lines : list string) : string := String.concat "" lines.

(** [_ENV_ALLOWED_KEYS]; the routes iterate over the frozenset, whose
    order is taken as a parameter [keys] below. *)
Definition _ENV_ALLOWED_KEYS : list string := ["YOUTUBE_API_KEY"; "ANTHROPIC_API_KEY"].

(** ["\n" in val or "\r" in val] *)
Definition has_newline (s : string) : bool :=
  existsb (fun a => Ascii.eqb a "010" || Ascii.eqb a "013") (list_ascii_of_string s).

(** [f"{key}={val}\n"] *)
Definition assignment (k v : string) : string := k ++ "=" ++ v ++ nl.

(** One line of the update loop: the key written, and the new line. *)
Definition update_line (updates : list (string * string)) (line : string) : option string * string :=
  match List.find (fun kv => String.prefix (kv.1 ++ "=") (strip line)) updates with
  | Some (k, v) => (Some k, assignment k v)
  | None => (None, line)
  end.

(** [new_lines]: the lines, updated in place, then the keys not written. *)
Definition new_env_lines (updates : list (string * string)) (env_lines : list string) : list string :=
  let res := map (update_line updates) env_lines in
  let written := omap fst res in
  map snd res ++
  map (fun kv => assignment kv.1 kv.2)
      (List.filter (fun kv => negb (existsb (String.eqb kv.1) written)) updates).

(** The answer of [api_env_keys_post]. *)
Inductive env_answer := EnvUpdated (updated : list string) | EnvInvalid (key : string).

Section EnvKeys.

(** [str(val)] of a JSON value that is not a string. *)
Variable py_str : pyval -> string.

Definition to_str (v : pyval) : string :=
  match v with PStr s => s | _ => py_str v end.

(** The loop building [updates]: [inl key] for the 400 answer. *)
Fixpoint collect_updates (keys : list string) (data : list (string * pyval))
    : string + list (string * string) :=
  match keys with
  | [] => inr []
  | k :: ks =>
      match assoc k data with
      | None | Some PNone => collect_updates ks data
      | Some v =>
          let val := strip (to_str v) in
          if String.eqb val "" then collect_updates ks data
          else if has_newline val then inl k
          else match collect_updates ks data with
               | inl e => inl e
               | inr u => inr ((k, val) :: u)
               end
      end
  end.

(** [api_env_keys_post]: the answer, and the new text of [.env] when the
    route writes it ([env = None]: the file does not exist). *)
Definition api_env_keys_post (keys : list string) (data : list (string * pyval))
    (env : option string) : env_answer * option string :=
  match collect_updates keys data with
  | inl k => (EnvInvalid k, None)
  | inr [] => (EnvUpdated [], None)
  | inr updates =>
      let env_lines := match env with Some c => readlines c | None => [] end in
      (EnvUpdated (map fst updates), Some (writelines (new_env_lines updates env_lines)))
  end.

End EnvKeys.

(** The mask ["···"] (three U+00B7). *)
Definition mask_dots : string :=
  String (ascii_of_nat 183) (String (ascii_of_nat 183) (String (ascii_of_nat 183) EmptyString)).

(** [api_env_keys_get]: [environ] is [os.environ.get(key, "")]. *)
Definition api_env_keys_get (keys : list string) (environ : string -> string)
    : list (string * option string) :=
  map (fun key =>
         let val := environ key in
         if 4 <=? String.length val
         then (key, Some (String.append mask_dots (substring (String.length val - 4) 4 val)))
         else if negb (String.eqb val "") then (key, Some mask_dots)
         else (key, None)) keys.

(** Keys the update loop can match unambiguously: no ["="] or ["\n"], and
    no leading whitespace. *)
Definition env_key_ok (k : string) : bool :=
  negb (existsb (fun a => Ascii.eqb a "=" || Ascii.eqb a "010") (list_ascii_of_string k)) &&
  match list_ascii_of_string k with a :: _ => negb (is_space a) | [] => true end.

(** The text is empty or ends with ["\n"]. *)
Definition ends_nl (c : string) : bool :=
  match rev (list_ascii_of_string c) with [] => true | a :: _ => Ascii.eqb a "010" end.


(** A line as [readlines] gives it when the text ends with a newline. *)
Definition line_okl (x : list ascii) : Prop :=
  exists b, x = b ++ ["010"%char] /\ ~ In "010"%char b.

Definition line_ok (x : string) : Prop := line_okl (list_ascii_of_string x).


(** The facts about [updates] the update loop relies on. *)
Definition updates_ok (U : list (string * string)) : Prop :=
  NoDup (map fst U) /\
  forall k v, In (k, v) U -> env_key_ok k = true /\ strip v = v /\ v <> ""%string /\ has_newline v = false.


(** Example data for the [.env] routes. *)
Definition ex_env_data : list (string * pyval) := [("YOUTUBE_API_KEY", PStr " abc ")].

Definition ex_env_text : string := String.append "A=1" (String.append nl (String.append " YOUTUBE_API_KEY=old" nl)).

Definition ex_env_new : string := String.append "A=1" (String.append nl (String.append "YOUTUBE_API_KEY=abc" nl)).

Definition ex_environ (k : string) : string :=
  if String.eqb k "YOUTUBE_API_KEY" then "secret123"%string else ""%string.


(* ------------------------------------------------------------------ *)
(** ** The job registry: [_cleanup_stale_jobs] (Scripts/server.py)

    [_jobs] is a [gmap] from job ids; a time stamp ([time.time()]) is a
    rational number of seconds. *)

(** [_JOB_TTL] *)
Definition _JOB_TTL : Q := 3600.

Section Jobs.

Context {job : Type}.

(** [j.get("finished_at")]: [None] for a missing key or a [None] value. *)
Variable finished_at : job -> option Q.

(** [j.get("finished_at") and now - j["finished_at"] > _JOB_TTL] *)
Definition is_stale (now : Q) (j : job) : bool :=
  match finished_at j with
  | Some f => negb (Qeq_bool f 0) && negb (Qle_bool (now - f) _JOB_TTL)
  | None => false
  end.

(** [_cleanup_stale_jobs()] at time [now]: the list [stale], then one
    [del _jobs[jid]] per entry. *)
Definition _cleanup_stale_jobs (now : Q) (jobs : gmap string job) : gmap string job :=
  let stale := map fst (List.filter (fun jj => is_stale now jj.2) (map_to_list jobs)) in
  fold_left (fun m jid => delete jid m) stale jobs.

End Jobs.


(** Example job registry. *)
Definition ex_jobs : gmap string (option Q) :=
  <["a" := Some 100%Q]> (<["b" := None]> (<["c" := Some 5000%Q]> ∅)).

(** * Lemmas *)

Lemma reach_det p x r d r' d' : reach p x r d -> reach p x r' d' -> r = r' /\ d = d'.
Proof.
  intros H. revert r' d'.
  induction H as [x Hx | x y r d Hx Hy H IH]; intros r' d' H'; inversion H'; subst.
  - auto.
  - congruence.
  - congruence.
  - assert (y = y0) by congruence. subst. destruct (IH _ _ H2). subst. auto.
Qed.

Lemma root_of_det p x r r' : root_of p x r -> root_of p x r' -> r = r'.
Proof. intros [d H] [d' H']. by destruct (reach_det _ _ _ _ _ _ H H'). Qed.

Lemma reach_root_self p x r d : reach p x r d -> p !! r = Some r.
Proof. induction 1; auto. Qed.

Lemma reach_lt p x r d : reach p x r d -> x < length p.
Proof. destruct 1; eapply lookup_lt_Some; eauto. Qed.

Lemma root_of_is_root p x r : p !! x = Some x -> root_of p x r -> r = x.
Proof. intros Hx Hr. eapply root_of_det; [exact Hr|]. exists 0. by constructor. Qed.

Lemma root_of_root_self p x r : root_of p x r -> root_of p r r.
Proof. intros [d H]. exists 0. constructor. eapply reach_root_self; eauto. Qed.

Lemma reach_path p x r d : reach p x r d ->
  exists l, length l = S d /\ NoDup l /\
            forall z, z ∈ l -> exists e, e <= d /\ reach p z r e.
Proof.
  induction 1 as [x Hx | x y r d Hx Hy H IH].
  - exists [x]. split; [done|]. split; [apply NoDup_singleton|].
    intros z Hz. apply list_elem_of_singleton in Hz as ->.
    exists 0. split; [lia|]. by constructor.
  - destruct IH as (l & Hlen & Hnd & Hl).
    assert (Hx' : reach p x r (S d)) by (econstructor; eauto).
    exists (x :: l). split; [simpl; lia|]. split.
    + apply NoDup_cons_2; [|done]. intros Hin.
      destruct (Hl x Hin) as (e & He & Hr).
      destruct (reach_det _ _ _ _ _ _ Hr Hx'). lia.
    + intros z Hz. apply elem_of_cons in Hz as [->|Hz].
      * exists (S d). split; [lia|done].
      * destruct (Hl z Hz) as (e & ? & ?). exists e. split; [lia|done].
Qed.

(** A path to the root visits distinct indices, so it is shorter than
    the parent list. *)
Lemma reach_depth_lt p x r d : reach p x r d -> d < length p.
Proof.
  intros H. destruct (reach_path _ _ _ _ H) as (l & Hlen & Hnd & Hl).
  assert (Hsub : l ⊆+ seq 0 (length p)).
  { apply NoDup_submseteq; [done|]. intros z Hz.
    destruct (Hl z Hz) as (e & _ & Hr). apply elem_of_seq.
    pose proof (reach_lt _ _ _ _ Hr). lia. }
  apply submseteq_length in Hsub. rewrite length_seq in Hsub. lia.
Qed.

Lemma reach_parent p x y r d : reach p x r d -> p !! x = Some y ->
  exists e, e <= d - 1 /\ reach p y r e.
Proof.
  intros H Hy. inversion H; subst.
  - assert (y = r) by congruence. subst. exists 0. split; [lia|]. by constructor.
  - assert (y0 = y) by congruence. subst. exists d0. split; [lia|done].
Qed.

(** One round of path halving: [parent[x] = parent[parent[x]]]. *)
Lemma halve_reach p x y g : p !! x = Some y -> y <> x -> p !! y = Some g ->
  forall d z r, reach p z r d -> exists d', d' <= d /\ reach (<[x := g]> p) z r d'.
Proof.
  intros Hx Hyx Hg d. induction d as [d IH] using (well_founded_induction lt_wf).
  intros z r Hz. destruct Hz as [z Hzz | z w r d0 Hzw Hwz Hw].
  - assert (z <> x) by (intros ->; congruence).
    exists 0. split; [lia|]. constructor. rewrite list_lookup_insert_ne; auto.
  - destruct (decide (z = x)) as [->|Hne].
    + assert (w = y) by congruence. subst w.
      destruct (reach_parent _ _ _ _ _ Hw Hg) as (e & He & Hge).
      destruct (IH e ltac:(lia) g r Hge) as (e' & He' & Hr').
      assert (Hgx : g <> x).
      { intros ->. destruct (reach_det _ _ _ _ _ _ Hge (reach_step p x y r d0 Hzw Hwz Hw)). lia. }
      exists (S e'). split; [lia|]. econstructor; [|exact Hgx|exact Hr'].
      apply list_lookup_insert_eq. eapply lookup_lt_Some; eauto.
    + destruct (IH d0 ltac:(lia) w r Hw) as (e' & He' & Hr').
      exists (S e'). split; [lia|]. econstructor; [|exact Hwz|exact Hr'].
      rewrite list_lookup_insert_ne; auto.
Qed.

Lemma same_roots_of_forward p p' :
  uf_wf p -> length p' = length p ->
  (forall z r, root_of p z r -> root_of p' z r) -> uf_wf p' /\ same_roots p p'.
Proof.
  intros Hwf Hlen Hfw. split.
  - intros x Hx. destruct (Hwf x ltac:(lia)) as [r Hr]. eauto.
  - intros z r. split; [apply Hfw|]. intros Hr'.
    destruct Hr' as [d Hd]. pose proof (reach_lt _ _ _ _ Hd).
    destruct (Hwf z ltac:(lia)) as [r0 Hr0].
    pose proof (Hfw _ _ Hr0) as Hr0'.
    assert (r = r0) by (eapply root_of_det; [exists d; exact Hd|exact Hr0']). by subst.
Qed.

Lemma same_roots_trans p1 p2 p3 : same_roots p1 p2 -> same_roots p2 p3 -> same_roots p1 p3.
Proof. intros H12 H23 z r. rewrite (H12 z r). apply H23. Qed.

Lemma same_roots_refl p : same_roots p p.
Proof. done. Qed.

Lemma find_loop_spec fuel p x r d :
  uf_wf p -> reach p x r d -> d <= fuel ->
  exists p', find_loop fuel p x = (p', r) /\ length p' = length p /\
             uf_wf p' /\ same_roots p p'.
Proof.
  revert p x d. induction fuel as [|fuel IH]; intros p x d Hwf Hr Hd.
  - assert (d = 0) by lia. subst. inversion Hr; subst.
    exists p. simpl. split; [done|]. split; [done|]. split; [done|]. apply same_roots_refl.
  - simpl. inversion Hr as [x' Hxx | x' y r' d0 Hxy Hyx Hy]; subst.
    + rewrite (list_lookup_total_correct _ _ _ Hxx). rewrite decide_True by done.
      exists p. split; [done|]. split; [done|]. split; [done|]. apply same_roots_refl.
    + rewrite (list_lookup_total_correct _ _ _ Hxy). rewrite decide_False by done.
      assert (Hyl : y < length p) by (eapply reach_lt; eauto).
      destruct (lookup_lt_is_Some_2 p y Hyl) as [g Hg].
      rewrite (list_lookup_total_correct _ _ _ Hg).
      assert (Hxl : x < length p) by (eapply lookup_lt_Some; eauto).
      rewrite list_lookup_total_insert_eq by done.
      destruct (reach_parent _ _ _ _ _ Hy Hg) as (e & He & Hge).
      destruct (same_roots_of_forward p (<[x:=g]> p) Hwf ltac:(by rewrite length_insert))
        as [Hwf' Hsr'].
      { intros z r0 [dz Hz]. destruct (halve_reach _ _ _ _ Hxy Hyx Hg _ _ _ Hz) as (? & _ & ?).
        eexists; eauto. }
      destruct (halve_reach _ _ _ _ Hxy Hyx Hg _ _ _ Hge) as (e' & He' & Hge').
      destruct (IH _ _ _ Hwf' Hge' ltac:(lia)) as (p'' & Hf & Hlen & Hwf'' & Hsr'').
      exists p''. split; [done|]. split; [by rewrite Hlen, length_insert|].
      split; [done|]. eapply same_roots_trans; eauto.
Qed.

Lemma find_spec p x r : uf_wf p -> root_of p x r ->
  exists p', _find p x = (p', r) /\ length p' = length p /\ uf_wf p' /\ same_roots p p'.
Proof.
  intros Hwf [d Hd]. apply (find_loop_spec _ _ _ _ d Hwf Hd).
  pose proof (reach_depth_lt _ _ _ _ Hd). lia.
Qed.

(** [parent[px] = py] on two distinct roots. *)
Lemma link_reach p px py : p !! px = Some px -> p !! py = Some py -> px <> py ->
  forall z r d, reach p z r d ->
  root_of (<[px := py]> p) z (if decide (r = px) then py else r).
Proof.
  intros Hpx Hpy Hne z r d H. induction H as [z Hz | z w r d Hzw Hwz Hw IH].
  - destruct (decide (z = px)) as [->|Hzpx].
    + exists 1. apply (reach_step _ px py py 0).
      * apply list_lookup_insert_eq. eapply lookup_lt_Some; eauto.
      * congruence.
      * constructor. rewrite list_lookup_insert_ne by congruence. done.
    + exists 0. constructor. rewrite list_lookup_insert_ne by congruence. done.
  - assert (z <> px) by (intros ->; congruence).
    destruct IH as [e He]. exists (S e). apply (reach_step _ z w _ e); [|exact Hwz|exact He].
    rewrite list_lookup_insert_ne by congruence. done.
Qed.

Lemma union_spec p x y rx ry : uf_wf p -> root_of p x rx -> root_of p y ry ->
  length (_union p x y) = length p /\ uf_wf (_union p x y) /\
  forall z r, root_of p z r -> root_of (_union p x y) z (relabel rx ry r).
Proof.
  intros Hwf Hx Hy. unfold _union.
  destruct (find_spec p x rx Hwf Hx) as (p1 & -> & Hl1 & Hwf1 & Hs1).
  destruct (find_spec p1 y ry Hwf1 (proj1 (Hs1 _ _) Hy)) as (p2 & -> & Hl2 & Hwf2 & Hs2).
  assert (Hx2 : root_of p2 x rx) by (apply Hs2, Hs1; done).
  assert (Hy2 : root_of p2 y ry) by (apply Hs2, Hs1; done).
  destruct (decide (rx = ry)) as [<-|Hne].
  - split; [lia|]. split; [done|]. intros z r Hr. unfold relabel.
    destruct (decide (r = rx)) as [->|]; apply Hs2, Hs1; done.
  - assert (Hrx : p2 !! rx = Some rx) by (destruct Hx2 as [? Hd]; eapply reach_root_self; eauto).
    assert (Hry : p2 !! ry = Some ry) by (destruct Hy2 as [? Hd]; eapply reach_root_self; eauto).
    split; [rewrite length_insert; lia|]. split.
    + intros z Hz. rewrite length_insert in Hz. destruct (Hwf2 z ltac:(lia)) as [r [d Hd]].
      eexists. eapply link_reach; eauto.
    + intros z r Hr. apply Hs1, Hs2 in Hr. destruct Hr as [d Hd].
      unfold relabel. eapply link_reach; eauto.
Qed.

Lemma union_facts p x y : uf_wf p -> x < length p -> y < length p ->
  length (_union p x y) = length p /\ uf_wf (_union p x y) /\
  (forall a b, same_set p a b -> same_set (_union p x y) a b) /\
  same_set (_union p x y) x y /\
  (forall i, isolated p i -> x <> i -> y <> i -> isolated (_union p x y) i).
Proof.
  intros Hwf Hx Hy. destruct (Hwf x Hx) as [rx Hrx]. destruct (Hwf y Hy) as [ry Hry].
  destruct (union_spec p x y rx ry Hwf Hrx Hry) as (Hlen & Hwf' & Hmap).
  split; [done|]. split; [done|]. split; [|split].
  - intros a b (r & Ha & Hb). exists (relabel rx ry r). auto.
  - exists ry. split.
    + pose proof (Hmap _ _ Hrx) as H. unfold relabel in H. by rewrite decide_True in H.
    + pose proof (Hmap _ _ Hry) as H. unfold relabel in H.
      by destruct (decide (ry = rx)) as [->|].
  - intros i [Hii Honly] Hxi Hyi.
    assert (Hrxi : rx <> i) by (intros ->; apply Hxi, Honly, Hrx).
    assert (Hryi : ry <> i) by (intros ->; apply Hyi, Honly, Hry).
    split.
    + pose proof (Hmap _ _ Hii) as H. unfold relabel in H.
      by rewrite decide_False in H by congruence.
    + intros z Hz. destruct Hz as [d Hd]. pose proof (reach_lt _ _ _ _ Hd) as Hzl.
      rewrite Hlen in Hzl. destruct (Hwf z Hzl) as [r Hr].
      pose proof (Hmap _ _ Hr) as Hr'.
      assert (Hri : relabel rx ry r = i) by (eapply root_of_det; [exact Hr'|exists d; exact Hd]).
      unfold relabel in Hri. destruct (decide (r = rx)); [congruence|]. subst r. by apply Honly.
Qed.

Lemma fold_union_facts (e : nat -> nat -> bool) (L : list (nat * nat)) (p : list nat) :
  uf_wf p -> (forall ij, ij ∈ L -> ij.1 < length p /\ ij.2 < length p) ->
  length (foldl (uf_step e) p L) = length p /\ uf_wf (foldl (uf_step e) p L) /\
  (forall a b, same_set p a b -> same_set (foldl (uf_step e) p L) a b) /\
  (forall ij, ij ∈ L -> e ij.1 ij.2 = true -> same_set (foldl (uf_step e) p L) ij.1 ij.2) /\
  (forall i, isolated p i ->
     (forall ij, ij ∈ L -> e ij.1 ij.2 = true -> ij.1 <> i /\ ij.2 <> i) ->
     isolated (foldl (uf_step e) p L) i).
Proof.
  revert p. induction L as [|[x y] L IH]; intros p Hwf HL; simpl.
  - split; [done|]. split; [done|]. split; [done|]. split; [|done].
    intros ij Hij. by apply not_elem_of_nil in Hij.
  - destruct (HL (x, y) (list_elem_of_here _ _)) as [Hx Hy]. simpl in Hx, Hy.
    assert (Hstep : length (uf_step e p (x, y)) = length p /\ uf_wf (uf_step e p (x, y)) /\
      (forall a b, same_set p a b -> same_set (uf_step e p (x, y)) a b) /\
      (e x y = true -> same_set (uf_step e p (x, y)) x y) /\
      (forall i, isolated p i -> (e x y = true -> x <> i /\ y <> i) ->
                 isolated (uf_step e p (x, y)) i)).
    { unfold uf_step. simpl. destruct (e x y) eqn:Hexy.
      - destruct (union_facts p x y Hwf Hx Hy) as (H1 & H2 & H3 & H4 & H5).
        split; [done|]. split; [done|]. split; [done|]. split; [done|].
        intros i Hi Hxy. destruct (Hxy eq_refl). auto.
      - split; [done|]. split; [done|]. split; [done|]. split; [done|]. auto. }
    destruct Hstep as (S1 & S2 & S3 & S4 & S5).
    destruct (IH (uf_step e p (x, y)) S2) as (I1 & I2 & I3 & I4 & I5).
    { intros ij Hij. rewrite S1. apply HL. by apply list_elem_of_further. }
    split; [lia|]. split; [done|]. split; [auto|]. split.
    + intros ij Hij He. apply elem_of_cons in Hij as [->|Hij]; [|auto].
      apply I3. auto.
    + intros i Hi Hall. apply I5.
      * apply S5; [done|]. intros He. apply (Hall (x, y)); [apply list_elem_of_here|done].
      * intros ij Hij He. apply Hall; [by apply list_elem_of_further|done].
Qed.

Lemma foldl_map_fuse {A B C} (f : A -> B -> A) (g : C -> B) (a : A) (l : list C) :
  foldl f a (map g l) = foldl (fun a x => f a (g x)) a l.
Proof. revert a. induction l; simpl; auto. Qed.

Lemma foldl_flat_map {A B C} (f : A -> B -> A) (g : C -> list B) (a : A) (l : list C) :
  foldl f a (flat_map g l) = foldl (fun a x => foldl f a (g x)) a l.
Proof. revert a. induction l as [|x l IH]; intros a; simpl; [done|]. by rewrite foldl_app. Qed.

Lemma foldl_ext_pointwise {A B} (f g : A -> B -> A) (a : A) (l : list B) :
  (forall x y, f x y = g x y) -> foldl f a l = foldl g a l.
Proof. intros H. revert a. induction l; simpl; intros; [done|]. by rewrite H. Qed.

Lemma union_all_pairs ratio threshold texts :
  union_all ratio threshold texts =
  foldl (uf_step (fun i j => similar ratio threshold (texts !!! i) (texts !!! j)))
        (seq 0 (length texts)) (all_pairs (length texts)).
Proof.
  unfold union_all, all_pairs. rewrite foldl_flat_map. apply foldl_ext_pointwise.
  intros p i. unfold union_inner. rewrite foldl_map_fuse. done.
Qed.

Lemma all_pairs_elem n i j : (i, j) ∈ all_pairs n <-> i < j < n.
Proof.
  unfold all_pairs. rewrite list_elem_of_In, in_flat_map. split.
  - intros (i' & Hi' & Hin). apply in_map_iff in Hin as (j' & Heq & Hj').
    injection Heq as <- <-. apply in_seq in Hi'. apply in_seq in Hj'. lia.
  - intros H. exists i. split; [apply in_seq; lia|].
    apply in_map_iff. exists j. split; [done|]. apply in_seq. lia.
Qed.

Lemma seq_lookup_id n x : x < n -> seq 0 n !! x = Some x.
Proof. intros. by rewrite lookup_seq_lt. Qed.

Lemma init_wf n : uf_wf (seq 0 n).
Proof.
  intros x Hx. rewrite length_seq in Hx. exists x, 0. constructor. by apply seq_lookup_id.
Qed.

Lemma init_isolated n i : i < n -> isolated (seq 0 n) i.
Proof.
  intros Hi. split.
  - exists 0. constructor. by apply seq_lookup_id.
  - intros z [d Hd]. pose proof (reach_lt _ _ _ _ Hd) as Hz. rewrite length_seq in Hz.
    symmetry. eapply root_of_is_root; [by apply seq_lookup_id | exists d; exact Hd].
Qed.

Lemma union_all_facts ratio threshold texts :
  length (union_all ratio threshold texts) = length texts /\
  uf_wf (union_all ratio threshold texts) /\
  (forall i j, near_edge ratio threshold texts i j ->
               same_set (union_all ratio threshold texts) i j) /\
  (forall i, i < length texts -> (forall j, ~ near_edge ratio threshold texts i j) ->
             isolated (union_all ratio threshold texts) i).
Proof.
  rewrite union_all_pairs.
  destruct (fold_union_facts (fun i j => similar ratio threshold (texts !!! i) (texts !!! j))
              (all_pairs (length texts)) (seq 0 (length texts)) (init_wf _))
    as (H1 & H2 & H3 & H4 & H5).
  { intros [i j] Hij. apply all_pairs_elem in Hij. rewrite length_seq. simpl. lia. }
  rewrite length_seq in H1. split; [done|]. split; [done|]. split.
  - intros i j (Hi & Hj & [[Hlt He] | [Hlt He]]).
    + apply (H4 (i, j)); [apply all_pairs_elem; lia | exact He].
    + destruct (H4 (j, i)) as (r & ? & ?); [apply all_pairs_elem; lia | exact He |].
      exists r; auto.
  - intros i Hi Hno. apply H5; [by apply init_isolated|].
    intros [a b] Hab He. apply all_pairs_elem in Hab. simpl in *. split.
    + intros ->. apply (Hno b). split; [lia|]. split; [lia|]. left. split; [lia|done].
    + intros ->. apply (Hno a). split; [lia|]. split; [lia|]. right. split; [lia|done].
Qed.

Lemma find_each_spec p xs : uf_wf p -> (forall x, x ∈ xs -> x < length p) ->
  length (find_each p xs).1 = length p /\ uf_wf (find_each p xs).1 /\
  same_roots p (find_each p xs).1 /\ Forall2 (root_of p) xs (find_each p xs).2.
Proof.
  revert p. induction xs as [|x xs IH]; intros p Hwf Hxs; simpl.
  - split; [done|]. split; [done|]. split; [apply same_roots_refl|constructor].
  - destruct (Hwf x (Hxs x (list_elem_of_here _ _))) as [r Hr].
    destruct (find_spec p x r Hwf Hr) as (p1 & Hf & Hl1 & Hwf1 & Hs1). rewrite Hf.
    pose proof (IH p1 Hwf1) as IH'.
    destruct (find_each p1 xs) as [p2 rs] eqn:He. simpl in *.
    destruct IH' as (I1 & I2 & I3 & I4).
    { intros y Hy. rewrite Hl1. apply Hxs. by apply list_elem_of_further. }
    split; [lia|]. split; [done|]. split; [by eapply same_roots_trans|].
    constructor; [done|]. eapply Forall2_impl; [exact I4|]. intros a b Hab. by apply Hs1.
Qed.

Lemma count_occ_two (l : list nat) i j a : i <> j -> l !! i = Some a -> l !! j = Some a ->
  2 <= count_occ Nat.eq_dec l a.
Proof.
  revert i j. induction l as [|x l IH]; intros i j Hij Hi Hj; [done|].
  simpl. destruct i as [|i], j as [|j]; simpl in *.
  - done.
  - injection Hi as ->. destruct (Nat.eq_dec a a); [|done].
    assert (Hin : In a l) by (apply list_elem_of_In, list_elem_of_lookup; eauto).
    apply (count_occ_In Nat.eq_dec) in Hin. lia.
  - injection Hj as ->. destruct (Nat.eq_dec a a); [|done].
    assert (Hin : In a l) by (apply list_elem_of_In, list_elem_of_lookup; eauto).
    apply (count_occ_In Nat.eq_dec) in Hin. lia.
  - pose proof (IH i j ltac:(lia) Hi Hj). destruct (Nat.eq_dec x a); lia.
Qed.

Lemma count_occ_one (l : list nat) i a : l !! i = Some a ->
  (forall z, l !! z = Some a -> z = i) -> count_occ Nat.eq_dec l a = 1.
Proof.
  revert i. induction l as [|x l IH]; intros i Hi Honly; [done|].
  simpl. destruct i as [|i]; simpl in Hi.
  - injection Hi as ->. destruct (Nat.eq_dec a a); [|done]. f_equal.
    apply (count_occ_not_In Nat.eq_dec). intros Hin.
    apply list_elem_of_In, list_elem_of_lookup in Hin as [k Hk].
    specialize (Honly (S k) Hk). done.
  - destruct (Nat.eq_dec x a) as [->|Hxa].
    + specialize (Honly 0 eq_refl). done.
    + apply (IH i Hi). intros z Hz. specialize (Honly (S z) Hz). lia.
Qed.

Lemma lookup_map_option {A B} (f : A -> B) (l : list A) i :
  map f l !! i = option_map f (l !! i).
Proof. revert i. induction l; intros [|i]; simpl; auto. Qed.

Lemma find_each_roots P n : uf_wf P -> n <= length P ->
  forall z a, (find_each P (seq 0 n)).2 !! z = Some a <-> z < n /\ root_of P z a.
Proof.
  intros Hwf Hn. destruct (find_each_spec P (seq 0 n) Hwf) as (_ & _ & _ & F).
  { intros x Hx. apply elem_of_seq in Hx. lia. }
  intros z a. split.
  - intros Hz. destruct (Forall2_lookup_r _ _ _ _ _ F Hz) as (x & Hx & Hr).
    apply lookup_seq in Hx as [-> ?]. done.
  - intros [Hz Hr]. destruct (Forall2_lookup_l _ _ _ z z F (seq_lookup_id _ _ Hz)) as (b & Hb & Hr').
    by rewrite (root_of_det _ _ _ _ Hr Hr').
Qed.

(** The keep mask of [_near_dedup_remove_all]: row [i] is kept iff it is
    not similar to any other row. *)
Lemma near_keep_mask_spec ratio threshold texts i : i < length texts ->
  exists b, near_keep_mask ratio threshold texts !! i = Some b /\
  (b = true <-> forall j, ~ near_edge ratio threshold texts i j).
Proof.
  intros Hi. destruct (union_all_facts ratio threshold texts) as (U1 & U2 & U3 & U4).
  unfold near_keep_mask.
  set (P := union_all ratio threshold texts) in *.
  set (n := length texts) in *.
  pose proof (find_each_roots P n U2 ltac:(lia)) as Hg.
  destruct (find_each_spec P (seq 0 n) U2) as (F1 & F2 & F3 & _).
  { intros x Hx. apply elem_of_seq in Hx. lia. }
  destruct (find_each P (seq 0 n)) as [p1 g] eqn:Hpg. simpl in *.
  pose proof (find_each_roots p1 n F2 ltac:(lia)) as Hrs.
  destruct (find_each p1 (seq 0 n)) as [p2 rs] eqn:Hprs. simpl in *.
  assert (Hlen : length rs = n).
  { destruct (find_each_spec p1 (seq 0 n) F2) as (_ & _ & _ & G).
    { intros x Hx. apply elem_of_seq in Hx. lia. }
    rewrite Hprs in G. apply Forall2_length in G. rewrite length_seq in G. simpl in G. lia. }
  destruct (lookup_lt_is_Some_2 rs i ltac:(lia)) as [r Hri].
  destruct (proj1 (Hrs i r) Hri) as [_ Hr].
  apply F3 in Hr.
  exists (count_occ Nat.eq_dec g r =? 1). split.
  { rewrite lookup_map_option, Hri. done. }
  split.
  - intros Hb j Hedge. apply Nat.eqb_eq in Hb. destruct (U3 _ _ Hedge) as (r' & Hir' & Hjr').
    assert (r' = r) by exact (root_of_det P i r' r Hir' Hr). subst r'.
    assert (i <> j) by (destruct Hedge as (_ & _ & [[Hl _]|[Hl _]]); lia).
    destruct Hedge as (_ & Hj & _).
    pose proof (count_occ_two g i j r ltac:(done) (proj2 (Hg i r) (conj Hi Hr))
                  (proj2 (Hg j r) (conj Hj Hjr'))). lia.
  - intros Hno. destruct (U4 i Hi Hno) as [Hii Honly].
    assert (Hri' : r = i) by exact (root_of_det P i r i Hr Hii). rewrite Hri'.
    apply Nat.eqb_eq. apply (count_occ_one g i i); [apply Hg; split; [lia|done]|].
    intros z Hz. apply Hg in Hz as [_ Hz]. by apply Honly.
Qed.

Lemma near_keep_mask_length ratio threshold texts :
  length (near_keep_mask ratio threshold texts) = length texts.
Proof.
  unfold near_keep_mask. destruct (union_all_facts ratio threshold texts) as (U1 & U2 & _ & _).
  set (P := union_all ratio threshold texts) in *.
  destruct (find_each_spec P (seq 0 (length texts)) U2) as (F1 & F2 & _ & _).
  { intros x Hx. apply elem_of_seq in Hx. lia. }
  destruct (find_each P (seq 0 (length texts))) as [p1 g] eqn:Hpg. simpl in *.
  destruct (find_each_spec p1 (seq 0 (length texts)) F2) as (_ & _ & _ & G).
  { intros x Hx. apply elem_of_seq in Hx. lia. }
  destruct (find_each p1 (seq 0 (length texts))) as [p2 rs]. simpl in *.
  rewrite length_map. apply Forall2_length in G. rewrite length_seq in G. lia.
Qed.

(* ------------------------------------------------------------------ *)
(** ** Sublists *)

Lemma filter_sublist {A} (p : A -> bool) (l : list A) : List.filter p l `sublist_of` l.
Proof.
  induction l as [|x l IH]; simpl; [constructor|].
  destruct (p x); by constructor.
Qed.

Lemma filter_sublist_mono {A} (p : A -> bool) (l1 l2 : list A) :
  l1 `sublist_of` l2 -> List.filter p l1 `sublist_of` List.filter p l2.
Proof.
  induction 1 as [|x l1 l2 H IH|x l1 l2 H IH]; simpl; [constructor| |];
    destruct (p x); by try constructor.
Qed.

Lemma mask_filter_sublist {A} (mask : list bool) (l : list A) : mask_filter mask l `sublist_of` l.
Proof.
  revert mask. induction l as [|x l IH]; intros [|b mask]; simpl.
  - constructor.
  - constructor.
  - apply sublist_nil_l.
  - destruct b; constructor; apply IH.
Qed.

Lemma sublist_map_list {A B} (f : A -> B) (l1 l2 : list A) :
  l1 `sublist_of` l2 -> map f l1 `sublist_of` map f l2.
Proof. induction 1; simpl; by constructor. Qed.

Lemma ids_sublist (l1 l2 : list comment) : l1 `sublist_of` l2 -> ids l1 `sublist_of` ids l2.
Proof. apply sublist_map_list. Qed.

Lemma NoDup_ids_sublist (l1 l2 : list comment) :
  l1 `sublist_of` l2 -> NoDup (ids l2) -> NoDup (ids l1).
Proof. intros H Hnd. eapply sublist_NoDup; [exact Hnd|]. by apply ids_sublist. Qed.

Lemma elem_of_ids k (l : list comment) : k ∈ ids l <-> exists c, c ∈ l /\ cid c = k.
Proof.
  unfold ids. rewrite list_elem_of_In, in_map_iff.
  split; intros (c & ? & ?); exists c; split; auto; by apply list_elem_of_In.
Qed.

Lemma ids_filter_elem k (p : comment -> bool) (l : list comment) :
  k ∈ ids (List.filter p l) <-> exists c, c ∈ l /\ p c = true /\ cid c = k.
Proof.
  rewrite elem_of_ids. setoid_rewrite list_elem_of_In. setoid_rewrite filter_In.
  split; intros (c & Hc & Hk); exists c; tauto.
Qed.

Lemma NoDup_map_inj_in {A B} (f : A -> B) (l : list A) x y :
  NoDup (map f l) -> x ∈ l -> y ∈ l -> f x = f y -> x = y.
Proof.
  induction l as [|a l IH]; simpl; intros Hnd Hx Hy Hf; [by apply not_elem_of_nil in Hx|].
  apply NoDup_cons in Hnd as [Hna Hnd].
  apply elem_of_cons in Hx as [->|Hx]; apply elem_of_cons in Hy as [->|Hy]; auto.
  - exfalso. apply Hna. rewrite Hf. apply list_elem_of_In, in_map, list_elem_of_In, Hy.
  - exfalso. apply Hna. rewrite <- Hf. apply list_elem_of_In, in_map, list_elem_of_In, Hx.
Qed.

(* ------------------------------------------------------------------ *)
(** ** Reason bookkeeping *)

Lemma lookup_setdefault k v m k' :
  setdefault k v m !! k' = if bool_decide (k' = k) then Some (default v (m !! k')) else m !! k'.
Proof.
  unfold setdefault. destruct (m !! k) eqn:E; case_bool_decide; subst.
  - by rewrite E.
  - done.
  - by rewrite lookup_insert_eq, E.
  - by rewrite lookup_insert_ne.
Qed.

Lemma foldl_setdefault_lookup lbl (L : list comment) m k :
  foldl (fun r c => setdefault (cid c) lbl r) m L !! k =
  if bool_decide (k ∈ ids L) then Some (default lbl (m !! k)) else m !! k.
Proof.
  revert m. induction L as [|c L IH]; intros m; cbn [foldl].
  - rewrite bool_decide_false; [done|]. apply not_elem_of_nil.
  - rewrite IH, lookup_setdefault.
    destruct (decide (k = cid c)) as [->|Hne].
    + rewrite (bool_decide_true (cid c = cid c)) by done.
      rewrite (bool_decide_true (cid c ∈ ids (c :: L))) by apply list_elem_of_here.
      by destruct (bool_decide (cid c ∈ ids L)).
    + rewrite (bool_decide_false (k = cid c)) by done.
      assert (E : bool_decide (k ∈ ids (c :: L)) = bool_decide (k ∈ ids L)).
      { apply bool_decide_ext. change (ids (c :: L)) with (cid c :: ids L).
        rewrite elem_of_cons. naive_solver. }
      by rewrite E.
Qed.

Lemma foldl_near_lookup lbl (kept : list string) (L : list comment) m k :
  foldl (fun r c => if bool_decide (cid c ∈ kept) then r else setdefault (cid c) lbl r) m L !! k =
  if bool_decide (k ∈ ids L /\ k ∉ kept) then Some (default lbl (m !! k)) else m !! k.
Proof.
  revert m. induction L as [|c L IH]; intros m; cbn [foldl].
  - rewrite bool_decide_false; [done|]. intros [H _]. by apply not_elem_of_nil in H.
  - rewrite IH. destruct (decide (cid c ∈ kept)) as [Hck|Hck].
    + rewrite (bool_decide_true (cid c ∈ kept)) by done.
      assert (E : bool_decide (k ∈ ids (c :: L) /\ k ∉ kept) = bool_decide (k ∈ ids L /\ k ∉ kept)).
      { apply bool_decide_ext. change (ids (c :: L)) with (cid c :: ids L).
        rewrite elem_of_cons. naive_solver. }
      by rewrite E.
    + rewrite (bool_decide_false (cid c ∈ kept)) by done.
      rewrite lookup_setdefault.
      destruct (decide (k = cid c)) as [->|Hne].
      * rewrite (bool_decide_true (cid c = cid c)) by done.
        rewrite (bool_decide_true (cid c ∈ ids (c :: L) /\ _)).
        2:{ split; [apply list_elem_of_here|done]. }
        by destruct (bool_decide (cid c ∈ ids L /\ cid c ∉ kept)).
      * rewrite (bool_decide_false (k = cid c)) by done.
        assert (E : bool_decide (k ∈ ids (c :: L) /\ k ∉ kept) = bool_decide (k ∈ ids L /\ k ∉ kept)).
        { apply bool_decide_ext. change (ids (c :: L)) with (cid c :: ids L).
          rewrite elem_of_cons. naive_solver. }
        by rewrite E.
Qed.

Lemma effect_refl lbl st : stage_effect lbl st st.
Proof.
  split; [done|]. intros k. rewrite bool_decide_false; [done|]. tauto.
Qed.

Lemma apply_effect keep lbl st : NoDup (ids st.1) -> stage_effect lbl st (_apply keep lbl st).
Proof.
  destruct st as [df r]; simpl. intros Hnd. split; [apply filter_sublist|].
  intros k. simpl. rewrite foldl_setdefault_lookup.
  apply (f_equal (fun b : bool => if b then _ else _)), bool_decide_ext.
  rewrite !ids_filter_elem, elem_of_ids. split.
  - intros (c & Hc & Hk & <-). split; [eauto|].
    intros (c' & Hc' & Hk' & Heq).
    rewrite (NoDup_map_inj_in cid df c' c Hnd Hc' Hc Heq) in Hk'.
    destruct (keep c); simpl in *; congruence.
  - intros [(c & Hc & <-) Hn]. exists c. split; [done|]. split; [|done].
    destruct (keep c) eqn:E; [|done]. exfalso. apply Hn. eauto.
Qed.

Lemma near_effect ratio thr st : stage_effect "Duplicate" st (near_phase ratio thr st).
Proof.
  destruct st as [df r]; simpl. split; [apply mask_filter_sublist|].
  intros k. apply foldl_near_lookup.
Qed.

Lemma run_stage_effect s st st' :
  wf_stage s -> NoDup (ids st.1) -> run_stage s st = Some st' -> stage_effect (label s) st st'.
Proof.
  intros Hwf Hnd. unfold run_stage. destruct (gate s); [|intros [= <-]; apply effect_refl].
  unfold wf_stage in Hwf.
  destruct (kind s) as [keep|keep|[detect|] mc|[score|] thr| |[ratio|] thr].
  - intros [= <-]. by apply apply_effect.
  - destruct (nonempty _); [|done]. intros [= <-]. by apply apply_effect.
  - destruct (nonempty _); [|done]. intros [= <-]. by apply apply_effect.
  - intros [= <-]. apply effect_refl.
  - destruct (existsb _ _); [done|]. destruct (nonempty _); [|done].
    intros [= <-]. by apply apply_effect.
  - intros [= <-]. apply effect_refl.
  - intros [= <-]. by apply apply_effect.
  - destruct (thr <? 100)%Z; intros [= <-]; [rewrite Hwf; apply near_effect|apply effect_refl].
  - intros [= <-]. apply effect_refl.
Qed.

Lemma effect_inv input lbl st st' :
  pipeline_inv input st -> stage_effect lbl st st' -> pipeline_inv input st'.
Proof.
  intros [Hsub Hr] [Hsub' Hr']. split; [by trans st.1|].
  intros k. rewrite Hr'. pose proof (ids_sublist _ _ Hsub') as Hi'.
  pose proof (ids_sublist _ _ Hsub) as Hi.
  case_bool_decide as Hk.
  - split; [|done]. intros _. destruct Hk as [Hk1 Hk2]. split; [|done].
    by eapply elem_of_sublist.
  - rewrite Hr. split.
    + intros [H1 H2]. split; [done|]. intros H3. apply H2. by eapply elem_of_sublist.
    + intros [H1 H2]. split; [done|]. intros H3. apply Hk. split; [done|].
      intros H4. apply H2. done.
Qed.

Lemma run_stages_app ss1 ss2 st :
  run_stages (ss1 ++ ss2) st =
  match run_stages ss1 st with Some st' => run_stages ss2 st' | None => None end.
Proof.
  revert st. induction ss1 as [|s ss1 IH]; intros st; simpl; [done|].
  destruct (run_stage s st); [apply IH|done].
Qed.

Lemma run_stages_take_S ss i s st :
  ss !! i = Some s ->
  run_stages (take (S i) ss) st =
  match run_stages (take i ss) st with Some st' => run_stage s st' | None => None end.
Proof.
  intros Hs. rewrite (take_S_r _ _ _ Hs), run_stages_app.
  destruct (run_stages (take i ss) st) as [st'|]; simpl; [|done].
  by destruct (run_stage s st').
Qed.

Lemma run_stages_split ss i st st_i :
  run_stages (take i ss) st = Some st_i -> run_stages (drop i ss) st_i = run_stages ss st.
Proof.
  intros H. rewrite <- (take_drop i ss) at 2. by rewrite run_stages_app, H.
Qed.

Lemma run_stage_sublist s st st' : run_stage s st = Some st' -> st'.1 `sublist_of` st.1.
Proof.
  destruct st as [df r]. unfold run_stage.
  destruct (gate s); [|by intros [= <-]].
  destruct (kind s) as [keep|keep|[detect|] mc|[score|] thr| |[ratio|] thr];
    repeat match goal with
    | |- context [if ?b then _ else _] => destruct b
    end;
    intros [= <-]; simpl; try done; try apply filter_sublist; apply mask_filter_sublist.
Qed.

Lemma run_stages_sublist ss st st' : run_stages ss st = Some st' -> st'.1 `sublist_of` st.1.
Proof.
  revert st. induction ss as [|s ss IH]; intros st; simpl; [by intros [= <-]|].
  destruct (run_stage s st) as [st1|] eqn:E; [|done].
  intros H. trans st1.1; [by apply IH|by eapply run_stage_sublist].
Qed.

Lemma run_stages_inv input ss st st' :
  Forall wf_stage ss -> NoDup (ids input) -> pipeline_inv input st ->
  run_stages ss st = Some st' -> pipeline_inv input st'.
Proof.
  intros Hwf Hnd. revert st. induction Hwf as [|s ss Hs Hss IH]; intros st Hinv; simpl.
  - by intros [= <-].
  - destruct (run_stage s st) as [st1|] eqn:E; [|done].
    apply IH. eapply effect_inv; [exact Hinv|].
    apply (run_stage_effect s); [done| |done].
    eapply NoDup_ids_sublist; [apply Hinv|done].
Qed.

Lemma effect_keeps lbl st st' k v : stage_effect lbl st st' -> st.2 !! k = Some v -> st'.2 !! k = Some v.
Proof. intros [_ Hr] Hk. rewrite Hr, Hk. by case_bool_decide. Qed.

Lemma run_stages_keeps input ss st st' k v :
  Forall wf_stage ss -> NoDup (ids input) -> pipeline_inv input st ->
  run_stages ss st = Some st' -> st.2 !! k = Some v -> st'.2 !! k = Some v.
Proof.
  intros Hwf Hnd. revert st. induction Hwf as [|s ss Hs Hss IH]; intros st Hinv; simpl.
  - by intros [= <-].
  - destruct (run_stage s st) as [st1|] eqn:E; [|done].
    assert (Heff : stage_effect (label s) st st1).
    { apply (run_stage_effect s); [done| |done].
      eapply NoDup_ids_sublist; [apply Hinv|done]. }
    intros Hrun Hk. apply (IH st1); [by eapply effect_inv| done |].
    by eapply effect_keeps.
Qed.

Lemma stages_wf cfg cp bl : Forall wf_stage (stages cfg cp bl).
Proof. repeat constructor. Qed.

Lemma ids_entry df : ids (map entry_row df) = ids df.
Proof. unfold ids. rewrite map_map. by apply map_ext. Qed.

Lemma init_inv df : pipeline_inv (map entry_row df) (map entry_row df, ∅).
Proof.
  split; [done|]. intros k. simpl. rewrite lookup_empty. split; [by intros []|tauto].
Qed.

Lemma inv_count input ret rs :
  NoDup (ids input) -> pipeline_inv input (ret, rs) -> length ret + size rs = length input.
Proof.
  intros Hnd [Hsub Hr]. simpl in *.
  assert (Hdom : dom rs = list_to_set (ids input) ∖ list_to_set (ids ret)).
  { apply set_eq. intros k. rewrite elem_of_dom, Hr, elem_of_difference, !elem_of_list_to_set.
    done. }
  rewrite <- size_dom, Hdom, size_difference.
  - rewrite !size_list_to_set; [| |done].
    + pose proof (sublist_length _ _ Hsub). unfold ids. rewrite !length_map. lia.
    + by eapply NoDup_ids_sublist.
  - intros k. rewrite !elem_of_list_to_set. intros Hk. eapply elem_of_sublist; [exact Hk|]. by apply ids_sublist.
Qed.

Lemma first_drop ss st st' k :
  run_stages ss st = Some st' -> k ∈ ids st.1 -> k ∉ ids st'.1 ->
  exists i s st_i st_i1, ss !! i = Some s /\ run_stages (take i ss) st = Some st_i /\
    run_stage s st_i = Some st_i1 /\ k ∈ ids st_i.1 /\ k ∉ ids st_i1.1.
Proof.
  revert st. induction ss as [|s ss IH]; intros st; simpl.
  - intros [= <-]. tauto.
  - destruct (run_stage s st) as [st1|] eqn:E; [|done].
    intros Hrun Hin Hout. destruct (decide (k ∈ ids st1.1)) as [Hin1|Hout1].
    + destruct (IH st1 Hrun Hin1 Hout) as (i & s' & st_i & st_i1 & ? & Hr & ? & ? & ?).
      exists (S i), s', st_i, st_i1. simpl. rewrite E. auto.
    + exists 0, s, st, st1. simpl. auto.
Qed.

(* ------------------------------------------------------------------ *)
(** ** [strip] is idempotent *)

Lemma drop_while_idem p l : drop_while p (drop_while p l) = drop_while p l.
Proof.
  induction l as [|a l IH]; simpl; [done|]. destruct (p a) eqn:E; [done|]. simpl. by rewrite E.
Qed.

Lemma drop_while_snoc p u x : p x = false -> exists r0, drop_while p (u ++ [x]) = r0 ++ [x].
Proof.
  intros Hx. induction u as [|y u IH]; simpl.
  - rewrite Hx. by exists [].
  - destruct (p y); [done|]. by exists (y :: u).
Qed.

Lemma strip_list_idem (l : list ascii) :
  rev (drop_while is_space (rev (drop_while is_space
    (rev (drop_while is_space (rev (drop_while is_space l))))))) =
  rev (drop_while is_space (rev (drop_while is_space l))).
Proof.
  destruct (drop_while is_space l) as [|x m'] eqn:Hm; [done|].
  assert (Hx : is_space x = false).
  { revert Hm. clear. induction l as [|a l IH]; simpl; [done|].
    destruct (is_space a) eqn:E; [done|]. by intros [= -> _]. }
  destruct (drop_while_snoc is_space (rev m') x Hx) as [r0 Hr0].
  change (rev (x :: m')) with (rev m' ++ [x]). rewrite Hr0, rev_app_distr.
  change (rev [x] ++ rev r0) with (x :: rev r0).
  assert (Hf : drop_while is_space (x :: rev r0) = x :: rev r0) by (simpl; by rewrite Hx).
  rewrite Hf. change (rev (x :: rev r0)) with (rev (rev r0) ++ [x]).
  rewrite rev_involutive, <- Hr0, drop_while_idem, Hr0, rev_app_distr. done.
Qed.

Lemma strip_idem s : strip (strip s) = strip s.
Proof.
  unfold strip. rewrite list_ascii_of_string_of_list_ascii.
  f_equal. apply strip_list_idem.
Qed.

Lemma entry_row_idem c : entry_row (entry_row c) = entry_row c.
Proof. unfold entry_row, ctext. simpl. by rewrite strip_idem. Qed.

Lemma filter_all_true {A} (p : A -> bool) (l : list A) :
  (forall x, x ∈ l -> p x = true) -> List.filter p l = l.
Proof.
  induction l as [|x l IH]; intros H; simpl; [done|].
  rewrite (H x) by apply list_elem_of_here. f_equal. apply IH.
  intros y Hy. apply H. by apply list_elem_of_further.
Qed.

Lemma filter_all_false {A} (p : A -> bool) (l : list A) :
  (forall x, x ∈ l -> p x = true) -> List.filter (fun x => negb (p x)) l = [].
Proof.
  induction l as [|x l IH]; intros H; simpl; [done|].
  rewrite (H x) by apply list_elem_of_here. simpl. apply IH.
  intros y Hy. apply H. by apply list_elem_of_further.
Qed.

Lemma elem_of_filter_true {A} (p : A -> bool) (l : list A) x :
  x ∈ List.filter p l -> p x = true.
Proof. rewrite list_elem_of_In, filter_In. tauto. Qed.

Lemma apply_stable keep lbl (R : list comment) :
  (forall c, c ∈ R -> keep c = true) -> _apply keep lbl (R, ∅) = (R, ∅).
Proof.
  intros H. unfold _apply. rewrite filter_all_true, filter_all_false by done. done.
Qed.

Lemma count_norm_sublist n (L1 L2 : list comment) :
  L1 `sublist_of` L2 ->
  length (List.filter (String.eqb n) (map norm L1)) <=
  length (List.filter (String.eqb n) (map norm L2)).
Proof.
  induction 1 as [|x l1 l2 H IH|x l1 l2 H IH]; simpl; [lia| |];
    destruct (String.eqb n (norm x)); simpl; lia.
Qed.

Lemma elem_of_mask_filter {A} (mask : list bool) (l : list A) x :
  x ∈ mask_filter mask l <-> exists i, l !! i = Some x /\ mask !! i = Some true.
Proof.
  revert mask. induction l as [|y l IH]; intros [|b mask]; simpl.
  - split; [by intros ?%not_elem_of_nil|]. by intros (i & ? & ?).
  - split; [by intros ?%not_elem_of_nil|]. by intros (i & ? & ?).
  - split; [by intros ?%not_elem_of_nil|]. intros ([|i] & ? & ?); done.
  - destruct b.
    + rewrite elem_of_cons, IH. split.
      * intros [->|(i & ? & ?)]; [by exists 0|by exists (S i)].
      * intros ([|i] & Hi & Hm); simpl in *; [left; congruence|right; eauto].
    + rewrite IH. split.
      * intros (i & ? & ?). by exists (S i).
      * intros ([|i] & Hi & Hm); simpl in *; [done|eauto].
Qed.

Lemma mask_filter_all_true {A} (mask : list bool) (l : list A) :
  length mask = length l -> (forall i b, mask !! i = Some b -> b = true) ->
  mask_filter mask l = l.
Proof.
  revert mask. induction l as [|x l IH]; intros [|b mask] Hlen Hall; simpl in *; try done.
  rewrite (Hall 0 b) by done. f_equal. apply IH; [lia|].
  intros i b' Hi. apply (Hall (S i) b' Hi).
Qed.

Lemma FOP_lookup {A} (R : A -> A -> Prop) (l : list A) i j a b :
  ForallOrdPairs R l -> i < j -> l !! i = Some a -> l !! j = Some b -> R a b.
Proof.
  intros H. revert i j. induction H as [|x l Hx Hl IH]; intros i j Hij Hi Hj; [done|].
  destruct i as [|i], j as [|j]; simpl in *; try lia.
  - injection Hi as <-. rewrite Forall_forall in Hx. apply Hx.
    by eapply list_elem_of_lookup_2.
  - apply (IH i j); [lia|done|done].
Qed.

Lemma FOP_sublist {A} (R : A -> A -> Prop) (l1 l2 : list A) :
  l1 `sublist_of` l2 -> ForallOrdPairs R l2 -> ForallOrdPairs R l1.
Proof.
  induction 1 as [|x l1 l2 H IH|x l1 l2 H IH]; intros Hf; [constructor| |].
  - inversion Hf as [|? ? Hx Hl]; subst. constructor; [|by apply IH].
    rewrite Forall_forall in *. intros y Hy. apply Hx.
    eapply elem_of_sublist; [exact Hy|exact H].
  - inversion Hf; subst. by apply IH.
Qed.

Lemma near_edge_shift ratio thr t texts i j :
  near_edge ratio thr (t :: texts) (S i) (S j) <-> near_edge ratio thr texts i j.
Proof.
  unfold near_edge. cbn [length].
  change ((t :: texts) !!! S i) with (texts !!! i).
  change ((t :: texts) !!! S j) with (texts !!! j).
  split; intros (Hi & Hj & H); (split; [lia|]); (split; [lia|]);
    (destruct H as [[? ?]|[? ?]]; [left|right]; split; auto; lia).
Qed.

Lemma far_no_edge ratio thr (L : list comment) :
  ForallOrdPairs (far ratio thr) L -> forall i j, ~ near_edge ratio thr (map ctext L) i j.
Proof.
  intros H i j (Hi & Hj & Hc). rewrite length_map in Hi, Hj.
  destruct (lookup_lt_is_Some_2 L i Hi) as [a Ha].
  destruct (lookup_lt_is_Some_2 L j Hj) as [b Hb].
  assert (Ea : map ctext L !!! i = ctext a).
  { apply list_lookup_total_correct. by rewrite list_lookup_fmap_Some; eauto. }
  assert (Eb : map ctext L !!! j = ctext b).
  { apply list_lookup_total_correct. by rewrite list_lookup_fmap_Some; eauto. }
  rewrite Ea, Eb in Hc. destruct Hc as [[Hij Hs]|[Hji Hs]].
  - pose proof (FOP_lookup _ _ _ _ _ _ H Hij Ha Hb) as Hf. unfold far in Hf. congruence.
  - pose proof (FOP_lookup _ _ _ _ _ _ H Hji Hb Ha) as Hf. unfold far in Hf. congruence.
Qed.

Lemma mask_filter_far ratio thr mask (D : list comment) :
  length mask = length D ->
  (forall i, mask !! i = Some true -> forall j, ~ near_edge ratio thr (map ctext D) i j) ->
  ForallOrdPairs (far ratio thr) (mask_filter mask D).
Proof.
  revert mask. induction D as [|x D IH]; intros [|b mask] Hlen Hm; simpl in *; try constructor; try lia.
  assert (IH' : ForallOrdPairs (far ratio thr) (mask_filter mask D)).
  { apply IH; [lia|]. intros i Hi j Hij. apply (Hm (S i) Hi (S j)).
    by apply near_edge_shift. }
  destruct b; [|done]. constructor; [|done].
  apply Forall_forall. intros y Hy. apply elem_of_mask_filter in Hy as (j & Hj & _).
  unfold far. destruct (similar ratio thr (ctext x) (ctext y)) eqn:E; [|done]. exfalso.
  apply (Hm 0 eq_refl (S j)). unfold near_edge. cbn [length].
  rewrite length_map. pose proof (lookup_lt_Some _ _ _ Hj).
  split; [lia|]. split; [lia|]. left. split; [lia|].
  change ((ctext x :: map ctext D) !!! 0) with (ctext x).
  change ((ctext x :: map ctext D) !!! S j) with (map ctext D !!! j).
  rewrite (list_lookup_total_correct (map ctext D) j (ctext y)); [done|].
  rewrite list_lookup_fmap, Hj. done.
Qed.

Lemma near_stable ratio thr (R : list comment) :
  (forall i j, ~ near_edge ratio thr (map ctext R) i j) -> near_phase ratio thr (R, ∅) = (R, ∅).
Proof.
  intros H. unfold near_phase, _near_dedup_remove_all.
  assert (Hm : mask_filter (near_keep_mask ratio thr (map ctext R)) R = R).
  { apply mask_filter_all_true; [by rewrite near_keep_mask_length, length_map|].
    intros i b Hi. pose proof (lookup_lt_Some _ _ _ Hi) as Hlt.
    rewrite near_keep_mask_length in Hlt.
    destruct (near_keep_mask_spec ratio thr (map ctext R) i Hlt) as (b' & Hb' & Hiff).
    rewrite Hi in Hb'. injection Hb' as ->. apply Hiff. apply H. }
  rewrite Hm. f_equal. apply map_eq. intros k.
  rewrite foldl_near_lookup, bool_decide_false; [done|]. tauto.
Qed.

Lemma near_output_far ratio thr (D : list comment) :
  ForallOrdPairs (far ratio thr) (_near_dedup_remove_all ratio D thr).
Proof.
  unfold _near_dedup_remove_all.
  apply mask_filter_far; [by rewrite near_keep_mask_length, length_map|].
  intros i Hi. pose proof (lookup_lt_Some _ _ _ Hi) as Hlt.
  rewrite near_keep_mask_length in Hlt.
  destruct (near_keep_mask_spec ratio thr (map ctext D) i Hlt) as (b' & Hb' & Hiff).
  rewrite Hi in Hb'. injection Hb' as <-. by apply Hiff.
Qed.

Lemma run_stage_stable s st st' (R : list comment) :
  nonempty R = true ->
  run_stage s st = Some st' -> R `sublist_of` st'.1 -> run_stage s (R, ∅) = Some (R, ∅).
Proof.
  intros HR Hrun Hsub.
  assert (Hsub0 : R `sublist_of` st.1) by (trans st'.1; [done|by eapply run_stage_sublist]).
  assert (Hin : forall c, c ∈ R -> c ∈ st'.1) by (intros c Hc; by eapply elem_of_sublist).
  revert Hrun. unfold run_stage. destruct (gate s); [|done]. cbn [fst]. rewrite HR.
  destruct (kind s) as [keep|keep|[detect|] mc|[score|] thr| |[ratio|] thr].
  - intros [= <-]. f_equal. apply apply_stable. intros c Hc.
    destruct st. apply (elem_of_filter_true _ _ _ (Hin c Hc)).
  - destruct (nonempty st.1); [|done]. intros [= <-]. f_equal. apply apply_stable. intros c Hc.
    destruct st. apply (elem_of_filter_true _ _ _ (Hin c Hc)).
  - destruct (nonempty st.1); [|done]. intros [= <-]. f_equal. apply apply_stable. intros c Hc.
    destruct st. apply (elem_of_filter_true _ _ _ (Hin c Hc)).
  - done.
  - destruct (existsb _ st.1) eqn:Ex; [done|]. destruct (nonempty st.1); [|done]. intros [= <-].
    assert (Ex' : existsb (fun c => raises (score (ctext c))) R = false).
    { apply not_true_iff_false. intros Hx. apply existsb_exists in Hx as (c & Hc & Hr).
      apply not_true_iff_false in Ex. apply Ex. apply existsb_exists. exists c.
      split; [|done]. apply list_elem_of_In. eapply elem_of_sublist; [|exact Hsub0].
      by apply list_elem_of_In. }
    simpl. rewrite Ex'. f_equal. apply apply_stable. intros c Hc.
    destruct st. apply (elem_of_filter_true _ _ _ (Hin c Hc)).
  - done.
  - intros [= <-]. f_equal. apply apply_stable. intros c Hc.
    destruct st as [D r]. pose proof (elem_of_filter_true _ _ _ (Hin c Hc)) as Hk. simpl in Hk.
    apply negb_true_iff in Hk. apply negb_true_iff. unfold duplicated in *.
    apply Nat.leb_gt in Hk. apply Nat.leb_gt.
    pose proof (count_norm_sublist (norm c) R D Hsub0). simpl. lia.
  - destruct (thr <? 100)%Z eqn:Hthr; [|done]. intros [= <-]. f_equal.
    apply near_stable. apply far_no_edge. eapply FOP_sublist; [exact Hsub|].
    destruct st as [D r]. apply near_output_far.
  - done.
Qed.

Lemma run_stages_fixed ss1 ss2 st st_f (R : list comment) :
  nonempty R = true ->
  Forall2 rerun_rel ss1 ss2 -> run_stages ss1 st = Some st_f -> R `sublist_of` st_f.1 ->
  run_stages ss2 (R, ∅) = Some (R, ∅).
Proof.
  intros HR H. revert st. induction H as [|s1 s2 ss1 ss2 Hs Hss IH]; intros st; simpl; [done|].
  destruct (run_stage s1 st) as [st1|] eqn:E; [|done].
  intros Hrun Hsub. assert (Hsub1 : R `sublist_of` st1.1).
  { trans st_f.1; [done|by eapply run_stages_sublist]. }
  assert (H2 : run_stage s2 (R, ∅) = Some (R, ∅)).
  { destruct Hs as [->|Hg]; [by eapply run_stage_stable|].
    unfold run_stage. by rewrite Hg. }
  rewrite H2. by eapply IH.
Qed.

Lemma stages_rerun_rel cfg cp bl :
  Forall2 rerun_rel (stages cfg cp bl) (stages cfg cp []).
Proof.
  unfold stages, pre_dedup_stages.
  simpl. unfold rerun_rel.
  repeat (constructor; [first [left; reflexivity | right; simpl; by rewrite andb_false_r]|]).
  constructor.
Qed.

Lemma run_stage_empty s :
  run_stage s ([], ∅) = if gate s && obj_mask (kind s) then None else Some ([], ∅).
Proof.
  unfold run_stage. destruct (gate s); [|done].
  destruct (kind s) as [keep|keep|[detect|] mc|[score|] thr| |[ratio|] thr]; try reflexivity.
  simpl. destruct (thr <? 100)%Z; reflexivity.
Qed.

Lemma run_stages_empty ss :
  run_stages ss ([], ∅) =
  if existsb (fun s => gate s && obj_mask (kind s)) ss then None else Some ([], ∅).
Proof.
  induction ss as [|s ss IH]; simpl; [done|]. rewrite run_stage_empty.
  by destruct (gate s && obj_mask (kind s)).
Qed.

Lemma stages_obj_mask cfg cp :
  existsb (fun s => gate s && obj_mask (kind s)) (stages cfg cp []) = apply_stage_on cfg cp.
Proof.
  unfold stages, pre_dedup_stages, dedup_stages, apply_stage_on. simpl.
  rewrite ?andb_false_r, ?andb_true_r.
  destruct (timestamp_only cfg), (repeat_char cfg), (english_only cfg), (sentiment_filter cfg),
    (lingua cp), (vader cp); reflexivity.
Qed.

Lemma retained_entry_rows cfg cp bl df ret rs :
  filter_low_value cfg cp bl df = Some (ret, rs) -> ret `sublist_of` map entry_row df.
Proof. intros H. apply (run_stages_sublist _ _ _ H). Qed.

Lemma map_entry_row_retained (ret df : list comment) :
  ret `sublist_of` map entry_row df -> map entry_row ret = ret.
Proof.
  intros H. induction ret as [|c ret IH]; simpl; [done|]. f_equal.
  - assert (Hc : c ∈ map entry_row df) by (eapply elem_of_sublist; [apply list_elem_of_here|exact H]).
    apply list_elem_of_In, in_map_iff in Hc as (c0 & <- & _). apply entry_row_idem.
  - apply IH. trans (c :: ret); [|done]. by constructor.
Qed.

Lemma pipeline_split cfg cp bl df ret rs :
  filter_low_value cfg cp bl df = Some (ret, rs) ->
  exists st st1,
    run_stages (pre_dedup_stages cfg cp bl) (map entry_row df, ∅) = Some st /\
    run_stage (mkStage (dedup cfg) "Duplicate" KExact) st = Some st1 /\
    run_stage (mkStage (dedup cfg) "Duplicate" (KNear (fuzz_ratio cp) (dedup_threshold cfg))) st1
      = Some (ret, rs).
Proof.
  unfold filter_low_value, stages. rewrite run_stages_app.
  destruct (run_stages (pre_dedup_stages cfg cp bl) _) as [st|] eqn:E0; [|done].
  unfold dedup_stages. cbn [run_stages].
  destruct (run_stage (mkStage (dedup cfg) "Duplicate" KExact) st) as [st1|] eqn:E1; [|done].
  destruct (run_stage _ st1) as [st2|] eqn:E; [|done].
  intros [= ->]. exists st, st1. done.
Qed.

Lemma count_norm_pos n (c : comment) (L : list comment) :
  c ∈ L -> norm c = n -> 1 <= length (List.filter (String.eqb n) (map norm L)).
Proof.
  induction L as [|x L IH]; intros Hc Hn; [by apply not_elem_of_nil in Hc|].
  simpl. apply elem_of_cons in Hc as [->|Hc].
  - rewrite Hn, String.eqb_refl. simpl. lia.
  - destruct (String.eqb n (norm x)); simpl; [lia|]. by apply IH.
Qed.

Lemma nodup_norm_sublist (L D : list comment) :
  L `sublist_of` D ->
  (forall c, c ∈ L -> length (List.filter (String.eqb (norm c)) (map norm D)) <= 1) ->
  NoDup (map norm L).
Proof.
  induction 1 as [|x l1 l2 H IH|x l1 l2 H IH]; intros Hc; simpl.
  - constructor.
  - constructor.
    + intros Hx. apply list_elem_of_In, in_map_iff in Hx as (y & Hy & Hyin).
      apply list_elem_of_In in Hyin.
      pose proof (count_norm_pos (norm x) y l2 (elem_of_sublist _ _ _ Hyin H) Hy) as Hp.
      specialize (Hc x (list_elem_of_here _ _)). simpl in Hc.
      rewrite String.eqb_refl in Hc. simpl in Hc. lia.
    + apply IH. intros c Hc'. specialize (Hc c (list_elem_of_further _ _ _ Hc')).
      simpl in Hc. destruct (String.eqb (norm c) (norm x)); simpl in Hc; lia.
  - apply IH. intros c Hc'. specialize (Hc c Hc').
    simpl in Hc. destruct (String.eqb (norm c) (norm x)); simpl in Hc; lia.
Qed.

Lemma pipeline_start_inv df : NoDup (ids df) ->
  NoDup (ids (map entry_row df)) /\ pipeline_inv (map entry_row df) (map entry_row df, ∅).
Proof. intros Hnd. rewrite ids_entry. split; [done|apply init_inv]. Qed.

(** C1: on unique ids, when [filter_low_value] returns, the retained rows
    and the reasons together account for every input comment exactly once:
    [|retained| + |reasons| = |input|], and the keys of [reasons] are
    exactly the input ids absent from the retained rows. *)
Theorem C1_totality cfg cp bl df ret rs :
  NoDup (ids df) -> filter_low_value cfg cp bl df = Some (ret, rs) ->
  length ret + size rs = length df /\
  (forall k, is_Some (rs !! k) <-> k ∈ ids df /\ k ∉ ids ret).
Proof.
  intros Hnd Hrun. destruct (pipeline_start_inv df Hnd) as [Hnd' Hinv0].
  pose proof (run_stages_inv _ _ _ _ (stages_wf cfg cp bl) Hnd' Hinv0 Hrun) as Hinv.
  split.
  - rewrite (inv_count _ _ _ Hnd' Hinv). apply length_map.
  - destruct Hinv as [_ Hr]. intros k. rewrite Hr, ids_entry. done.
Qed.

Lemma C1_witness :
  NoDup (ids ex_df) /\
  filter_low_value default_config no_models [] ex_df = Some (ex_retained, ex_reasons) /\
  length ex_retained + size ex_reasons = length ex_df /\
  (forall k, is_Some (ex_reasons !! k) <-> k ∈ ids ex_df /\ k ∉ ids ex_retained).
Proof.
  assert (H1 : NoDup (ids ex_df)) by (apply (bool_decide_unpack _); vm_compute; reflexivity).
  assert (H2 : filter_low_value default_config no_models [] ex_df = Some (ex_retained, ex_reasons))
    by (vm_compute; reflexivity).
  split; [exact H1|]. split; [exact H2|].
  exact (C1_totality default_config no_models [] ex_df ex_retained ex_reasons H1 H2).
Defined.

(** C8: on unique ids, every dropped comment leaves the working frame at
    some stage; the stage [s] at which a comment leaves is enabled, its
    label is the recorded reason (no later stage overwrites it), and the
    comment is absent from the working frame of every later stage. *)
Theorem C8_first_reason cfg cp bl df ret rs :
  NoDup (ids df) -> filter_low_value cfg cp bl df = Some (ret, rs) ->
  (forall k, k ∈ ids df -> k ∉ ids ret ->
     exists i s st_i st_i1, stages cfg cp bl !! i = Some s /\
       run_stages (take i (stages cfg cp bl)) (map entry_row df, ∅) = Some st_i /\
       run_stage s st_i = Some st_i1 /\ k ∈ ids st_i.1 /\ k ∉ ids st_i1.1) /\
  (forall i s st_i st_i1 k, stages cfg cp bl !! i = Some s ->
     run_stages (take i (stages cfg cp bl)) (map entry_row df, ∅) = Some st_i ->
     run_stage s st_i = Some st_i1 -> k ∈ ids st_i.1 -> k ∉ ids st_i1.1 ->
     gate s = true /\ rs !! k = Some (label s) /\
     forall j st_j, i < j ->
       run_stages (take j (stages cfg cp bl)) (map entry_row df, ∅) = Some st_j ->
       k ∉ ids st_j.1).
Proof.
  intros Hnd Hrun. destruct (pipeline_start_inv df Hnd) as [Hnd' Hinv0].
  set (SS := stages cfg cp bl) in *. pose proof (stages_wf cfg cp bl) as Hwf. fold SS in Hwf.
  unfold filter_low_value in Hrun. fold SS in Hrun.
  split.
  - intros k Hin Hout. eapply first_drop; [exact Hrun| |exact Hout].
    simpl. by rewrite ids_entry.
  - intros i s st_i st_i1 k Hs Hi Hs1 Hin Hout.
    assert (Hinv_i : pipeline_inv (map entry_row df) st_i).
    { eapply run_stages_inv; [|exact Hnd'|exact Hinv0|exact Hi]. by apply Forall_take. }
    assert (Hgate : gate s = true).
    { destruct (gate s) eqn:E; [done|]. unfold run_stage in Hs1. rewrite E in Hs1.
      injection Hs1 as <-. done. }
    assert (Heff : stage_effect (label s) st_i st_i1).
    { apply (run_stage_effect s); [|eapply NoDup_ids_sublist; [apply Hinv_i|done]|done].
      eapply Forall_lookup_1; [exact Hwf|exact Hs]. }
    assert (Hnone : st_i.2 !! k = None).
    { destruct (st_i.2 !! k) eqn:E; [|done]. exfalso.
      destruct Hinv_i as [_ Hr]. destruct (proj1 (Hr k) (mk_is_Some _ _ E)). done. }
    assert (Hk1 : st_i1.2 !! k = Some (label s)).
    { destruct Heff as [_ Hr]. rewrite Hr, bool_decide_true by done. by rewrite Hnone. }
    assert (HS1 : run_stages (take (S i) SS) (map entry_row df, ∅) = Some st_i1).
    { by rewrite (run_stages_take_S _ _ _ _ Hs), Hi. }
    assert (Hinv_i1 : pipeline_inv (map entry_row df) st_i1) by (by eapply effect_inv).
    split; [done|]. split.
    + pose proof (run_stages_split _ _ _ _ HS1) as Hd. rewrite Hrun in Hd.
      exact (run_stages_keeps (map entry_row df) (drop (S i) SS) st_i1 (ret, rs) k (label s) (Forall_drop _ _ _ Hwf) Hnd' Hinv_i1 Hd Hk1).
    + intros j st_j Hij Hj.
      rewrite <- (take_drop (S i) (take j SS)), take_take, run_stages_app in Hj.
      replace (Nat.min (S i) j) with (S i) in Hj by lia. rewrite HS1 in Hj.
      intros Hk. apply Hout. eapply elem_of_sublist; [exact Hk|].
      apply ids_sublist. by eapply run_stages_sublist.
Qed.

Lemma C8_witness :
  NoDup (ids ex_df) /\
  filter_low_value default_config no_models [] ex_df = Some (ex_retained, ex_reasons) /\
  stages default_config no_models [] !! 0 = Some ex_first_stage /\
  run_stages (take 0 (stages default_config no_models [])) (map entry_row ex_df, ∅) =
    Some (map entry_row ex_df, ∅) /\
  run_stage ex_first_stage (map entry_row ex_df, ∅) = Some ex_after_first /\
  "1" ∈ ids (map entry_row ex_df) /\ ~ ("1" ∈ ids ex_after_first.1) /\
  gate ex_first_stage = true /\ ex_reasons !! "1" = Some (label ex_first_stage).
Proof.
  assert (H1 : NoDup (ids ex_df)) by (apply (bool_decide_unpack _); vm_compute; reflexivity).
  assert (H2 : filter_low_value default_config no_models [] ex_df = Some (ex_retained, ex_reasons))
    by (vm_compute; reflexivity).
  assert (H3 : stages default_config no_models [] !! 0 = Some ex_first_stage) by reflexivity.
  assert (H4 : run_stages (take 0 (stages default_config no_models [])) (map entry_row ex_df, ∅) =
    Some (map entry_row ex_df, ∅)) by reflexivity.
  assert (H5 : run_stage ex_first_stage (map entry_row ex_df, ∅) = Some ex_after_first)
    by (vm_compute; reflexivity).
  assert (H6 : "1" ∈ ids (map entry_row ex_df))
    by (apply (bool_decide_unpack _); vm_compute; reflexivity).
  assert (H7 : "1" ∉ ids ex_after_first.1)
    by (apply (bool_decide_unpack _); vm_compute; reflexivity).
  destruct (proj2 (C8_first_reason default_config no_models [] ex_df ex_retained ex_reasons H1 H2)
              0 ex_first_stage _ _ "1" H3 H4 H5 H6 H7) as (Hg & Hr & _).
  repeat split; assumption.
Defined.




Lemma near_edge_sym ratio thr texts i j :
  near_edge ratio thr texts i j -> near_edge ratio thr texts j i.
Proof. unfold near_edge. intros (? & ? & [[? ?]|[? ?]]); repeat split; auto. Qed.

Lemma near_edge_neq ratio thr texts i j : near_edge ratio thr texts i j -> i <> j.
Proof. unfold near_edge. intros (? & ? & [[? ?]|[? ?]]); lia. Qed.

Lemma no_edge_iff_singleton ratio thr texts i :
  (forall j, ~ near_edge ratio thr texts i j) <->
  (forall j, rtc (near_edge ratio thr texts) i j -> j = i).
Proof.
  split.
  - intros H j Hr. apply rtc_inv in Hr as [->|(k & Hk & _)]; [done|]. by destruct (H k).
  - intros H j Hj. apply (near_edge_neq _ _ _ _ _ Hj). symmetry. apply H. by apply rtc_once.
Qed.

Lemma NoDup_ids_lookup (L : list comment) i j a b :
  NoDup (ids L) -> L !! i = Some a -> L !! j = Some b -> cid a = cid b -> i = j.
Proof.
  intros Hnd Ha Hb Hab. eapply NoDup_lookup; [exact Hnd| |].
  - unfold ids. rewrite list_lookup_fmap, Ha. reflexivity.
  - unfold ids. rewrite list_lookup_fmap, Hb, Hab. reflexivity.
Qed.

(** C7: with [dedup] on, rapidfuzz available and [dedup_threshold < 100],
    on unique ids: a row of the frame entering the near phase is retained
    iff its connected component under "similarity at or above the
    threshold" is a singleton, and a removed row has reason ["Duplicate"];
    in particular, if [a] is similar to [b] and [b] to [c] (whatever the
    similarity of [a] and [c]), all three are removed. *)
Theorem C7_near_cluster cfg cp bl df ratio st ret rs :
  NoDup (ids df) -> dedup cfg = true -> fuzz_ratio cp = Some ratio ->
  (dedup_threshold cfg < 100)%Z ->
  run_stages (pre_dedup_stages cfg cp bl ++ [mkStage (dedup cfg) "Duplicate" KExact])
             (map entry_row df, ∅) = Some st ->
  filter_low_value cfg cp bl df = Some (ret, rs) ->
  (forall i c, st.1 !! i = Some c ->
     (cid c ∈ ids ret <->
      forall j, rtc (near_edge ratio (dedup_threshold cfg) (map ctext st.1)) i j -> j = i) /\
     (cid c ∉ ids ret -> rs !! cid c = Some "Duplicate")) /\
  (forall a b c ca cb cc,
     near_edge ratio (dedup_threshold cfg) (map ctext st.1) a b ->
     near_edge ratio (dedup_threshold cfg) (map ctext st.1) b c ->
     st.1 !! a = Some ca -> st.1 !! b = Some cb -> st.1 !! c = Some cc ->
     (cid ca ∉ ids ret) /\ (cid cb ∉ ids ret) /\ (cid cc ∉ ids ret) /\
     rs !! cid ca = Some "Duplicate" /\ rs !! cid cb = Some "Duplicate" /\
     rs !! cid cc = Some "Duplicate").
Proof.
  intros Hnd Hd Hf Hthr Hst Hrun.
  set (thr := dedup_threshold cfg) in *.
  set (E := near_edge ratio thr (map ctext st.1)).
  destruct (pipeline_start_inv df Hnd) as [Hnd' Hinv0].
  assert (Hinv : pipeline_inv (map entry_row df) st).
  { eapply run_stages_inv; [|exact Hnd'|exact Hinv0|exact Hst].
    pose proof (stages_wf cfg cp bl) as Hw. unfold stages in Hw.
    apply Forall_app in Hw as [Hw _]. apply Forall_app. split; [exact Hw|by repeat constructor]. }
  assert (Hnear : (ret, rs) = near_phase ratio thr st).
  { unfold filter_low_value, stages, dedup_stages in Hrun.
    change (mkStage (dedup cfg) "Duplicate" KExact
              :: [mkStage (dedup cfg) "Duplicate" (KNear (fuzz_ratio cp) (dedup_threshold cfg))])
      with ([mkStage (dedup cfg) "Duplicate" KExact] ++
            [mkStage (dedup cfg) "Duplicate" (KNear (fuzz_ratio cp) (dedup_threshold cfg))]) in Hrun.
    rewrite app_assoc, run_stages_app, Hst in Hrun. simpl in Hrun.
    unfold run_stage in Hrun. simpl in Hrun. rewrite Hd, Hf in Hrun. fold thr in Hrun.
    apply Z.ltb_lt in Hthr. rewrite Hthr in Hrun. congruence. }
  assert (Hret : ret = mask_filter (near_keep_mask ratio thr (map ctext st.1)) st.1).
  { destruct st as [D r]. simpl in Hnear. injection Hnear as -> _. reflexivity. }
  assert (HndD : NoDup (ids st.1)) by (eapply NoDup_ids_sublist; [apply Hinv|done]).
  assert (Heff : stage_effect "Duplicate" st (ret, rs)) by (rewrite Hnear; apply near_effect).
  assert (Hkeep : forall i c, st.1 !! i = Some c ->
                    cid c ∈ ids ret <-> forall j, rtc E i j -> j = i).
  { intros i c Hi. unfold E. rewrite <- no_edge_iff_singleton.
    assert (Hlt : i < length (map ctext st.1)) by (rewrite length_map; by eapply lookup_lt_Some).
    destruct (near_keep_mask_spec ratio thr (map ctext st.1) i Hlt) as (b & Hb & Hiff).
    rewrite <- Hiff. rewrite Hret, elem_of_ids. split.
    - intros (c' & Hc' & Hid). apply elem_of_mask_filter in Hc' as (i' & Hi' & Hm).
      rewrite <- (NoDup_ids_lookup _ _ _ _ _ HndD Hi' Hi Hid) in Hb. congruence.
    - intros ->. exists c. split; [|done]. apply elem_of_mask_filter. by exists i. }
  assert (Hreason : forall i c, st.1 !! i = Some c -> cid c ∉ ids ret ->
                      rs !! cid c = Some "Duplicate").
  { intros i c Hi Hout. destruct Heff as [_ Hr]. simpl in Hr. rewrite Hr.
    assert (Hin : cid c ∈ ids st.1).
    { apply elem_of_ids. exists c. split; [by eapply list_elem_of_lookup_2|done]. }
    rewrite bool_decide_true by done.
    destruct (st.2 !! cid c) eqn:E2; [|done]. exfalso.
    destruct Hinv as [_ Hr']. destruct (proj1 (Hr' (cid c)) (mk_is_Some _ _ E2)). done. }
  split.
  - intros i c Hi. split; [by apply Hkeep|]. by apply (Hreason i).
  - intros a b c ca cb cc Hab Hbc Ha Hb Hc.
    assert (Hout : forall x y cx, E x y -> st.1 !! x = Some cx -> cid cx ∉ ids ret).
    { intros x y cx Hxy Hx Hin. apply (near_edge_neq _ _ _ _ _ Hxy).
      symmetry. apply (proj1 (Hkeep x cx Hx) Hin y). by apply rtc_once. }
    assert (Ha' : cid ca ∉ ids ret) by (exact (Hout a b ca Hab Ha)).
    assert (Hb' : cid cb ∉ ids ret) by (exact (Hout b c cb Hbc Hb)).
    assert (Hc' : cid cc ∉ ids ret) by (exact (Hout c b cc (near_edge_sym _ _ _ _ _ Hbc) Hc)).
    repeat split; try done; eapply Hreason; eauto.
Qed.

Lemma C7_witness :
  NoDup (ids ex_cluster_df) /\ dedup default_config = true /\
  fuzz_ratio with_rapidfuzz = Some indel_ratio /\ (dedup_threshold default_config < 100)%Z /\
  run_stages (pre_dedup_stages default_config with_rapidfuzz [] ++
              [mkStage (dedup default_config) "Duplicate" KExact])
             (map entry_row ex_cluster_df, ∅) = Some ex_cluster_front /\
  filter_low_value default_config with_rapidfuzz [] ex_cluster_df =
    Some (ex_cluster_retained, ex_cluster_reasons) /\
  near_edge indel_ratio 85 (map ctext ex_cluster_front.1) 0 1 /\
  near_edge indel_ratio 85 (map ctext ex_cluster_front.1) 1 2 /\
  similar indel_ratio 85 (ctext (ex_cluster_front.1 !!! 0)) (ctext (ex_cluster_front.1 !!! 2)) = false /\
  ex_cluster_reasons !! "a" = Some "Duplicate" /\ ex_cluster_reasons !! "b" = Some "Duplicate" /\
  ex_cluster_reasons !! "c" = Some "Duplicate".
Proof.
  assert (H1 : NoDup (ids ex_cluster_df)) by (apply (bool_decide_unpack _); vm_compute; reflexivity).
  assert (H4 : (dedup_threshold default_config < 100)%Z) by (vm_compute; reflexivity).
  assert (H5 : run_stages (pre_dedup_stages default_config with_rapidfuzz [] ++
                 [mkStage (dedup default_config) "Duplicate" KExact])
                 (map entry_row ex_cluster_df, ∅) = Some ex_cluster_front)
    by (vm_compute; reflexivity).
  assert (H6 : filter_low_value default_config with_rapidfuzz [] ex_cluster_df =
                 Some (ex_cluster_retained, ex_cluster_reasons)) by (vm_compute; reflexivity).
  assert (Hab : near_edge indel_ratio 85 (map ctext ex_cluster_front.1) 0 1).
  { unfold near_edge. vm_compute. split; [lia|]. split; [lia|]. left. split; [lia|reflexivity]. }
  assert (Hbc : near_edge indel_ratio 85 (map ctext ex_cluster_front.1) 1 2).
  { unfold near_edge. vm_compute. split; [lia|]. split; [lia|]. left. split; [lia|reflexivity]. }
  destruct (proj2 (C7_near_cluster default_config with_rapidfuzz [] ex_cluster_df indel_ratio
                     ex_cluster_front ex_cluster_retained ex_cluster_reasons
                     H1 eq_refl eq_refl H4 H5 H6)
              0 1 2 (ex_cluster_front.1 !!! 0) (ex_cluster_front.1 !!! 1) (ex_cluster_front.1 !!! 2)
              Hab Hbc eq_refl eq_refl eq_refl) as (_ & _ & _ & Ra & Rb & Rc).
  split; [exact H1|]. split; [reflexivity|]. split; [reflexivity|]. split; [exact H4|].
  split; [exact H5|]. split; [exact H6|]. split; [exact Hab|]. split; [exact Hbc|].
  split; [vm_compute; reflexivity|]. split; [exact Ra|]. split; [exact Rb|]. exact Rc.
Defined.

(** C2 (counterexample): with [dedup_threshold = 100] the exact phase still
    removes both members of a pair with equal normalised text. *)
Lemma C2_counterexample :
  dedup_threshold (with_threshold default_config 100) = 100%Z /\
  filter_low_value (with_threshold default_config 100) with_rapidfuzz [] ex_twins =
    Some ([], <["1" := "Duplicate"]> (<["2" := "Duplicate"]> ∅)).
Proof. split; [reflexivity|vm_compute; reflexivity]. Qed.

(** C2 (amended): with [dedup] on and unique ids, every row of the frame
    entering stage 6 whose normalised text is shared with another row of
    that frame is removed with reason ["Duplicate"], whatever
    [dedup_threshold] is; when the near phase does not run
    ([dedup_threshold >= 100] or rapidfuzz missing) the result is exactly
    the rows with a unique normalised text. *)
Theorem C2_exact_phase cfg cp bl df st ret rs :
  NoDup (ids df) -> dedup cfg = true ->
  run_stages (pre_dedup_stages cfg cp bl) (map entry_row df, ∅) = Some st ->
  filter_low_value cfg cp bl df = Some (ret, rs) ->
  (forall c, c ∈ st.1 -> duplicated (map norm st.1) (norm c) = true ->
     (cid c ∉ ids ret) /\ rs !! cid c = Some "Duplicate") /\
  ((100 <= dedup_threshold cfg)%Z \/ fuzz_ratio cp = None ->
     ret = List.filter (fun c => negb (duplicated (map norm st.1) (norm c))) st.1).
Proof.
  intros Hnd Hd Hst Hrun.
  destruct (pipeline_split _ _ _ _ _ _ Hrun) as (st' & st1 & Hst' & H1 & H2).
  rewrite Hst in Hst'. injection Hst' as <-.
  destruct (pipeline_start_inv df Hnd) as [Hnd' Hinv0].
  assert (Hinv : pipeline_inv (map entry_row df) st).
  { eapply run_stages_inv; [|exact Hnd'|exact Hinv0|exact Hst].
    pose proof (stages_wf cfg cp bl) as Hw. unfold stages in Hw.
    by apply Forall_app in Hw as [Hw _]. }
  assert (HndD : NoDup (ids st.1)) by (eapply NoDup_ids_sublist; [apply Hinv|done]).
  assert (Hst1 : st1 = _apply (fun c => negb (duplicated (map norm st.1) (norm c))) "Duplicate" st).
  { unfold run_stage in H1. simpl in H1. rewrite Hd in H1. congruence. }
  assert (Heff : stage_effect "Duplicate" st st1) by (rewrite Hst1; by apply apply_effect).
  assert (Hinv1 : pipeline_inv (map entry_row df) st1) by (by eapply effect_inv).
  assert (Hsub : ret `sublist_of` st1.1) by apply (run_stage_sublist _ _ _ H2).
  split.
  - intros c Hc Hdup.
    assert (Hout1 : cid c ∉ ids st1.1).
    { rewrite Hst1. destruct st as [D r]. simpl in *. rewrite ids_filter_elem.
      intros (c' & Hc' & Hk & Hid).
      rewrite (NoDup_map_inj_in cid D c' c HndD Hc' Hc Hid) in Hk. rewrite Hdup in Hk. done. }
    split.
    + intros Hin. apply Hout1. eapply elem_of_sublist; [exact Hin|]. by apply ids_sublist.
    + assert (Hk1 : st1.2 !! cid c = Some "Duplicate").
      { destruct Heff as [_ Hr]. rewrite Hr, bool_decide_true.
        - destruct (st.2 !! cid c) eqn:E; [|done]. exfalso.
          destruct Hinv as [_ Hr']. destruct (proj1 (Hr' (cid c)) (mk_is_Some _ _ E)).
          apply H0. apply elem_of_ids. eauto.
        - split; [|done]. apply elem_of_ids. eauto. }
      apply (run_stages_keeps (map entry_row df)
               [mkStage (dedup cfg) "Duplicate" (KNear (fuzz_ratio cp) (dedup_threshold cfg))]
               st1 (ret, rs)); [by repeat constructor|done|done| |done].
      simpl. by rewrite H2.
  - intros Hoff. unfold run_stage in H2. simpl in H2. rewrite Hd in H2.
    assert (Hid : st1 = (ret, rs)).
    { destruct Hoff as [Ht|Hf].
      - destruct (fuzz_ratio cp); [|congruence].
        replace (dedup_threshold cfg <? 100)%Z with false in H2 by (symmetry; apply Z.ltb_ge; lia).
        congruence.
      - rewrite Hf in H2. congruence. }
    replace ret with st1.1 by (by rewrite Hid). rewrite Hst1. by destruct st.
Qed.

Lemma C2_witness :
  NoDup (ids ex_twins) /\ dedup default_config = true /\
  run_stages (pre_dedup_stages default_config with_rapidfuzz []) (map entry_row ex_twins, ∅) =
    Some (map entry_row ex_twins, ∅) /\
  filter_low_value default_config with_rapidfuzz [] ex_twins =
    Some ([], <["1" := "Duplicate"]> (<["2" := "Duplicate"]> ∅)) /\
  (<["1" := "Duplicate"]> (<["2" := "Duplicate"]> ∅) : reasons_map) !! "1" = Some "Duplicate".
Proof.
  assert (H1 : NoDup (ids ex_twins)) by (apply (bool_decide_unpack _); vm_compute; reflexivity).
  assert (H3 : run_stages (pre_dedup_stages default_config with_rapidfuzz [])
                 (map entry_row ex_twins, ∅) = Some (map entry_row ex_twins, ∅))
    by (vm_compute; reflexivity).
  assert (H4 : filter_low_value default_config with_rapidfuzz [] ex_twins =
                 Some ([], <["1" := "Duplicate"]> (<["2" := "Duplicate"]> ∅)))
    by (vm_compute; reflexivity).
  assert (Hc : entry_row (mk "1" "Great explanation of the topic, very helpful") ∈
                 (map entry_row ex_twins, ∅ : reasons_map).1)
    by (apply list_elem_of_here).
  destruct (proj1 (C2_exact_phase default_config with_rapidfuzz [] ex_twins _ _ _
                     H1 eq_refl H3 H4) _ Hc eq_refl) as [_ Hr].
  split; [exact H1|]. split; [reflexivity|]. split; [exact H3|]. split; [exact H4|]. exact Hr.
Defined.

Lemma run_stage_mono s1 s2 d1 r1 d2 r2 st1 st2 :
  stage_le s1 s2 -> d2 `sublist_of` d1 ->
  run_stage s1 (d1, r1) = Some st1 -> run_stage s2 (d2, r2) = Some st2 ->
  st2.1 `sublist_of` st1.1.
Proof.
  intros (Hk & Hl & Hg & Hm) Hsub H1 H2.
  pose proof (run_stage_sublist _ _ _ H2) as Hs2. simpl in Hs2.
  revert H1 H2. unfold run_stage. rewrite <- Hk, <- Hl.
  destruct (gate s1) eqn:G1.
  2:{ intros [= <-] _. simpl. by trans d2. }
  rewrite (Hg eq_refl).
  destruct (kind s1) as [keep|keep|[detect|] mc|[score|] thr| |[ratio|] thr]; simpl in Hm; try done.
  - intros [= <-] [= <-]. simpl. by apply filter_sublist_mono.
  - cbn [fst]. destruct (nonempty d1); [|done]. destruct (nonempty d2); [|done].
    intros [= <-] [= <-]. simpl. by apply filter_sublist_mono.
  - cbn [fst]. destruct (nonempty d1); [|done]. destruct (nonempty d2); [|done].
    intros [= <-] [= <-]. simpl. by apply filter_sublist_mono.
  - intros [= <-] [= <-]. done.
  - cbn [fst]. destruct (existsb (fun c => raises (score (ctext c))) d1); [done|].
    destruct (existsb (fun c => raises (score (ctext c))) d2); [done|].
    destruct (nonempty d1); [|done]. destruct (nonempty d2); [|done].
    intros [= <-] [= <-]. simpl. by apply filter_sublist_mono.
  - intros [= <-] [= <-]. done.
Qed.

Lemma run_stages_mono ss1 ss2 st1 st2 f1 f2 :
  Forall2 stage_le ss1 ss2 -> st2.1 `sublist_of` st1.1 ->
  run_stages ss1 st1 = Some f1 -> run_stages ss2 st2 = Some f2 -> f2.1 `sublist_of` f1.1.
Proof.
  intros H. revert st1 st2. induction H as [|s1 s2 ss1 ss2 Hs Hss IH]; intros st1 st2 Hsub; simpl.
  - by intros [= <-] [= <-].
  - destruct (run_stage s1 st1) as [a1|] eqn:E1; [|done].
    destruct (run_stage s2 st2) as [a2|] eqn:E2; [|done].
    apply IH. destruct st1, st2. by eapply run_stage_mono.
Qed.

Lemma pre_stages_le cfg1 cfg2 cp bl :
  gates_le cfg1 cfg2 ->
  Forall2 stage_le (pre_dedup_stages cfg1 cp bl) (pre_dedup_stages cfg2 cp bl).
Proof.
  intros (G1 & G2 & G3 & G4 & G5 & G6 & G7 & G8 & G9 & G10 & _ & T1 & T2 & T3 & T4 & _).
  unfold pre_dedup_stages. rewrite T1, T2, T3, T4.
  repeat constructor; simpl; auto.
  rewrite !andb_true_iff. intros [? ?]. auto.
Qed.

(** C3 (counterexample): switching the repeated-character gate off lets a
    comment reach the exact-duplicate phase, where it takes its partner down
    with it: fewer gates, fewer retained rows. *)
Lemma C3_counterexample :
  gates_le (without_repeat_check default_config) default_config /\
  filter_low_value (without_repeat_check default_config) no_models [] ex_case_pair =
    Some ([], <["1" := "Duplicate"]> (<["2" := "Duplicate"]> ∅)) /\
  filter_low_value default_config no_models [] ex_case_pair =
    Some ([entry_row (mk "2" "WoOoOow what a nice video")], <["1" := "Repeated Chars"]> ∅).
Proof.
  split; [|split; vm_compute; reflexivity].
  repeat split; simpl; auto.
Qed.

(** C3 (amended): when the configuration with fewer gates has [dedup] off
    (thresholds held fixed, and both runs complete), its retained rows
    contain those of the configuration with more gates (as a sublist), so
    there are at least as many. *)
Theorem C3_monotone cfg1 cfg2 cp bl df r1 rs1 r2 rs2 :
  gates_le cfg1 cfg2 -> dedup cfg1 = false ->
  filter_low_value cfg1 cp bl df = Some (r1, rs1) ->
  filter_low_value cfg2 cp bl df = Some (r2, rs2) ->
  r2 `sublist_of` r1 /\ length r2 <= length r1.
Proof.
  intros Hle Hd H1 H2.
  destruct (pipeline_split _ _ _ _ _ _ H1) as (a & a1 & Ha & Ha1 & Ha2).
  destruct (pipeline_split _ _ _ _ _ _ H2) as (b & b1 & Hb & Hb1 & Hb2).
  unfold run_stage in Ha1, Ha2. simpl in Ha1, Ha2. rewrite Hd in Ha1, Ha2.
  injection Ha1 as <-. injection Ha2 as ->.
  assert (Hpre : b.1 `sublist_of` r1).
  { change r1 with (r1, rs1).1. eapply run_stages_mono; [by apply pre_stages_le|done|exact Ha|exact Hb]. }
  assert (Hsub : r2 `sublist_of` r1).
  { trans b1.1; [apply (run_stage_sublist _ _ _ Hb2)|].
    trans b.1; [apply (run_stage_sublist _ _ _ Hb1)|done]. }
  split; [done|]. by apply sublist_length.
Qed.

Lemma C3_witness :
  gates_le (without_dedup default_config) default_config /\
  dedup (without_dedup default_config) = false /\
  filter_low_value (without_dedup default_config) no_models [] ex_df =
    Some (map entry_row (drop 1 ex_df), <["1" := "Too Short"]> ∅) /\
  filter_low_value default_config no_models [] ex_df = Some (ex_retained, ex_reasons) /\
  length ex_retained <= length (map entry_row (drop 1 ex_df)).
Proof.
  assert (H0 : gates_le (without_dedup default_config) default_config)
    by (repeat split; simpl; auto).
  assert (H1 : filter_low_value (without_dedup default_config) no_models [] ex_df =
    Some (map entry_row (drop 1 ex_df), <["1" := "Too Short"]> ∅)) by (vm_compute; reflexivity).
  assert (H2 : filter_low_value default_config no_models [] ex_df = Some (ex_retained, ex_reasons))
    by (vm_compute; reflexivity).
  destruct (C3_monotone _ _ _ _ _ _ _ _ _ H0 eq_refl H1 H2) as [_ Hlen].
  split; [exact H0|]. split; [reflexivity|]. split; [exact H1|]. split; [exact H2|]. exact Hlen.
Defined.

(** C5 (counterexample): a retained comment's text is the stripped input
    text, not the input text. *)
Lemma C5_counterexample :
  filter_low_value default_config no_models [] [ex_padded] =
    Some ([mk "1" "Great explanation of the topic, very helpful"], ∅) /\
  text ex_padded <> text (mk "1" "Great explanation of the topic, very helpful").
Proof. split; [vm_compute; reflexivity|discriminate]. Qed.

(** C5 (amended): the retained rows are, in order, a sublist of the input
    rows as normalised at entry: each keeps its id, author, like count and
    timestamp, and its text is the input text with a missing value read as
    the empty string and surrounding whitespace stripped. *)
Theorem C5_frame cfg cp bl df ret rs :
  filter_low_value cfg cp bl df = Some (ret, rs) ->
  ret `sublist_of` map entry_row df /\
  forall c', c' ∈ ret -> exists c, c ∈ df /\ cid c' = cid c /\ author c' = author c /\
    like_count c' = like_count c /\ timestamp c' = timestamp c /\
    text c' = Some (strip (default "" (text c))).
Proof.
  intros H. pose proof (retained_entry_rows _ _ _ _ _ _ H) as Hsub. split; [done|].
  intros c' Hc'. pose proof (elem_of_sublist _ _ _ Hc' Hsub) as Hin.
  apply list_elem_of_In, in_map_iff in Hin as (c & <- & Hc).
  exists c. split; [by apply list_elem_of_In|]. unfold entry_row. simpl. auto 10.
Qed.

Lemma C5_witness :
  filter_low_value default_config no_models [] [ex_padded] =
    Some ([mk "1" "Great explanation of the topic, very helpful"], ∅) /\
  text (mk "1" "Great explanation of the topic, very helpful") =
    Some (strip (default "" (text ex_padded))).
Proof.
  assert (H : filter_low_value default_config no_models [] [ex_padded] =
                Some ([mk "1" "Great explanation of the topic, very helpful"], ∅))
    by (vm_compute; reflexivity).
  destruct (C5_frame _ _ _ _ _ _ H) as [_ Hf].
  destruct (Hf _ (list_elem_of_here _ _)) as (c & Hc & _ & _ & _ & _ & Ht).
  apply list_elem_of_singleton in Hc. subst c.
  split; [exact H|exact Ht].
Defined.

(** C4: the language stage keeps a comment on which the detector raises,
    but the sentiment stage has no handler: a scorer that raises on one
    comment makes [filter_low_value] raise (no result at all), while the
    same input with the sentiment gate off completes and keeps that
    comment. *)
Theorem C4_sentiment_raise :
  filter_low_value (without_sentiment default_config) raising_models [] ex_raising_df =
    Some (map entry_row ex_raising_df, ∅) /\
  filter_low_value default_config raising_models [] ex_raising_df = None.
Proof. split; vm_compute; reflexivity. Qed.


(** C10: near-duplicate similarity is computed on the original-case text:
    two comments that differ by letter case and one trailing character
    have different normalised texts, are similar once lowercased but not
    as written, and both survive the default pipeline with rapidfuzz. *)
Theorem C10_case_sensitive :
  let a := mk "a" "THIS IS A GREAT VIDEO" in
  let b := mk "b" "this is a great video!" in
  norm a <> norm b /\
  similar indel_ratio (dedup_threshold default_config) (lower (ctext a)) (lower (ctext b)) = true /\
  similar indel_ratio (dedup_threshold default_config) (ctext a) (ctext b) = false /\
  filter_low_value default_config with_rapidfuzz [] [a; b] = Some ([a; b], ∅).
Proof.
  simpl. split; [discriminate|]. split; [vm_compute; reflexivity|].
  split; vm_compute; reflexivity.
Qed.

Lemma assoc_map_set_ne {A} (k k' : string) (v : A) (d : list (string * A)) :
  k <> k' ->
  assoc k (map (fun kv => if String.eqb k' kv.1 then (k', v) else kv) d) = assoc k d.
Proof.
  intros Hne. induction d as [|[k0 v0] d IH]; simpl; [done|].
  destruct (String.eqb k' k0) eqn:E; simpl.
  - apply String.eqb_eq in E. subst k0. apply String.eqb_neq in Hne. by rewrite Hne.
  - by rewrite IH.
Qed.

Lemma assoc_map_set_eq {A} (k : string) (v : A) (d : list (string * A)) :
  existsb (fun kv => String.eqb k kv.1) d = true ->
  assoc k (map (fun kv => if String.eqb k kv.1 then (k, v) else kv) d) = Some v.
Proof.
  induction d as [|[k0 v0] d IH]; simpl; [done|].
  destruct (String.eqb k k0) eqn:E; simpl.
  - by rewrite String.eqb_refl.
  - rewrite E. apply IH.
Qed.

Lemma assoc_app_none {A} (k k' : string) (v : A) (d : list (string * A)) :
  existsb (fun kv => String.eqb k' kv.1) d = false ->
  assoc k (d ++ [(k', v)]) = if String.eqb k k' then Some v else assoc k d.
Proof.
  induction d as [|[k0 v0] d IH]; simpl; [done|].
  intros Hx. apply orb_false_iff in Hx as [Hx Hd].
  destruct (String.eqb k k0) eqn:E.
  - apply String.eqb_eq in E. subst k0. destruct (String.eqb k k') eqn:E'; [|done].
    apply String.eqb_eq in E'. subst. by rewrite String.eqb_refl in Hx.
  - by apply IH.
Qed.

Lemma assoc_dict_set {A} (k k' : string) (v : A) (d : list (string * A)) :
  assoc k (dict_set k' v d) = if String.eqb k k' then Some v else assoc k d.
Proof.
  unfold dict_set. destruct (existsb _ d) eqn:E.
  - destruct (String.eqb k k') eqn:Ek.
    + apply String.eqb_eq in Ek. subst. by apply assoc_map_set_eq.
    + apply assoc_map_set_ne. by apply String.eqb_neq.
  - by apply assoc_app_none.
Qed.

Lemma assoc_app_cons_ne {A} (k k0 : string) (v : A) (L : list (string * A)) :
  String.eqb k k0 = false -> assoc k ((k0, v) :: L) = assoc k L.
Proof. simpl. intros ->. done. Qed.

Lemma assoc_In {A} (k : string) (v : A) (L : list (string * A)) :
  assoc k L = Some v -> In (k, v) L.
Proof.
  induction L as [|[k0 v0] L IH]; simpl; [done|].
  destruct (String.eqb k k0) eqn:E.
  - apply String.eqb_eq in E. subst. intros [= ->]. by left.
  - intros H. right. by apply IH.
Qed.

Lemma num_keys_in k sp : In (k, sp) _FILTER_NUM_KEYS -> assoc k _FILTER_NUM_KEYS = Some sp.
Proof.
  simpl. intros H. repeat destruct H as [H|H]; try (injection H as <- <-; reflexivity); done.
Qed.

Lemma num_keys_nodup : NoDup (map fst _FILTER_NUM_KEYS).
Proof. apply (bool_decide_unpack _). vm_compute. reflexivity. Qed.

Lemma num_keys_not_bool k sp :
  assoc k _FILTER_NUM_KEYS = Some sp -> existsb (String.eqb k) _FILTER_BOOL_KEYS = false.
Proof.
  intros Hk. destruct (existsb (String.eqb k) _FILTER_BOOL_KEYS) eqn:Eb; [|done].
  exfalso. revert Eb Hk. clear.
  unfold _FILTER_NUM_KEYS, _FILTER_BOOL_KEYS. simpl.
  repeat match goal with
         | |- context [String.eqb k ?s] => destruct (String.eqb_spec k s) as [->|?]
         end; simpl; congruence.
Qed.

Lemma clamp_Z lo hi z : (lo <= hi)%Z -> (lo <= py_max_Z lo (py_min_Z hi z) <= hi)%Z.
Proof.
  unfold py_max_Z, py_min_Z. intros H.
  destruct (z <? hi)%Z eqn:E1; destruct (lo <? _)%Z eqn:E2;
    rewrite ?Z.ltb_lt, ?Z.ltb_ge in *; lia.
Qed.

Lemma Qle_bool_false x y : Qle_bool x y = false -> (y < x)%Q.
Proof.
  intros E. apply not_true_iff_false in E. rewrite Qle_bool_iff in E. by apply Qnot_le_lt.
Qed.

(** [max(lo, min(hi, f))] is finite whatever the float [f] (a NaN or an
    infinity included), and within [[lo, hi]] when [lo <= hi]. *)
Lemma clamp_F lo hi f :
  exists q, py_max_F (FFin lo) (py_min_F (FFin hi) f) = FFin q /\
            ((lo <= hi)%Q -> (lo <= q <= hi)%Q).
Proof.
  unfold py_max_F, py_min_F.
  assert (Hhi : exists q, (if flt_lt (FFin lo) (FFin hi) then FFin hi else FFin lo) = FFin q /\
                          ((lo <= hi)%Q -> (lo <= q <= hi)%Q)).
  { simpl. destruct (Qle_bool hi lo) eqn:E; simpl.
    - exists lo. split; [done|]. intros H. split; [apply Qle_refl|exact H].
    - exists hi. split; [done|]. intros H. split; [exact H|apply Qle_refl]. }
  destruct f as [x|[|]|]; simpl.
  - destruct (Qle_bool hi x) eqn:E1; simpl.
    + exact Hhi.
    + destruct (Qle_bool x lo) eqn:E2; simpl.
      * exists lo. split; [done|]. intros H. split; [apply Qle_refl|exact H].
      * exists x. split; [done|]. intros _.
        apply Qle_bool_false in E1, E2. split; apply Qlt_le_weak; assumption.
  - exists lo. split; [done|]. intros H. split; [apply Qle_refl|exact H].
  - exact Hhi.
  - exact Hhi.
Qed.

Section Build.
Variable parse_int : string -> option Z.
Variable parse_float : string -> option pyfloat.

Lemma fold_num_assoc raw L acc k :
  NoDup (map fst L) ->
  assoc k (foldl (num_step parse_int parse_float raw) acc L) =
  match assoc k L with
  | Some sp => match num_result parse_int parse_float raw k sp with Some x => Some x | None => assoc k acc end
  | None => assoc k acc
  end.
Proof.
  revert acc. induction L as [|[k0 sp0] L IH]; intros acc Hnd; simpl; [done|].
  simpl in Hnd. apply NoDup_cons in Hnd as [Hk0 Hnd].
  rewrite IH by done.
  assert (Hstep : assoc k (num_step parse_int parse_float raw acc (k0, sp0)) =
                  if String.eqb k k0 then
                    match num_result parse_int parse_float raw k sp0 with Some x => Some x | None => assoc k acc end
                  else assoc k acc).
  { unfold num_step. cbn [fst snd].
    destruct (String.eqb k k0) eqn:E.
    - apply String.eqb_eq in E. subst k0.
      destruct (num_result parse_int parse_float raw k sp0); [|done].
      by rewrite assoc_dict_set, String.eqb_refl.
    - destruct (num_result parse_int parse_float raw k0 sp0); [|done].
      by rewrite assoc_dict_set, E. }
  rewrite Hstep. destruct (String.eqb k k0) eqn:E.
  - apply String.eqb_eq in E. subst k0.
    assert (Hnone : assoc k L = None).
    { clear -Hk0. induction L as [|[k1 s1] L IH]; simpl; [done|].
      simpl in Hk0. destruct (String.eqb k k1) eqn:E.
      - apply String.eqb_eq in E. subst. destruct Hk0. apply list_elem_of_here.
      - apply IH. intros Hin. apply Hk0. by apply list_elem_of_further. }
    by rewrite Hnone.
  - done.
Qed.

Lemma fold_num_iter_none raw L : foldl (num_iter parse_int parse_float raw) None L = None.
Proof. induction L as [|ks L IH]; simpl; [done|exact IH]. Qed.

Lemma fold_num_iter raw L acc :
  foldl (num_iter parse_int parse_float raw) (Some acc) L =
  if existsb (fun ks => num_raises parse_int parse_float raw ks.1 ks.2) L then None
  else Some (foldl (num_step parse_int parse_float raw) acc L).
Proof.
  revert acc. induction L as [|[k sp] L IH]; intros acc; cbn [foldl existsb fst snd]; [done|].
  assert (Hit : num_iter parse_int parse_float raw (Some acc) (k, sp) =
                if num_raises parse_int parse_float raw k sp then None
                else Some (num_step parse_int parse_float raw acc (k, sp))).
  { unfold num_iter, num_raises, num_step, num_result. cbn [fst snd].
    destruct (assoc k raw); [|done].
    destruct (sanitise_num parse_int parse_float sp p) as [x|[| |]]; reflexivity. }
  rewrite Hit. destruct (num_raises parse_int parse_float raw k sp); simpl.
  - apply fold_num_iter_none.
  - apply IH.
Qed.

Lemma build_spec raw :
  build_filter_kwargs parse_int parse_float raw =
  if existsb (fun ks => num_raises parse_int parse_float raw ks.1 ks.2) _FILTER_NUM_KEYS then None
  else Some (foldl (num_step parse_int parse_float raw)
                   (map (fun kv => (kv.1, KwBool (py_bool kv.2)))
                        (List.filter (fun kv => existsb (String.eqb kv.1) _FILTER_BOOL_KEYS) raw))
                   _FILTER_NUM_KEYS).
Proof. unfold build_filter_kwargs. apply fold_num_iter. Qed.

Lemma assoc_bools raw k v :
  assoc k (map (fun kv => (kv.1, KwBool (py_bool kv.2)))
               (List.filter (fun kv => existsb (String.eqb kv.1) _FILTER_BOOL_KEYS) raw)) = Some v ->
  existsb (String.eqb k) _FILTER_BOOL_KEYS = true /\ exists b, v = KwBool b.
Proof.
  induction raw as [|[k0 v0] raw IH]; cbn [List.filter]; [done|].
  destruct (existsb (String.eqb (k0, v0).1) _FILTER_BOOL_KEYS) eqn:E; [|done].
  cbn [map assoc fst snd]. destruct (String.eqb k k0) eqn:Ek; [|done].
  apply String.eqb_eq in Ek. subst. intros [= <-]. split; [done|]. eauto.
Qed.

Lemma assoc_bools_none raw k :
  existsb (String.eqb k) _FILTER_BOOL_KEYS = false ->
  assoc k (map (fun kv => (kv.1, KwBool (py_bool kv.2)))
               (List.filter (fun kv => existsb (String.eqb kv.1) _FILTER_BOOL_KEYS) raw)) = None.
Proof.
  intros Hb. destruct (assoc k _) eqn:E; [|done].
  apply assoc_bools in E as [E _]. congruence.
Qed.

Lemma build_some raw kw :
  build_filter_kwargs parse_int parse_float raw = Some kw ->
  (forall ks, In ks _FILTER_NUM_KEYS -> num_raises parse_int parse_float raw ks.1 ks.2 = false) /\
  forall k, assoc k kw =
    match assoc k _FILTER_NUM_KEYS with
    | Some sp =>
        match num_result parse_int parse_float raw k sp with
        | Some x => Some x
        | None => None
        end
    | None => assoc k (map (fun kv => (kv.1, KwBool (py_bool kv.2)))
                (List.filter (fun kv => existsb (String.eqb kv.1) _FILTER_BOOL_KEYS) raw))
    end.
Proof.
  rewrite build_spec. destruct (existsb _ _) eqn:E; [done|]. intros Hkw.
  apply (inj Some) in Hkw. subst kw. split.
  - intros ks Hin. apply not_true_iff_false. intros Hr. apply not_true_iff_false in E.
    apply E, existsb_exists. eauto.
  - intros k. rewrite fold_num_assoc by apply num_keys_nodup.
    destruct (assoc k _FILTER_NUM_KEYS) as [sp|] eqn:Hk; [|done].
    rewrite assoc_bools_none by (eapply num_keys_not_bool; exact Hk).
    by destruct (num_result _ _ _ _ _).
Qed.

Lemma sanitise_int_clamped lo hi d v x :
  sanitise_num parse_int parse_float (NInt lo hi d) v = Ret x -> (lo <= hi)%Z ->
  exists z, x = KwInt z /\ (lo <= z <= hi)%Z.
Proof.
  simpl. destruct (py_int parse_int v) as [z|e]; [|done]. intros [= <-] H.
  eexists. split; [reflexivity|]. by apply clamp_Z.
Qed.

Lemma sanitise_float_clamped lo hi d v x :
  sanitise_num parse_int parse_float (NFloat lo hi d) v = Ret x ->
  exists q, x = KwFloat (FFin q) /\ ((lo <= hi)%Q -> (lo <= q <= hi)%Q).
Proof.
  simpl. destruct (py_float parse_float v) as [f|e]; [|done]. intros [= <-].
  destruct (clamp_F lo hi f) as (q & -> & Hq). eauto.
Qed.

Lemma kw_int_clamped raw kw k lo hi d :
  build_filter_kwargs parse_int parse_float raw = Some kw ->
  assoc k _FILTER_NUM_KEYS = Some (NInt lo hi d) ->
  (lo <= hi)%Z -> (lo <= d <= hi)%Z -> (lo <= kw_int kw k d <= hi)%Z.
Proof.
  intros Hb Hk Hlh Hd. destruct (build_some raw kw Hb) as [_ Ha].
  unfold kw_int. rewrite Ha, Hk. unfold num_result.
  destruct (assoc k raw) as [v|]; [|done].
  destruct (sanitise_num parse_int parse_float _ v) as [x|e] eqn:Es; [|done].
  destruct (sanitise_int_clamped _ _ _ _ _ Es Hlh) as (z & -> & Hz). exact Hz.
Qed.

Lemma kw_float_clamped raw kw k lo hi d :
  build_filter_kwargs parse_int parse_float raw = Some kw ->
  assoc k _FILTER_NUM_KEYS = Some (NFloat lo hi d) ->
  (lo <= hi)%Q -> (lo <= d <= hi)%Q -> (lo <= kw_float kw k d <= hi)%Q.
Proof.
  intros Hb Hk Hlh Hd. destruct (build_some raw kw Hb) as [_ Ha].
  unfold kw_float. rewrite Ha, Hk. unfold num_result.
  destruct (assoc k raw) as [v|]; [|done].
  destruct (sanitise_num parse_int parse_float _ v) as [x|e] eqn:Es; [|done].
  destruct (sanitise_float_clamped _ _ _ _ _ Es) as (q & -> & Hq). exact (Hq Hlh).
Qed.

Lemma sanitise_overflow sp v :
  sanitise_num parse_int parse_float sp v = Exc OverflowError <->
  (exists lo hi d neg, sp = NInt lo hi d /\ v = PFloat (FInf neg)) \/
  (exists lo hi d z, sp = NFloat lo hi d /\ v = PInt z /\ (float_overflow_bound <= Z.abs z)%Z).
Proof.
  split.
  - destruct sp as [lo hi d|lo hi d]; simpl.
    + destruct v as [z|[q|neg|]|b|str| |n]; simpl; try discriminate.
      * intros _. left. eauto 6.
      * destruct (parse_int str); discriminate.
    + destruct v as [z|f|b|str| |n]; simpl; try discriminate.
      * destruct (float_overflow_bound <=? Z.abs z)%Z eqn:E; [|discriminate].
        intros _. right. exists lo, hi, d, z. repeat split. by apply Z.leb_le.
      * destruct (parse_float str); discriminate.
  - intros [(lo & hi & d & neg & -> & ->)|(lo & hi & d & z & -> & -> & Hz)]; simpl; [done|].
    apply Z.leb_le in Hz. by rewrite Hz.
Qed.

End Build.



(* ------------------------------------------------------------------ *)
(** * Lemmas of the other embedded functions *)

Lemma dw_suffix p l : drop_while p l `suffix_of` l.
Proof.
  induction l as [|a l IH]; simpl; [done|].
  destruct (p a); [by apply suffix_cons_r|done].
Qed.

Lemma dw_head p l a l' : drop_while p l = a :: l' -> p a = false.
Proof.
  induction l as [|b l IH]; simpl; [done|].
  destruct (p b) eqn:E; [done|]. intros [= -> _]. done.
Qed.

Lemma dw_id p l : (forall a l', l = a :: l' -> p a = false) -> drop_while p l = l.
Proof. destruct l as [|a l]; simpl; [done|]. intros H. by rewrite (H a l eq_refl). Qed.

Lemma last_rev {A} (l : list A) : last (rev l) = head l.
Proof. destruct l; simpl; [done|]. by rewrite last_snoc. Qed.

Lemma rdw_prefix p l : rev (drop_while p (rev l)) `prefix_of` l.
Proof.
  destruct (dw_suffix p (rev l)) as [k Hk].
  exists (rev k). rewrite <- rev_app_distr, <- Hk. by rewrite rev_involutive.
Qed.

Lemma rdw_last p l a : last (rev (drop_while p (rev l))) = Some a -> p a = false.
Proof.
  rewrite last_rev. destruct (drop_while p (rev l)) eqn:E; simpl; [done|].
  intros [= ->]. by eapply dw_head.
Qed.

Lemma no_double_cons a l :
  no_double_us (a :: l) =
  match head l with Some b => negb (is_us a && is_us b) | None => true end && no_double_us l.
Proof. by destruct l. Qed.

Lemma no_double_app_r k l : no_double_us (k ++ l) = true -> no_double_us l = true.
Proof.
  induction k as [|a k IH]; cbn [app]; [done|]. rewrite no_double_cons.
  intros H. apply andb_true_iff in H as [_ H]. auto.
Qed.

Lemma no_double_app_l l k : no_double_us (l ++ k) = true -> no_double_us l = true.
Proof.
  induction l as [|a l IH]; cbn [app]; [done|]. rewrite !no_double_cons.
  intros H. apply andb_true_iff in H as [H1 H2]. rewrite (IH H2), andb_true_r.
  destruct l as [|b l]; simpl in *; [done|exact H1].
Qed.

Lemma no_double_prefix l m : l `prefix_of` m -> no_double_us m = true -> no_double_us l = true.
Proof. intros [k ->]. apply no_double_app_l. Qed.

Lemma no_double_suffix l m : l `suffix_of` m -> no_double_us m = true -> no_double_us l = true.
Proof. intros [k ->]. apply no_double_app_r. Qed.

Lemma Forall_prefix' {A} (P : A -> Prop) l m : l `prefix_of` m -> Forall P m -> Forall P l.
Proof. intros [k ->] H. by apply Forall_app in H as [H _]. Qed.

Lemma Forall_suffix' {A} (P : A -> Prop) l m : l `suffix_of` m -> Forall P m -> Forall P l.
Proof. intros [k ->] H. by apply Forall_app in H as [_ H]. Qed.

Lemma head_prefix {A} (l m : list A) : l `prefix_of` m -> l <> [] -> head l = head m.
Proof. intros [k ->] Hl. destruct l; [done|]. done. Qed.

Lemma slug_char_not_us a : is_slug_char a = true -> is_us a = false.
Proof.
  intros H. destruct (is_us a) eqn:E; [|done].
  unfold is_us in E. apply Ascii.eqb_eq in E. subst. discriminate.
Qed.

Lemma sub_runs_ok b l : Forall (fun a => is_slug_char a || is_us a = true) (sub_runs b l).
Proof.
  revert b. induction l as [|a l IH]; intros b; simpl; [constructor|].
  destruct (is_slug_char a) eqn:E; [constructor; [by rewrite E|apply IH]|].
  destruct b; [apply IH|]. constructor; [done|apply IH].
Qed.

Lemma sub_runs_nd b l :
  no_double_us (sub_runs b l) = true /\ (b = true -> head (sub_runs b l) <> Some "_"%char).
Proof.
  revert b. induction l as [|a l IH]; intros b; simpl; [done|].
  destruct (is_slug_char a) eqn:E.
  - rewrite no_double_cons, (slug_char_not_us _ E). simpl.
    split; [|intros _ [= ->]; discriminate].
    destruct (IH false) as [-> _]. by destruct (head _).
  - destruct b.
    + apply IH.
    + rewrite no_double_cons. destruct (IH true) as [H1 H2]. split; [|done].
      rewrite H1, andb_true_r. destruct (head (sub_runs true l)) as [c|] eqn:Ec; [|done].
      assert (c <> "_"%char) by (intros ->; by apply H2).
      unfold is_us. simpl. destruct (Ascii.eqb c "_") eqn:Ecu; [|done].
      by apply Ascii.eqb_eq in Ecu.
Qed.

(** The body [strip_us (sub_runs false ...)] is well formed or empty. *)
Lemma strip_sub_runs_wf l :
  let s := strip_us (sub_runs false l) in s = [] \/ slug_wf s.
Proof.
  intros s. destruct s as [|a s'] eqn:Es; [by left|right]. rewrite <- Es.
  set (x := sub_runs false l) in *.
  set (d := drop_while is_us x) in *.
  assert (Hp : s `prefix_of` d) by apply rdw_prefix.
  assert (Hs : d `suffix_of` x) by apply dw_suffix.
  split; [by rewrite Es|]. split; [|split; [|split]].
  - eapply Forall_prefix'; [exact Hp|]. eapply Forall_suffix'; [exact Hs|]. apply sub_runs_ok.
  - rewrite (head_prefix _ _ Hp) by (by rewrite Es).
    destruct d as [|c d'] eqn:Ed; [done|]. simpl. intros [= Hc].
    pose proof (dw_head _ _ _ _ Ed) as Hu. subst c. discriminate.
  - intros Hl. pose proof (rdw_last _ _ _ Hl). discriminate.
  - eapply no_double_prefix; [exact Hp|]. eapply no_double_suffix; [exact Hs|]. apply sub_runs_nd.
Qed.

Lemma rstrip_take_wf s n :
  slug_wf s -> let r := rstrip_us (py_take n s) in r = [] \/ (slug_wf r /\ r `prefix_of` s).
Proof.
  intros (Hne & Hok & Hh & Hl & Hnd) r.
  destruct r as [|a r'] eqn:Er; [by left|right]. rewrite <- Er.
  assert (Hp1 : r `prefix_of` py_take n s) by apply rdw_prefix.
  assert (Hp2 : py_take n s `prefix_of` s) by (unfold py_take; destruct (0 <=? n)%Z; apply prefix_take).
  assert (Hp : r `prefix_of` s) by (by trans (py_take n s)).
  split; [|done]. split; [by rewrite Er|]. split; [|split; [|split]].
  - by eapply Forall_prefix'.
  - by rewrite (head_prefix _ _ Hp) by (by rewrite Er).
  - intros Hl'. pose proof (rdw_last _ _ _ Hl'). discriminate.
  - by eapply no_double_prefix.
Qed.

Lemma slug_wf_unknown : slug_wf (list_ascii_of_string "unknown").
Proof.
  split; [discriminate|]. split; [repeat constructor|].
  split; [discriminate|]. split; [discriminate|reflexivity].
Qed.

Lemma slugify_cases t m :
  _slugify t m = "unknown" \/
  exists l, _slugify t m = string_of_list_ascii l /\ slug_wf l /\
    (forall n, m = Some n -> (0 < n)%Z -> length l <= Z.to_nat n).
Proof.
  unfold _slugify.
  set (s := strip_us (sub_runs false (map lower_char (list_ascii_of_string t)))).
  destruct (strip_sub_runs_wf (map lower_char (list_ascii_of_string t))) as [Hs|Hs];
    fold s in Hs.
  - left. rewrite Hs. destruct m as [n|]; [|done].
    destruct (n =? 0)%Z; [done|]. unfold rstrip_us, py_take. destruct (0 <=? n)%Z; by rewrite ?firstn_nil.
  - destruct m as [n|].
    + destruct (n =? 0)%Z eqn:En.
      * destruct s as [|a s'] eqn:E; [by left|right].
        exists (a :: s'). split; [done|]. split; [done|]. intros n' [= <-] Hn. lia.
      * destruct (rstrip_take_wf s n Hs) as [Hr|[Hr Hp]];
          set (r := rstrip_us (py_take n s)) in *.
        -- left. by rewrite Hr.
        -- right. destruct r as [|a r'] eqn:Er; [by destruct Hr|].
           exists (a :: r'). split; [done|]. split; [done|].
           intros n' [= <-] Hn. rewrite <- Er.
           assert (Hp1 : r `prefix_of` py_take n s) by apply rdw_prefix.
           apply prefix_length in Hp1. unfold py_take in Hp1.
           destruct (0 <=? n)%Z eqn:E0; [|lia]. rewrite length_take in Hp1. lia.
    + destruct s as [|a s'] eqn:E; [by left|right].
      exists (a :: s'). split; [done|]. split; [done|]. intros n' [=].
Qed.


Lemma string_length_list s : String.length s = length (list_ascii_of_string s).
Proof. induction s; simpl; auto. Qed.

Lemma slug_lower a : is_slug_char (lower_char a) = is_alnum_ascii a.
Proof. destruct a as [[] [] [] [] [] [] [] []]; reflexivity. Qed.

Lemma lower_slug_id a : is_slug_char a || is_us a = true -> lower_char a = a.
Proof. destruct a as [[] [] [] [] [] [] [] []]; first [reflexivity | discriminate]. Qed.

Lemma filter_nus_sub_runs b l :
  List.filter (fun a => negb (is_us a)) (sub_runs b l) = List.filter is_slug_char l.
Proof.
  revert b. induction l as [|a l IH]; intros b; simpl; [done|].
  destruct (is_slug_char a) eqn:E; simpl.
  - by rewrite (slug_char_not_us _ E), IH.
  - destruct b; simpl; apply IH.
Qed.

Lemma filter_nus_dw l :
  List.filter (fun a => negb (is_us a)) (drop_while is_us l) = List.filter (fun a => negb (is_us a)) l.
Proof.
  induction l as [|a l IH]; simpl; [done|]. destruct (is_us a) eqn:E; simpl; [|by rewrite E].
  rewrite IH. done.
Qed.

Lemma filter_rev' {A} (f : A -> bool) l : List.filter f (rev l) = rev (List.filter f l).
Proof.
  induction l as [|a l IH]; simpl; [done|]. rewrite List.filter_app, IH. simpl.
  destruct (f a); simpl; [done|by rewrite app_nil_r].
Qed.

Lemma filter_nus_strip l :
  List.filter (fun a => negb (is_us a)) (strip_us l) = List.filter (fun a => negb (is_us a)) l.
Proof.
  unfold strip_us. rewrite filter_rev', filter_nus_dw, filter_rev', filter_nus_dw.
  apply rev_involutive.
Qed.

Lemma filter_slug_lower l :
  List.filter is_slug_char (map lower_char l) = map lower_char (List.filter is_alnum_ascii l).
Proof.
  induction l as [|a l IH]; simpl; [done|]. rewrite slug_lower.
  destruct (is_alnum_ascii a); simpl; by rewrite IH.
Qed.

Lemma sub_runs_id b l :
  Forall (fun a => is_slug_char a || is_us a = true) l -> no_double_us l = true ->
  (b = true -> head l <> Some "_"%char) -> sub_runs b l = l.
Proof.
  revert b. induction l as [|a l IH]; intros b Hok Hnd Hh; simpl; [done|].
  apply Forall_cons in Hok as [Ha Hok]. rewrite no_double_cons in Hnd.
  apply andb_true_iff in Hnd as [Hab Hnd].
  destruct (is_slug_char a) eqn:E.
  - f_equal. apply IH; [done|done|discriminate].
  - simpl in Ha. unfold is_us in Ha. apply Ascii.eqb_eq in Ha. subst a.
    destruct b; [by destruct Hh|]. f_equal. apply IH; auto.
    intros _ Hl. rewrite Hl in Hab. discriminate.
Qed.

Lemma strip_us_id l : head l <> Some "_"%char -> last l <> Some "_"%char -> strip_us l = l.
Proof.
  intros Hh Hl. unfold strip_us.
  assert (Hnh : forall m, head m <> Some "_"%char -> drop_while is_us m = m).
  { intros m Hm. apply dw_id. intros a m' ->. simpl in Hm.
    unfold is_us. destruct (Ascii.eqb a "_") eqn:E; [|done].
    apply Ascii.eqb_eq in E. subst. done. }
  rewrite (Hnh l Hh), (Hnh (rev l)); [apply rev_involutive|].
  rewrite <- last_rev, rev_involutive. done.
Qed.

Lemma wf_slugify_id l m :
  slug_wf l -> (forall n, m = Some n -> (length l <= Z.to_nat n)%nat /\ (0 < n)%Z) ->
  _slugify (string_of_list_ascii l) m = string_of_list_ascii l.
Proof.
  intros (Hne & Hok & Hh & Hl & Hnd) Hm. unfold _slugify.
  rewrite list_ascii_of_string_of_list_ascii.
  assert (Hmap : map lower_char l = l).
  { clear -Hok. induction Hok; simpl; [done|]. by rewrite lower_slug_id, IHHok. }
  rewrite Hmap, (sub_runs_id false l Hok Hnd) by discriminate.
  rewrite strip_us_id by done.
  destruct m as [n|].
  - destruct (Hm n eq_refl) as [Hlen Hn].
    destruct (n =? 0)%Z eqn:En; [lia|].
    unfold py_take. destruct (0 <=? n)%Z eqn:E0; [|lia].
    rewrite take_ge by lia. fold (rstrip_us l).
    assert (Hr : rstrip_us l = l).
    { unfold rstrip_us. rewrite dw_id; [apply rev_involutive|].
      intros a l' Hal. rewrite <- (rev_involutive l) in Hl. rewrite Hal in Hl. simpl in Hl.
      rewrite last_snoc in Hl. unfold is_us. destruct (Ascii.eqb a "_") eqn:E; [|done].
      apply Ascii.eqb_eq in E. by subst. }
    rewrite Hr. by destruct l.
  - by destruct l.
Qed.

(** X1 (slug shape): whatever the text and [max_len], [_slugify]
    returns a non-empty name made of [a-z], [0-9] and ["_"], which neither
    starts nor ends with ["_"] and has no two consecutive ["_"]. *)
Theorem slugify_shape t m : slug_wf (list_ascii_of_string (_slugify t m)).
Proof.
  destruct (slugify_cases t m) as [->|(l & -> & Hwf & _)]; [apply slug_wf_unknown|].
  by rewrite list_ascii_of_string_of_list_ascii.
Qed.

(** X2 (slug length): with a positive [max_len], [_slugify] returns
    at most [max_len] characters, or ["unknown"] when nothing is left; so a
    [_video_slug] is at most 10 characters long. *)
Theorem slugify_max_len t n :
  (0 < n)%Z ->
  (_slugify t (Some n) = "unknown" \/ String.length (_slugify t (Some n)) <= Z.to_nat n) /\
  String.length (_video_slug t) <= 10.
Proof.
  intros Hn.
  assert (H : forall k, (0 < k)%Z ->
            _slugify t (Some k) = "unknown" \/ String.length (_slugify t (Some k)) <= Z.to_nat k).
  { intros k Hk. destruct (slugify_cases t (Some k)) as [H|(l & -> & _ & Hb)]; [by left|right].
    rewrite string_length_list, list_ascii_of_string_of_list_ascii. by apply Hb. }
  split; [by apply H|]. unfold _video_slug.
  destruct (H 10%Z ltac:(lia)) as [->|Hle]; [simpl; lia|exact Hle].
Qed.

Lemma slugify_max_len_witness :
  (0 < 3)%Z /\
  ((_slugify "Hello, World" (Some 3%Z) = "unknown" \/
    String.length (_slugify "Hello, World" (Some 3%Z)) <= Z.to_nat 3) /\
   String.length (_video_slug "Hello, World") <= 10).
Proof. split; [lia|]. apply (slugify_max_len "Hello, World" 3). lia. Defined.


(** X4 (slug idempotence): a slug is its own slug: slugifying the
    result of [_slugify], [_channel_slug] or [_video_slug] again with the
    same function returns it unchanged. *)
Theorem slugify_idempotent t :
  _slugify (_slugify t None) None = _slugify t None /\
  _channel_slug (_channel_slug t) = _channel_slug t /\
  _video_slug (_video_slug t) = _video_slug t.
Proof.
  assert (HN : _slugify (_slugify t None) None = _slugify t None).
  { destruct (slugify_cases t None) as [->|(l & -> & Hwf & _)]; [reflexivity|].
    apply wf_slugify_id; [done|]. intros n [=]. }
  split; [done|]. split; [exact HN|].
  unfold _video_slug.
  destruct (slugify_cases t (Some 10%Z)) as [->|(l & -> & Hwf & Hb)]; [reflexivity|].
  apply wf_slugify_id; [done|]. intros n [= <-]. split; [by apply Hb|lia].
Qed.


Lemma get_set_same n l S : get_store n (set_store n l S) = l.
Proof. by destruct n. Qed.

Lemma get_set_other m n l S : m <> n -> get_store m (set_store n l S) = get_store m S.
Proof. destruct m, n; simpl; congruence. Qed.

Lemma set_get n S : set_store n (get_store n S) S = S.
Proof. destruct n, S; reflexivity. Qed.

Lemma elem_of_store_ids i l : i ∈ store_ids l <-> exists c, c ∈ l /\ e_id c = Some i.
Proof. unfold store_ids. apply list_elem_of_omap. Qed.

Lemma existsb_has_id i l : existsb (has_id (Some i)) l = true <-> i ∈ store_ids l.
Proof.
  rewrite existsb_exists, elem_of_store_ids. unfold has_id.
  split; intros (c & Hc & E); exists c; split.
  - by apply list_elem_of_In.
  - by apply bool_decide_eq_true in E.
  - by apply list_elem_of_In.
  - by apply bool_decide_eq_true.
Qed.

Lemma filter_length_eq {A} (p : A -> bool) l : length (List.filter p l) = length l -> List.filter p l = l.
Proof.
  induction l as [|a l IH]; simpl; [done|].
  destruct (p a); simpl.
  - intros [= H]. by rewrite IH.
  - intros H. pose proof (filter_sublist p l) as Hs. apply sublist_length in Hs. lia.
Qed.

Lemma filter_not_id_ids i l : i ∉ store_ids (List.filter (fun d => negb (has_id (Some i) d)) l).
Proof.
  rewrite elem_of_store_ids. intros (c & Hc & E).
  apply elem_of_filter_true in Hc. unfold has_id in Hc. rewrite bool_decide_true in Hc; done.
Qed.

Lemma add_eq wok n c i S :
  e_id c = Some i ->
  add wok n c S =
  if existsb (has_id (Some i)) (get_store n S) then (Some false, S)
  else if wok n (c :: get_store n S) then (Some true, set_store n (c :: get_store n S) S)
  else (None, S).
Proof.
  intros H. unfold add. rewrite H. unfold mbind', all, mret, _save_and_cache. simpl.
  destruct (existsb _ _); [done|]. by destruct (wok _ _).
Qed.

Lemma remove_eq wok n o S :
  remove wok n o S =
  let f := List.filter (fun c => negb (has_id o c)) (get_store n S) in
  if length f =? length (get_store n S) then (Some false, S)
  else if wok n f then (Some true, set_store n f S) else (None, S).
Proof.
  unfold remove, mbind', all, mret, _save_and_cache. simpl.
  destruct (_ =? _); [done|]. by destruct (wok _ _).
Qed.

Lemma remove_some wok n o S b S1 :
  remove wok n o S = (Some b, S1) ->
  S1 = set_store n (List.filter (fun c => negb (has_id o c)) (get_store n S)) S /\
  (b = true <-> exists c, c ∈ get_store n S /\ e_id c = o).
Proof.
  rewrite remove_eq. simpl.
  set (f := List.filter _ _).
  assert (Hex : (exists c, c ∈ get_store n S /\ e_id c = o) <-> f <> get_store n S).
  { split.
    - intros (c & Hc & Ho) Hf. rewrite <- Hf in Hc. apply elem_of_filter_true in Hc.
      unfold has_id in Hc. rewrite bool_decide_true in Hc; done.
    - intros Hf. destruct (existsb (has_id o) (get_store n S)) eqn:Ee.
      + apply existsb_exists in Ee as (c & Hc & Ho). exists c. split; [by apply list_elem_of_In|].
        unfold has_id in Ho. by apply bool_decide_eq_true in Ho.
      + exfalso. apply Hf. unfold f. clear f Hf. induction (get_store n S) as [|a l IH]; [done|].
        simpl in Ee |- *. apply orb_false_iff in Ee as [Ea El]. rewrite Ea. simpl. by rewrite IH. }
  destruct (length f =? length (get_store n S)) eqn:E.
  - apply Nat.eqb_eq, filter_length_eq in E. fold f in E.
    intros [= <- <-]. split; [by rewrite E, set_get|]. rewrite Hex. split; [discriminate|]. intros H. by exfalso.
  - destruct (wok n f); [|done]. intros [= <- <-]. split; [done|].
    rewrite Hex. split; [|done]. intros _ Hf. rewrite Hf in E. by rewrite Nat.eqb_refl in E.
Qed.

Lemma remove_none wok n o S S1 : remove wok n o S = (None, S1) -> S1 = S.
Proof.
  rewrite remove_eq. simpl. destruct (_ =? _); [done|]. destruct (wok _ _); [done|]. by intros [= <-].
Qed.


Lemma remove_get wok n o S b S1 :
  remove wok n o S = (Some b, S1) ->
  get_store n S1 = List.filter (fun c => negb (has_id o c)) (get_store n S) /\
  (forall m, m <> n -> get_store m S1 = get_store m S).
Proof.
  intros R. apply remove_some in R as [-> _]. split.
  - apply get_set_same.
  - intros m Hm. by apply get_set_other.
Qed.

Lemma remove_not_none wok n o S S1 :
  (forall n l, wok n l = true) -> remove wok n o S <> (None, S1).
Proof. intros Hw. rewrite remove_eq. simpl. destruct (_ =? _); [done|]. by rewrite Hw. Qed.

Lemma rfp_state pok o r S x S1 : remove_from_parquet pok o r S = (x, S1) -> S1 = S.
Proof.
  unfold remove_from_parquet, mret, raise. destruct r as [r|]; [|congruence].
  destruct (String.eqb r ""); [congruence|]. destruct (pok o r); congruence.
Qed.

Lemma assoc_snoc_none {A} (k : string) (v : A) d : assoc k d = None -> assoc k (d ++ [(k, v)]) = Some v.
Proof.
  induction d as [|[k0 v0] d IH]; simpl.
  - by rewrite String.eqb_refl.
  - destruct (String.eqb k k0); [done|]. exact IH.
Qed.

Lemma store_ids_app l1 l2 : store_ids (l1 ++ l2) = store_ids l1 ++ store_ids l2.
Proof. apply omap_app. Qed.

(** The three removals of [_move_exclusive]: every store loses the id. *)
Lemma remove_three wok i S b1 S1 b2 S2 b3 S3 :
  remove wok Saved (Some i) S = (Some b1, S1) ->
  remove wok Blacklist (Some i) S1 = (Some b2, S2) ->
  remove wok Deleted (Some i) S2 = (Some b3, S3) ->
  forall m, get_store m S3 = List.filter (fun d => negb (has_id (Some i) d)) (get_store m S).
Proof.
  intros R1 R2 R3.
  apply remove_some in R1 as [-> _]. apply remove_some in R2 as [-> _].
  apply remove_some in R3 as [-> _]. by intros [].
Qed.

Lemma add_each_spec wok n cs S S' :
  add_each wok n cs S = (Some tt, S') ->
  (exists added, get_store n S' = added ++ get_store n S /\ (forall c, c ∈ added -> c ∈ cs)) /\
  (forall c, c ∈ cs -> exists i, e_id c = Some i /\ i ∈ store_ids (get_store n S')) /\
  (forall m, m <> n -> get_store m S' = get_store m S).
Proof.
  revert S. induction cs as [|c cs IH]; intros S; simpl.
  - unfold mret. intros [= <-]. split; [exists []; split; [done|set_solver]|]. split; [|done].
    intros c Hc. by apply elem_of_nil in Hc.
  - unfold mbind'. destruct (e_id c) as [i|] eqn:Hi; [|unfold add; rewrite Hi; unfold raise; discriminate].
    rewrite (add_eq _ _ _ i) by done.
    destruct (existsb (has_id (Some i)) (get_store n S)) eqn:Ex.
    + intros R. destruct (IH S R) as [(added & Ha & Hsub) [Hids Hoth]].
      split; [exists added; split; [done|set_solver]|]. split; [|done].
      intros c' Hc'. apply elem_of_cons in Hc' as [->|Hc']; [|by apply Hids].
      exists i. split; [done|]. rewrite Ha, store_ids_app. apply elem_of_app. right.
      by apply existsb_has_id.
    + destruct (wok n (c :: get_store n S)); [|discriminate].
      intros R. destruct (IH _ R) as [(added & Ha & Hsub) [Hids Hoth]].
      rewrite get_set_same in Ha. split.
      { exists (added ++ [c]). rewrite Ha, <- app_assoc. split; [done|]. set_solver. }
      split.
      * intros c' Hc'. apply elem_of_cons in Hc' as [->|Hc']; [|by apply Hids].
        exists i. split; [done|]. rewrite Ha, store_ids_app. apply elem_of_app. right.
        apply elem_of_store_ids. exists c. split; [apply list_elem_of_here|done].
      * intros m Hm. rewrite Hoth by done. by apply get_set_other.
Qed.

(** X5 (CommentStore.add): adding a comment whose id is [i] inserts it at
    the front exactly when no stored comment has that id, and answers
    whether it did; the other stores are untouched, a lookup of [i]
    afterwards finds the new comment, and the ids of the store stay
    pairwise distinct. *)
Theorem store_add_get wok n c i S b S' :
  e_id c = Some i -> add wok n c S = (Some b, S') ->
  (b = true <-> i ∉ store_ids (get_store n S)) /\
  get_store n S' = (if b then c :: get_store n S else get_store n S) /\
  (forall m, m <> n -> get_store m S' = get_store m S) /\
  (b = true -> fst (get n (Some i) S') = Some (Some c)) /\
  (NoDup (store_ids (get_store n S)) -> NoDup (store_ids (get_store n S'))).
Proof.
  intros Hi. rewrite (add_eq _ _ _ i) by done.
  destruct (existsb (has_id (Some i)) (get_store n S)) eqn:Ex.
  - intros [= <- <-]. apply existsb_has_id in Ex. split; [split; [done|tauto]|]. done.
  - destruct (wok n (c :: get_store n S)); [|discriminate]. intros [= <- <-].
    assert (Hn : i ∉ store_ids (get_store n S)).
    { intros H. apply existsb_has_id in H. congruence. }
    rewrite get_set_same. split; [done|]. split; [done|]. split.
    { intros m Hm. by apply get_set_other. }
    split.
    + intros _. unfold get, mbind', all, mret. simpl. rewrite get_set_same. simpl.
      unfold has_id at 1. by rewrite bool_decide_true.
    + intros Hnd. unfold store_ids. simpl. rewrite Hi. by constructor.
Qed.

(** X6 (CommentStore.remove): removing an id drops every stored comment
    with that id and keeps the others in order; it answers true exactly
    when one was stored; the other stores are untouched, and a lookup of
    the id afterwards finds nothing. *)
Theorem store_remove_get wok n o S b S' :
  remove wok n o S = (Some b, S') ->
  get_store n S' = List.filter (fun c => negb (has_id o c)) (get_store n S) /\
  (b = true <-> exists c, c ∈ get_store n S /\ e_id c = o) /\
  (forall m, m <> n -> get_store m S' = get_store m S) /\
  fst (get n o S') = Some None.
Proof.
  intros R. pose proof (remove_some _ _ _ _ _ _ R) as [_ Hb].
  apply remove_get in R as [Hn Hm]. split; [done|]. split; [done|]. split; [done|].
  unfold get, mbind', all, mret. simpl. rewrite Hn. f_equal.
  clear Hn Hm Hb. induction (get_store n S) as [|a l IH]; [done|]. simpl.
  destruct (has_id o a) eqn:E; simpl; [exact IH|]. by rewrite E.
Qed.

Lemma add_many_eq wok n cs S :
  add_many wok n cs S =
  match cs with
  | [] => (Some 0, S)
  | _ =>
      let fresh := List.filter (fun c => negb (existsb (fun d => has_id (e_id d) c) (get_store n S))) cs in
      match fresh with
      | [] => (Some 0, S)
      | _ => if wok n (fresh ++ get_store n S)
             then (Some (length fresh), set_store n (fresh ++ get_store n S) S) else (None, S)
      end
  end.
Proof.
  destruct cs as [|c cs]; [done|]. unfold add_many, mbind', all, mret, _save_and_cache. cbn zeta beta iota.
  destruct (List.filter _ (c :: cs)); [done|]. by destruct (wok _ _).
Qed.

Lemma fresh_disjoint cs l x :
  x ∈ store_ids (List.filter (fun c => negb (existsb (fun d => has_id (e_id d) c) l)) cs) ->
  x ∉ store_ids l.
Proof.
  rewrite !elem_of_store_ids. intros (c & Hc & Hx) (d & Hd & Hdx).
  apply elem_of_filter_true in Hc. apply negb_true_iff in Hc.
  assert (existsb (fun d => has_id (e_id d) c) l = true) as Ht; [|congruence].
  apply existsb_exists. exists d. split; [by apply list_elem_of_In|].
  unfold has_id. apply bool_decide_eq_true. congruence.
Qed.

Lemma add_many_state wok n cs S k S' :
  add_many wok n cs S = (Some k, S') ->
  let fresh := List.filter (fun c => negb (existsb (fun d => has_id (e_id d) c) (get_store n S))) cs in
  get_store n S' = fresh ++ get_store n S /\ k = length fresh /\
  (forall m, m <> n -> get_store m S' = get_store m S).
Proof.
  intros R fresh. rewrite add_many_eq in R. destruct cs as [|c cs].
  - injection R as <- <-. done.
  - fold fresh in R. destruct fresh as [|f fs] eqn:Ef.
    + injection R as <- <-. done.
    + cbn zeta in R. destruct (wok n ((f :: fs) ++ get_store n S)); [|discriminate]. injection R as <- <-.
      rewrite get_set_same. split; [done|]. split; [done|]. intros m Hm. by apply get_set_other.
Qed.

Lemma add_many_ids wok n cs S k S' :
  add_many wok n cs S = (Some k, S') ->
  forall c i, c ∈ cs -> e_id c = Some i -> i ∈ store_ids (get_store n S').
Proof.
  intros R c i Hc Hi. apply add_many_state in R as (Hn & _ & _). rewrite Hn, store_ids_app, elem_of_app.
  destruct (existsb (fun d => has_id (e_id d) c) (get_store n S)) eqn:Ex.
  - right. apply existsb_exists in Ex as (d & Hd & Hdc). apply elem_of_store_ids. exists d.
    split; [by apply list_elem_of_In|]. unfold has_id in Hdc. apply bool_decide_eq_true in Hdc. congruence.
  - left. apply elem_of_store_ids. exists c. split; [|done].
    apply list_elem_of_In, List.filter_In. split; [by apply list_elem_of_In|]. by rewrite Ex.
Qed.

(** X7 (CommentStore.add_many): a batch adds, at the front and in batch
    order, exactly its comments whose id no stored comment has, and counts
    them; the other stores are untouched; and when the stored ids were
    distinct they stay distinct exactly when the added comments have
    distinct ids (the batch is not deduplicated against itself). *)
Theorem store_add_many wok n cs S k S' :
  add_many wok n cs S = (Some k, S') ->
  let fresh := List.filter (fun c => negb (existsb (fun d => has_id (e_id d) c) (get_store n S))) cs in
  get_store n S' = fresh ++ get_store n S /\ k = length fresh /\
  (forall m, m <> n -> get_store m S' = get_store m S) /\
  (NoDup (store_ids (get_store n S)) ->
     (NoDup (store_ids (get_store n S')) <-> NoDup (store_ids fresh))).
Proof.
  intros R fresh. pose proof (add_many_state _ _ _ _ _ _ R) as Hgen. cbn zeta in Hgen. fold fresh in Hgen.
  destruct Hgen as (Hn & Hk & Hm). split; [done|]. split; [done|]. split; [done|].
  intros Hnd. rewrite Hn, store_ids_app, NoDup_app. split.
  - intros (H & _). exact H.
  - intros H. split; [done|]. split; [|done]. intros x Hx. by apply fresh_disjoint in Hx.
Qed.

Lemma move_exclusive_state wok pok c i dest S S' :
  e_id c = Some i -> _move_exclusive wok pok c dest S = (Some tt, S') ->
  get_store dest S' = c :: List.filter (fun d => negb (has_id (Some i) d)) (get_store dest S) /\
  (forall m, m <> dest -> get_store m S' = List.filter (fun d => negb (has_id (Some i) d)) (get_store m S)).
Proof.
  intros Hi. unfold _move_exclusive, mbind', mret. rewrite Hi.
  destruct (remove wok Saved (Some i) S) as [[b1|] S1] eqn:R1; [|discriminate].
  destruct (remove wok Blacklist (Some i) S1) as [[b2|] S2] eqn:R2; [|discriminate].
  destruct (remove wok Deleted (Some i) S2) as [[b3|] S3] eqn:R3; [|discriminate].
  pose proof (remove_three _ _ _ _ _ _ _ _ _ R1 R2 R3) as H3.
  destruct (remove_from_parquet pok (Some i) (e_report c) S3) as [[[]|] S4] eqn:R4; [|discriminate].
  apply rfp_state in R4. subst S4.
  rewrite (add_eq _ _ _ i) by done.
  assert (Hx : existsb (has_id (Some i)) (get_store dest S3) = false).
  { apply not_true_iff_false. rewrite existsb_has_id, H3. apply filter_not_id_ids. }
  rewrite Hx. destruct (wok dest _); [|discriminate]. intros [= <-].
  split; [by rewrite get_set_same, H3|].
  intros m Hm. by rewrite get_set_other, H3.
Qed.

(** X8 (_move_exclusive): when moving a comment with id [i] to a store
    returns normally, that store holds the comment at its front, every
    store has lost all its other comments with id [i] and is otherwise
    unchanged, so [i] is then held by exactly one store. *)
Theorem move_exclusive_owner wok pok c i dest S S' :
  e_id c = Some i -> _move_exclusive wok pok c dest S = (Some tt, S') ->
  get_store dest S' = c :: List.filter (fun d => negb (has_id (Some i) d)) (get_store dest S) /\
  (forall m, m <> dest -> get_store m S' = List.filter (fun d => negb (has_id (Some i) d)) (get_store m S)) /\
  (forall m, i ∈ store_ids (get_store m S') <-> m = dest).
Proof.
  intros Hi R. destruct (move_exclusive_state _ _ _ _ _ _ _ Hi R) as [Hd Ho].
  split; [done|]. split; [done|]. intros m. split.
  - intros Hm. destruct (decide (m = dest)) as [|Hne]; [done|].
    rewrite Ho in Hm by done. by apply filter_not_id_ids in Hm.
  - intros ->. rewrite Hd. apply elem_of_store_ids. exists c. split; [apply list_elem_of_here|done].
Qed.

(** X9 (_move_exclusive): when the report's Parquet file cannot be
    rewritten, the move raises after the comment has been removed from all
    three stores and before it is added to the destination, so the comment
    is then in no store. *)
Theorem move_exclusive_parquet_raise wok pok c i r dest S :
  e_id c = Some i -> e_report c = Some r -> r <> "" -> pok (Some i) r = false ->
  (forall n l, wok n l = true) ->
  fst (_move_exclusive wok pok c dest S) = None /\
  forall m, get_store m (snd (_move_exclusive wok pok c dest S)) =
            List.filter (fun d => negb (has_id (Some i) d)) (get_store m S).
Proof.
  intros Hi Hr Hne Hp Hw. unfold _move_exclusive, mbind', mret. rewrite Hi.
  destruct (remove wok Saved (Some i) S) as [[b1|] S1] eqn:R1;
    [|by apply remove_not_none in R1].
  destruct (remove wok Blacklist (Some i) S1) as [[b2|] S2] eqn:R2;
    [|by apply remove_not_none in R2].
  destruct (remove wok Deleted (Some i) S2) as [[b3|] S3] eqn:R3;
    [|by apply remove_not_none in R3].
  pose proof (remove_three _ _ _ _ _ _ _ _ _ R1 R2 R3) as H3.
  unfold remove_from_parquet. rewrite Hr.
  assert (String.eqb r "" = false) as -> by by apply String.eqb_neq.
  rewrite Hp. unfold raise. split; [done|]. exact H3.
Qed.

Lemma setdefault_reason_id c : e_id (setdefault_reason c) = e_id c /\ e_text (setdefault_reason c) = e_text c.
Proof. unfold setdefault_reason. by destruct (assoc _ _). Qed.

Lemma setdefault_reason_reason c :
  assoc "reason" (e_rest (setdefault_reason c)) = Some (default (PStr "User") (assoc "reason" (e_rest c))).
Proof.
  unfold setdefault_reason. destruct (assoc "reason" (e_rest c)) eqn:E; [by rewrite E|].
  simpl. by apply assoc_snoc_none.
Qed.

(** X10 (api_comment_blacklist): a request whose comment has no id, or
    an empty one, is answered 400 and changes no store; otherwise the
    comment, with its ["reason"] kept or set to ["User"], is put at the
    front of the blacklist and every comment with its id leaves the
    saved, blacklist and deleted stores. *)
Theorem api_comment_blacklist_spec wok pok c S r S' :
  api_comment_blacklist wok pok c S = (Some r, S') ->
  (valid_comment c = false -> r = BadRequest /\ S' = S) /\
  (valid_comment c = true -> r = Ok None /\
     exists c', blacklist_store S' = c' :: List.filter (fun d => negb (has_id (e_id c) d)) (blacklist_store S) /\
       e_id c' = e_id c /\ e_text c' = e_text c /\
       assoc "reason" (e_rest c') = Some (default (PStr "User") (assoc "reason" (e_rest c))) /\
       saved_store S' = List.filter (fun d => negb (has_id (e_id c) d)) (saved_store S) /\
       deleted_store S' = List.filter (fun d => negb (has_id (e_id c) d)) (deleted_store S)).
Proof.
  unfold api_comment_blacklist, mbind', mret. destruct (valid_comment c) eqn:V.
  - destruct (_move_exclusive wok pok (setdefault_reason c) Blacklist S) as [[[]|] S1] eqn:R;
      [|discriminate].
    intros [= <- <-]. split; [discriminate|]. intros _. split; [done|].
    unfold valid_comment in V. destruct (e_id c) as [i|] eqn:Hi; [|discriminate].
    destruct (setdefault_reason_id c) as [Hid Htx].
    rewrite Hi in Hid.
    apply move_exclusive_state with (i := i) in R as (Hb & Ho); [|done].
    exists (setdefault_reason c). split; [exact Hb|].
    split; [done|]. split; [done|]. split; [apply setdefault_reason_reason|].
    split; [exact (Ho Saved ltac:(discriminate))|exact (Ho Deleted ltac:(discriminate))].
  - intros [= <- <-]. split; [done|]. discriminate.
Qed.

(** X11 (api_blacklist_clear, api_saved_delete_all): when moving all of
    a store to the Deleted bin returns normally, the answer counts the
    comments the store held, the store is empty, the bin has gained (at
    its front) only comments of the store, every comment of the store has
    its id in the bin, and the third store is untouched. *)
Theorem move_all_to_deleted_spec wok src S r S' :
  src <> Deleted -> move_all_to_deleted wok src S = (Some r, S') ->
  r = Ok (Some (length (get_store src S))) /\
  get_store src S' = [] /\
  (exists added, get_store Deleted S' = added ++ get_store Deleted S /\
                 (forall c, c ∈ added -> c ∈ get_store src S)) /\
  (forall c, c ∈ get_store src S -> exists i, e_id c = Some i /\ i ∈ store_ids (get_store Deleted S')) /\
  (forall m, m <> src -> m <> Deleted -> get_store m S' = get_store m S).
Proof.
  intros Hsrc. unfold move_all_to_deleted, mbind', all, mret, clear, _save_and_cache.
  destruct (add_each wok Deleted (get_store src S) S) as [[[]|] S1] eqn:R; [|discriminate].
  destruct (wok src []); [|discriminate]. intros [= <- <-].
  apply add_each_spec in R as ((added & Ha & Hsub) & Hids & Hoth).
  assert (Hsd : get_store src S = get_store src S1) by (symmetry; by apply Hoth).
  split; [done|]. split; [apply get_set_same|].
  rewrite !(get_set_other Deleted src) by congruence.
  split; [exists added; split; [done|]; intros c Hc; by apply Hsub|].
  split; [done|].
  intros m Hm1 Hm2. rewrite get_set_other by done. by apply Hoth.
Qed.


Lemma store_add_get_witness :
  add (fun _ _ => true) Saved (mkEntry (Some "a") None None []) (mkStores [] [] []) =
    (Some true, mkStores [mkEntry (Some "a") None None []] [] []) /\
  fst (get Saved (Some "a") (mkStores [mkEntry (Some "a") None None []] [] [])) =
    Some (Some (mkEntry (Some "a") None None [])).
Proof.
  split; [reflexivity|].
  exact (proj1 (proj2 (proj2 (proj2 (store_add_get (fun _ _ => true) Saved
    (mkEntry (Some "a") None None []) "a" (mkStores [] [] []) true
    (mkStores [mkEntry (Some "a") None None []] [] []) eq_refl eq_refl)))) eq_refl).
Defined.

Lemma store_remove_get_witness :
  remove (fun _ _ => true) Saved (Some "a")
    (mkStores [mkEntry (Some "a") None None []; mkEntry (Some "b") None None []] [] []) =
    (Some true, mkStores [mkEntry (Some "b") None None []] [] []) /\
  fst (get Saved (Some "a") (mkStores [mkEntry (Some "b") None None []] [] [])) = Some None.
Proof.
  split; [reflexivity|].
  exact (proj2 (proj2 (proj2 (store_remove_get (fun _ _ => true) Saved (Some "a")
    (mkStores [mkEntry (Some "a") None None []; mkEntry (Some "b") None None []] [] []) true
    (mkStores [mkEntry (Some "b") None None []] [] []) eq_refl)))).
Defined.

Lemma store_add_many_witness :
  add_many (fun _ _ => true) Deleted
    [mkEntry (Some "a") None None []; mkEntry (Some "b") None None []]
    (mkStores [] [] [mkEntry (Some "a") None None []]) =
    (Some 1, mkStores [] [] [mkEntry (Some "b") None None []; mkEntry (Some "a") None None []]) /\
  NoDup (store_ids [mkEntry (Some "b") None None []; mkEntry (Some "a") None None []]).
Proof.
  split; [reflexivity|].
  pose proof (store_add_many (fun _ _ => true) Deleted
    [mkEntry (Some "a") None None []; mkEntry (Some "b") None None []]
    (mkStores [] [] [mkEntry (Some "a") None None []]) 1
    (mkStores [] [] [mkEntry (Some "b") None None []; mkEntry (Some "a") None None []]) eq_refl) as H.
  cbn zeta in H. apply (proj2 (proj2 (proj2 (proj2 H)) ltac:(vm_compute; apply NoDup_singleton)));
    vm_compute; apply NoDup_singleton.
Defined.

Lemma move_exclusive_owner_witness :
  _move_exclusive (fun _ _ => true) (fun _ _ => true) (mkEntry (Some "a") None None []) Blacklist
    (mkStores [mkEntry (Some "a") None None []] [] []) =
    (Some tt, mkStores [] [mkEntry (Some "a") None None []] []) /\
  ("a" ∈ store_ids (get_store Saved (mkStores [] [mkEntry (Some "a") None None []] [])) <-> Saved = Blacklist).
Proof.
  split; [reflexivity|].
  exact (proj2 (proj2 (move_exclusive_owner (fun _ _ => true) (fun _ _ => true)
    (mkEntry (Some "a") None None []) "a" Blacklist
    (mkStores [mkEntry (Some "a") None None []] [] [])
    (mkStores [] [mkEntry (Some "a") None None []] []) eq_refl eq_refl)) Saved).
Defined.

Lemma move_exclusive_parquet_raise_witness :
  fst (_move_exclusive (fun _ _ => true) (fun _ _ => false)
         (mkEntry (Some "a") None (Some "ch/vid") []) Saved
         (mkStores [] [mkEntry (Some "a") None None []] [])) = None.
Proof.
  exact (proj1 (move_exclusive_parquet_raise (fun _ _ => true) (fun _ _ => false)
    (mkEntry (Some "a") None (Some "ch/vid") []) "a" "ch/vid" Saved
    (mkStores [] [mkEntry (Some "a") None None []] [])
    eq_refl eq_refl ltac:(discriminate) eq_refl (fun _ _ => eq_refl))).
Defined.

Lemma api_comment_blacklist_spec_witness :
  api_comment_blacklist (fun _ _ => true) (fun _ _ => true) (mkEntry (Some "a") None None [])
    (mkStores [mkEntry (Some "a") None None []] [] []) =
    (Some (Ok None), mkStores [] [mkEntry (Some "a") None None [("reason", PStr "User")]] []) /\
  Ok None = Ok None.
Proof.
  split; [reflexivity|].
  exact (proj1 (proj2 (api_comment_blacklist_spec (fun _ _ => true) (fun _ _ => true)
    (mkEntry (Some "a") None None [])
    (mkStores [mkEntry (Some "a") None None []] [] []) (Ok None)
    (mkStores [] [mkEntry (Some "a") None None [("reason", PStr "User")]] []) eq_refl) eq_refl)).
Defined.

Lemma move_all_to_deleted_spec_witness :
  move_all_to_deleted (fun _ _ => true) Blacklist (mkStores [] [mkEntry (Some "a") None None []] []) =
    (Some (Ok (Some 1)), mkStores [] [] [mkEntry (Some "a") None None []]) /\
  get_store Blacklist (mkStores [] [] [mkEntry (Some "a") None None []]) = [].
Proof.
  split; [reflexivity|].
  exact (proj1 (proj2 (move_all_to_deleted_spec (fun _ _ => true) Blacklist
    (mkStores [] [mkEntry (Some "a") None None []] []) (Ok (Some 1))
    (mkStores [] [] [mkEntry (Some "a") None None []]) ltac:(discriminate) eq_refl))).
Defined.


Lemma run_stages_row_keep ss st st' s keep :
  run_stages ss st = Some st' -> s ∈ ss -> gate s = true -> kind s = KRow keep ->
  Forall (fun c => keep (ctext c) = true) st'.1.
Proof.
  revert st. induction ss as [|s0 ss IH]; intros st; simpl; [by intros _ Hs; apply elem_of_nil in Hs|].
  destruct (run_stage s0 st) as [st1|] eqn:E; [|done].
  intros Hrun Hs Hg Hk. apply elem_of_cons in Hs as [->|Hs]; [|by apply (IH st1)].
  apply run_stages_sublist in Hrun.
  unfold run_stage in E. rewrite Hg, Hk in E. injection E as <-.
  destruct st as [df rs]. simpl in Hrun.
  apply Forall_forall. intros c Hc. eapply elem_of_sublist in Hc; [|exact Hrun].
  by apply elem_of_filter_true in Hc.
Qed.

Lemma classify_inv wok pok kw cp rp df S r rs S' :
  classify_and_blacklist wok pok kw cp rp df S = (Some (r, rs), S') ->
  filter_low_value (config_of_kwargs kw) cp
    (if kw_bool kw "blacklist_match" true then blacklist_texts_of (blacklist_store S) else []) df
    = Some (r, rs) /\
  exists k, add_many wok Blacklist (auto_blacklist_batch (df_low_of df r) rs rp) S = (Some k, S').
Proof.
  unfold classify_and_blacklist, mbind', all. cbn zeta beta iota.
  destruct (filter_low_value _ _ _ df) as [[r0 rs0]|] eqn:F; [|unfold raise; discriminate].
  destruct (pok r0); [|unfold raise; discriminate].
  destruct (df_low_of df r0) as [|c l] eqn:E.
  - unfold mret. intros [= <- <- <-]. split; [done|]. exists 0. rewrite E. reflexivity.
  - rewrite <- E.
    destruct (add_many wok Blacklist (auto_blacklist_batch (df_low_of df r0) rs0 rp) S) as [[k|] S1] eqn:A;
      [|discriminate].
    unfold mret. intros [= <- <- <-]. split; [done|]. by exists k.
Qed.

Lemma elem_of_blacklist_texts b tb bl :
  b ∈ bl -> e_text b = Some tb -> tb <> "" -> strip (lower tb) ∈ blacklist_texts_of bl.
Proof.
  intros Hb Ht Hne. unfold blacklist_texts_of. apply list_elem_of_omap. exists b. split; [done|].
  rewrite Ht. by destruct (String.eqb_neq tb "") as [_ ->].
Qed.

Lemma elem_of_batch e low rs rp :
  e ∈ auto_blacklist_batch low rs rp <->
  exists c, c ∈ low /\ cid c <> "" /\ e = batch_entry rs rp c.
Proof.
  unfold auto_blacklist_batch. rewrite list_elem_of_fmap. split.
  - intros (c & -> & Hc). apply list_elem_of_In, List.filter_In in Hc as [Hc Hne].
    exists c. split; [by apply list_elem_of_In|]. split; [|done].
    apply negb_true_iff, String.eqb_neq in Hne. done.
  - intros (c & Hc & Hne & ->). exists c. split; [done|].
    apply list_elem_of_In, List.filter_In. split; [by apply list_elem_of_In|].
    apply negb_true_iff, String.eqb_neq. done.
Qed.

Lemma elem_of_df_low c df r : c ∈ df_low_of df r <-> c ∈ df /\ cid c ∉ ids r.
Proof.
  unfold df_low_of. rewrite list_elem_of_In, List.filter_In, <- list_elem_of_In, negb_true_iff.
  by rewrite bool_decide_eq_false.
Qed.

(** X12 (_run_analysis_inner, blacklist memory): when [blacklist_match]
    is on (it is by default) and the classify step returns, no retained
    comment's lowercased, stripped text equals that of a comment of the
    blacklist store with a non-empty text. *)
Theorem classify_blacklist_memory wok pok kw cp rp df S r rs S' :
  classify_and_blacklist wok pok kw cp rp df S = (Some (r, rs), S') ->
  kw_bool kw "blacklist_match" true = true ->
  forall c b tb, c ∈ r -> b ∈ blacklist_store S -> e_text b = Some tb -> tb <> "" ->
  strip (lower (ctext c)) <> strip (lower tb).
Proof.
  intros R Hbm c b tb Hc Hb Ht Hne Heq.
  apply classify_inv in R as [F _]. rewrite Hbm in F.
  pose proof (elem_of_blacklist_texts _ _ _ Hb Ht Hne) as Hin.
  set (blt := blacklist_texts_of (blacklist_store S)) in *.
  unfold filter_low_value, stages in F.
  epose proof (run_stages_row_keep _ _ _
    (mkStage (blacklist_match (config_of_kwargs kw) && nonempty blt) "Blacklisted"
      (KRow (fun t => negb (existsb (String.eqb (strip (lower t))) blt)))) _ F _ _ eq_refl) as Hall.
  Unshelve.
  - rewrite Forall_forall in Hall. specialize (Hall c Hc). simpl in Hall.
    apply negb_true_iff, not_true_iff_false in Hall. apply Hall.
    apply existsb_exists. exists (strip (lower tb)). split; [by apply list_elem_of_In|].
    rewrite Heq. apply String.eqb_refl.
  - apply list_elem_of_In. simpl. right; right; right; left; reflexivity.
  - simpl. rewrite Hbm. destruct blt; [by apply elem_of_nil in Hin|done].
Qed.

(** X13 (_run_analysis_inner, auto-blacklist): on input comments with
    distinct ids, when the classify step returns, every comment that
    [filter_low_value] dropped and that has a non-empty id has its id in
    the blacklist store; the comments it added to the blacklist (at its
    front) are dropped input comments, each carrying the report path and
    the rule label [filter_low_value] recorded for it, so the
    ["Low Value"] fallback is never used; the other stores are untouched. *)
Theorem classify_auto_blacklist wok pok kw cp rp df S r rs S' :
  NoDup (ids df) ->
  classify_and_blacklist wok pok kw cp rp df S = (Some (r, rs), S') ->
  (forall c, c ∈ df -> cid c <> "" -> cid c ∉ ids r -> cid c ∈ store_ids (blacklist_store S')) /\
  (exists added, blacklist_store S' = added ++ blacklist_store S /\
     forall e, e ∈ added -> exists c l, c ∈ df /\ (cid c ∉ ids r) /\ (rs !! cid c = Some l) /\
        e_id e = Some (cid c) /\ e_report e = Some rp /\ assoc "reason" (e_rest e) = Some (PStr l)) /\
  saved_store S' = saved_store S /\ deleted_store S' = deleted_store S.
Proof.
  intros Hnd R. apply classify_inv in R as [F [k A]].
  destruct (pipeline_start_inv df Hnd) as [Hnd' Hinv0].
  pose proof (run_stages_inv _ _ _ _ (stages_wf _ _ _) Hnd' Hinv0 F) as [_ Hrs].
  simpl in Hrs. rewrite ids_entry in Hrs.
  split.
  - intros c Hc Hne Hr. apply (add_many_ids _ _ _ _ _ _ A (batch_entry rs rp c)); [|done].
    apply elem_of_batch. exists c. split; [|done]. by apply elem_of_df_low.
  - apply add_many_state in A as (Hn & _ & Ho). split.
    + eexists. split; [exact Hn|]. intros e He.
      apply list_elem_of_In, List.filter_In in He as [He _]. apply list_elem_of_In in He.
      apply elem_of_batch in He as (c & Hc & Hne & ->).
      apply elem_of_df_low in Hc as [Hc Hr].
      destruct (proj2 (Hrs (cid c))) as [l Hl].
      { split; [|done]. apply elem_of_ids. by exists c. }
      exists c, l. split; [done|]. split; [done|]. split; [done|]. split; [done|]. split; [done|].
      simpl. by rewrite Hl.
    + split; [exact (Ho Saved ltac:(discriminate))|exact (Ho Deleted ltac:(discriminate))].
Qed.


Lemma classify_blacklist_memory_witness :
  exists r rs S',
    classify_and_blacklist (fun _ _ => true) (fun _ => true) [] no_models "ch/vid" ex_worker_df
      ex_worker_stores = (Some (r, rs), S') /\
    strip (lower (ctext (mk "2" "Great explanation of the topic, very helpful"))) <>
    strip (lower "Buy cheap followers at my channel now").
Proof.
  eexists _, _, _. split; [vm_compute; reflexivity|].
  apply (classify_blacklist_memory (fun _ _ => true) (fun _ => true) [] no_models "ch/vid" ex_worker_df
    ex_worker_stores _ _ _ ltac:(vm_compute; reflexivity) eq_refl
    (mk "2" "Great explanation of the topic, very helpful")
    (mkEntry (Some "b") (Some "Buy cheap followers at my channel now") None [])
    "Buy cheap followers at my channel now").
  - apply list_elem_of_here.
  - apply list_elem_of_here.
  - reflexivity.
  - discriminate.
Defined.

Lemma classify_auto_blacklist_witness :
  exists r rs S',
    NoDup (ids ex_worker_df) /\
    classify_and_blacklist (fun _ _ => true) (fun _ => true) [] no_models "ch/vid" ex_worker_df
      ex_worker_stores = (Some (r, rs), S') /\
    "1" ∈ store_ids (blacklist_store S').
Proof.
  assert (Hnd : NoDup (ids ex_worker_df)) by (apply (bool_decide_unpack _); vm_compute; reflexivity).
  eexists _, _, _. split; [exact Hnd|]. split; [vm_compute; reflexivity|].
  apply (proj1 (classify_auto_blacklist (fun _ _ => true) (fun _ => true) [] no_models "ch/vid"
    ex_worker_df ex_worker_stores _ _ _ Hnd ltac:(vm_compute; reflexivity))
    (mk "1" "  buy cheap followers at my channel NOW ")).
  - apply list_elem_of_here.
  - discriminate.
  - vm_compute. intros H. apply list_elem_of_singleton in H. discriminate.
Defined.


Lemma decimal_digits n : Forall (fun a => is_digit a = true) (decimal n).
Proof.
  unfold decimal. generalize (Nat.to_uint n). intros u.
  induction u; simpl; constructor; auto.
Qed.

Lemma decimal_nonempty n : decimal n <> [].
Proof.
  unfold decimal. intros H.
  destruct (Nat.to_uint n) eqn:E; try discriminate.
  pose proof (DecimalNat.Unsigned.of_to n) as Hn. rewrite E in Hn. simpl in Hn. subst n. discriminate.
Qed.

Lemma int_of_decimal_acc (u : Decimal.uint) (a : nat) :
  fold_left (fun acc d => acc * 10 + Z.of_nat (code d - 48))%Z
    (list_ascii_of_string (DecimalString.NilEmpty.string_of_uint u)) (Z.of_nat a) = Z.of_nat (Nat.of_uint_acc u a).
Proof.
  revert a. induction u; intros a; simpl; [done| ..];
    rewrite Nat.tail_mul_spec, <- IHu; f_equal; cbn; lia.
Qed.

Lemma int_of_decimal n : int_of_group (Some (decimal n)) = Z.of_nat n.
Proof.
  unfold int_of_group, decimal. rewrite <- (DecimalNat.Unsigned.of_to n) at 2.
  apply (int_of_decimal_acc _ 0).
Qed.

Lemma take_digits_app ds r :
  Forall (fun a => is_digit a = true) ds ->
  (forall a r', r = a :: r' -> is_digit a = false) ->
  take_digits (ds ++ r) = (ds, r).
Proof.
  intros Hds Hr. induction Hds as [|a ds Ha Hds IH]; simpl.
  - destruct r as [|a r']; simpl; [done|]. by rewrite (Hr a r' eq_refl).
  - rewrite Ha, IH. done.
Qed.

Lemma unit_not_digit (u : ascii) : u ∈ ["H"; "M"; "S"]%char -> is_digit u = false.
Proof. intros Hu. repeat (apply elem_of_cons in Hu as [->|Hu]; [reflexivity|]). by apply elem_of_nil in Hu. Qed.

Lemma opt_group_hit u k r :
  is_digit u = false -> opt_group u (decimal k ++ u :: r) = (Some (decimal k), r).
Proof.
  intros Hu. unfold opt_group. rewrite take_digits_app.
  - destruct (decimal k) eqn:E; [by apply decimal_nonempty in E|]. by rewrite Ascii.eqb_refl.
  - apply decimal_digits.
  - by intros a r' [= -> ->].
Qed.

Lemma opt_group_miss u u' k r :
  is_digit u' = false -> u' <> u -> opt_group u (decimal k ++ u' :: r) = (None, decimal k ++ u' :: r).
Proof.
  intros Hu' Hne. unfold opt_group. rewrite take_digits_app.
  - destruct (decimal k); [done|]. destruct (Ascii.eqb_spec u' u); [done|]. done.
  - apply decimal_digits.
  - by intros a r' [= -> ->].
Qed.

Lemma opt_group_nodigit u r :
  (forall a r', r = a :: r' -> is_digit a = false) -> opt_group u r = (None, r).
Proof.
  intros Hr. unfold opt_group. destruct r as [|a r']; [done|].
  simpl. by rewrite (Hr a r' eq_refl).
Qed.

(** X14 (_parse_iso8601_duration, round trip): a duration written as
    ["PT"], then optionally [<h>H], [<m>M] and [<s>S] with the numbers in
    decimal, then any text that does not start with a digit, is read back
    as [3600 h + 60 m + s] (an absent component counts 0, and the trailing
    text is ignored since the pattern is not anchored at the end). *)
Theorem parse_duration_roundtrip (h m s : option nat) (r : list ascii) :
  (forall a r', r = a :: r' -> is_digit a = false) ->
  _parse_iso8601_duration
    (Some (string_of_list_ascii
       ("P" :: "T" :: duration_part h "H" ++ duration_part m "M" ++ duration_part s "S" ++ r)%char))
  = Z.of_nat (3600 * default 0 h + 60 * default 0 m + default 0 s).
Proof.
  intros Hr. unfold _parse_iso8601_duration. cbv beta iota delta [default id].
  rewrite list_ascii_of_string_of_list_ascii. cbn [Ascii.eqb andb Bool.eqb].
  (* the seconds group *)
  assert (Hs : opt_group "S" (duration_part s "S" ++ r) =
               (match s with Some k => Some (decimal k) | None => None end,
                match s with Some _ => r | None => r end)).
  { destruct s as [k|]; simpl; [rewrite <- app_assoc; by apply opt_group_hit|by apply opt_group_nodigit]. }
  (* the minutes group *)
  assert (Hm : opt_group "M" (duration_part m "M" ++ duration_part s "S" ++ r) =
               (match m with Some k => Some (decimal k) | None => None end,
                duration_part s "S" ++ r)).
  { destruct m as [k|]; simpl.
    - rewrite <- app_assoc. by apply opt_group_hit.
    - destruct s as [k|]; simpl.
      + rewrite <- app_assoc. by apply opt_group_miss.
      + by apply opt_group_nodigit. }
  assert (Hh : opt_group "H" (duration_part h "H" ++ duration_part m "M" ++ duration_part s "S" ++ r) =
               (match h with Some k => Some (decimal k) | None => None end,
                duration_part m "M" ++ duration_part s "S" ++ r)).
  { destruct h as [k|]; simpl.
    - rewrite <- app_assoc. by apply opt_group_hit.
    - destruct m as [k|]; simpl; [rewrite <- app_assoc; by apply opt_group_miss|].
      destruct s as [k|]; simpl; [rewrite <- app_assoc; by apply opt_group_miss|].
      by apply opt_group_nodigit. }
  rewrite Hh, Hm, Hs.
  destruct h as [h|], m as [m|], s as [s|];
    rewrite ?int_of_decimal; cbn [int_of_group default]; rewrite ?int_of_decimal; lia.
Qed.


Lemma parse_duration_roundtrip_witness :
  _parse_iso8601_duration (Some "PT1H2M3S") = 3723%Z /\ _parse_iso8601_duration (Some "PT15M33S.") = 933%Z.
Proof.
  split.
  - exact (parse_duration_roundtrip (Some 1) (Some 2) (Some 3) [] (fun a r' H => ltac:(discriminate H))).
  - refine (parse_duration_roundtrip None (Some 15) (Some 33) ["."%char] _).
    intros a r' [= <- _]. reflexivity.
Defined.


Lemma replace_char_list c new s :
  list_ascii_of_string (replace_char c new s) =
  flat_map (fun a => if Ascii.eqb a c then list_ascii_of_string new else [a]) (list_ascii_of_string s).
Proof. unfold replace_char. apply list_ascii_of_string_of_list_ascii. Qed.

Lemma flat_map_flat_map' {A B C} (f : A -> list B) (g : B -> list C) (l : list A) :
  flat_map g (flat_map f l) = flat_map (fun a => flat_map g (f a)) l.
Proof. induction l as [|a l IH]; simpl; [done|]. by rewrite flat_map_app, IH. Qed.

Lemma esc_char_cases a :
  a = "&"%char \/ a = "<"%char \/ a = ">"%char \/ a = dquote \/
  (esc_char a = [a] /\ a <> "&"%char /\ a <> "<"%char /\ a <> ">"%char /\ a <> dquote).
Proof.
  unfold esc_char.
  destruct (Ascii.eqb_spec a "&"); [by left|].
  destruct (Ascii.eqb_spec a "<"); [by right; left|].
  destruct (Ascii.eqb_spec a ">"); [by right; right; left|].
  destruct (Ascii.eqb_spec a dquote); [by right; right; right; left|].
  by right; right; right; right.
Qed.

Lemma esc_flat s : list_ascii_of_string (esc s) = flat_map esc_char (list_ascii_of_string s).
Proof.
  unfold esc. rewrite !replace_char_list, !flat_map_flat_map'.
  apply flat_map_ext. intros a.
  destruct (esc_char_cases a) as [->|[->|[->|[->|(Ha & H1 & H2 & H3 & H4)]]]]; [reflexivity..|].
  rewrite Ha. simpl.
  rewrite (proj2 (Ascii.eqb_neq _ _) H1). simpl.
  rewrite (proj2 (Ascii.eqb_neq _ _) H2). simpl.
  rewrite (proj2 (Ascii.eqb_neq _ _) H3). simpl.
  rewrite (proj2 (Ascii.eqb_neq _ _) H4). reflexivity.
Qed.

Lemma esc_char_inj a b X Y : esc_char a ++ X = esc_char b ++ Y -> a = b /\ X = Y.
Proof.
  destruct (esc_char_cases a) as [->|[->|[->|[->|(Ha & Ha1 & Ha2 & Ha3 & Ha4)]]]];
  destruct (esc_char_cases b) as [->|[->|[->|[->|(Hb & Hb1 & Hb2 & Hb3 & Hb4)]]]];
  rewrite ?Ha, ?Hb; cbn; intros H; try (injection H as H; try subst; done);
  try (injection H as <- H; by split); try discriminate; exfalso.
  all: injection H as H; subst; done.
Qed.

(** X15 (esc): the escaped text contains no [<], [>] or double quote,
    and a text with none of [&], [<], [>] and the double quote is left
    unchanged (the single quote in particular is never escaped). *)
Theorem esc_safe s :
  Forall (fun a => a <> "<"%char /\ a <> ">"%char /\ a <> dquote) (list_ascii_of_string (esc s)) /\
  (Forall (fun a => a <> "&"%char /\ a <> "<"%char /\ a <> ">"%char /\ a <> dquote) (list_ascii_of_string s) ->
   esc s = s).
Proof.
  split.
  - rewrite esc_flat. induction (list_ascii_of_string s) as [|a l IH]; simpl; [constructor|].
    apply Forall_app. split; [|done].
    destruct (esc_char_cases a) as [->|[->|[->|[->|(Ha & H1 & H2 & H3 & H4)]]]];
      [repeat constructor; discriminate..|].
    rewrite Ha. by repeat constructor.
  - intros Hs. rewrite <- (string_of_list_ascii_of_string (esc s)), esc_flat.
    rewrite <- (string_of_list_ascii_of_string s) at 2. f_equal.
    induction Hs as [|a l (H1 & H2 & H3 & H4) _ IH]; simpl; [done|].
    destruct (esc_char_cases a) as [->|[->|[->|[->|(Ha & _)]]]]; [done..|].
    by rewrite Ha, IH.
Qed.

(** X16 (esc): escaping loses no information: two texts with the same
    escaped form are equal. *)
Theorem esc_injective s1 s2 : esc s1 = esc s2 -> s1 = s2.
Proof.
  intros H. apply (f_equal list_ascii_of_string) in H. rewrite !esc_flat in H.
  rewrite <- (string_of_list_ascii_of_string s1), <- (string_of_list_ascii_of_string s2). f_equal.
  revert H. generalize (list_ascii_of_string s1) (list_ascii_of_string s2). clear s1 s2.
  intros l1. induction l1 as [|a l1 IH]; intros [|b l2]; simpl; intros H.
  - done.
  - destruct (esc_char_cases b) as [->|[->|[->|[->|(Hb & _)]]]]; [discriminate..|]. by rewrite Hb in H.
  - destruct (esc_char_cases a) as [->|[->|[->|[->|(Ha & _)]]]]; [discriminate..|]. by rewrite Ha in H.
  - apply esc_char_inj in H as [-> H]. f_equal. by apply IH.
Qed.


Lemma L_app s1 s2 :
  list_ascii_of_string (String.append s1 s2) = list_ascii_of_string s1 ++ list_ascii_of_string s2.
Proof. induction s1 as [|a s1 IH]; simpl; [done|]. by rewrite IH. Qed.

Lemma L_inj s1 s2 : list_ascii_of_string s1 = list_ascii_of_string s2 -> s1 = s2.
Proof.
  intros H. rewrite <- (string_of_list_ascii_of_string s1), <- (string_of_list_ascii_of_string s2).
  by rewrite H.
Qed.

Lemma L_writelines ls :
  list_ascii_of_string (writelines ls) = mjoin (map list_ascii_of_string ls).
Proof.
  unfold writelines. induction ls as [|x ls IH]; [done|].
  destruct ls as [|y ls].
  - simpl. by rewrite app_nil_r.
  - change (String.concat "" (x :: y :: ls)) with (String.append x (String.append "" (String.concat "" (y :: ls)))).
    rewrite L_app.
    transitivity (list_ascii_of_string x ++ list_ascii_of_string (String.concat "" (y :: ls)));
      [reflexivity|].
    rewrite IH. reflexivity.
Qed.

Lemma writelines_app l1 l2 : writelines (l1 ++ l2) = String.append (writelines l1) (writelines l2).
Proof.
  apply L_inj. rewrite L_app, !L_writelines, map_app. by rewrite join_app.
Qed.

Lemma readlines_l_nil l : readlines_l l = [] -> l = [].
Proof.
  destruct l as [|a l]; simpl; [done|].
  destruct (Ascii.eqb a "010"); [done|]. by destruct (readlines_l l).
Qed.

Lemma concat_readlines_l l : mjoin (readlines_l l) = l.
Proof.
  induction l as [|a l IH]; simpl; [done|].
  destruct (Ascii.eqb a "010"); simpl; [by rewrite IH|].
  destruct (readlines_l l) as [|x r] eqn:E; simpl in *.
  - by rewrite <- IH.
  - by rewrite IH.
Qed.

Lemma writelines_readlines c : writelines (readlines c) = c.
Proof.
  apply L_inj. rewrite L_writelines. unfold readlines. rewrite map_map.
  rewrite (map_ext _ id); [|intros x; apply list_ascii_of_string_of_list_ascii].
  rewrite map_id. apply concat_readlines_l.
Qed.

Lemma readlines_l_line b r :
  ~ In "010"%char b -> readlines_l (b ++ "010"%char :: r) = (b ++ ["010"%char]) :: readlines_l r.
Proof.
  induction b as [|a b IH]; intros Hb; simpl; [done|].
  destruct (Ascii.eqb_spec a "010"); [subst; simpl in Hb; tauto|].
  rewrite IH; [done|]. simpl in Hb. tauto.
Qed.

Lemma readlines_l_concat ls : Forall line_okl ls -> readlines_l (mjoin ls) = ls.
Proof.
  induction 1 as [|x ls [b [-> Hb]] _ IH]; [done|].
  simpl. rewrite <- app_assoc. simpl. by rewrite readlines_l_line, IH.
Qed.

Lemma readlines_writelines ls : Forall line_ok ls -> readlines (writelines ls) = ls.
Proof.
  intros H. unfold readlines. rewrite L_writelines, readlines_l_concat.
  - rewrite map_map. rewrite (map_ext _ id); [by rewrite map_id|].
    intros x. apply string_of_list_ascii_of_string.
  - apply Forall_map. exact H.
Qed.

Lemma readlines_l_ok l :
  (l = [] \/ last l = Some "010"%char) -> Forall line_okl (readlines_l l).
Proof.
  induction l as [|a l IH]; intros Hl; simpl; [done|].
  destruct (Ascii.eqb_spec a "010") as [->|Ha].
  - constructor; [exists []; split; [done|intros []]|]. apply IH.
    destruct Hl as [Hl|Hl]; [done|]. destruct l as [|b l]; [by left|right; done].
  - destruct l as [|b l].
    + destruct Hl as [Hl|Hl]; [done|]. simpl in Hl. congruence.
    + assert (Forall line_okl (readlines_l (b :: l))) as Hf.
      { destruct Hl as [Hl|Hl]; [done|]. apply IH; right; exact Hl. }
      destruct (readlines_l (b :: l)) as [|x r] eqn:E; [by apply readlines_l_nil in E|].
      inversion Hf as [|? ? [c [-> Hc]] Hr]; subst.
      constructor; [|done]. exists (a :: c). split; [done|].
      simpl. intros [H|H]; [congruence|done].
Qed.

Lemma ends_nl_lines c : ends_nl c = true -> Forall line_ok (readlines c).
Proof.
  unfold ends_nl, readlines. intros H. apply Forall_map.
  eapply Forall_impl.
  2:{ intros x Hx. unfold line_ok. rewrite list_ascii_of_string_of_list_ascii. exact Hx. }
  apply readlines_l_ok.
  destruct (list_ascii_of_string c) as [|a l] eqn:E using rev_ind; [by left|].
  right. rewrite last_snoc. rewrite rev_unit in H. apply Ascii.eqb_eq in H. by subst.
Qed.

Lemma has_newline_false v : has_newline v = false -> ~ In "010"%char (list_ascii_of_string v).
Proof.
  unfold has_newline. intros H Hin.
  assert (existsb (fun a => Ascii.eqb a "010" || Ascii.eqb a "013") (list_ascii_of_string v) = true)
    as E by (apply existsb_exists; exists "010"%char; split; [done|reflexivity]).
  congruence.
Qed.

Lemma env_key_no_eq k :
  env_key_ok k = true ->
  ~ In "="%char (list_ascii_of_string k) /\ ~ In "010"%char (list_ascii_of_string k).
Proof.
  unfold env_key_ok. intros [H _]%andb_true_iff. apply negb_true_iff in H.
  split; intros Hin;
    (assert (existsb (fun a => Ascii.eqb a "=" || Ascii.eqb a "010") (list_ascii_of_string k) = true)
      by (apply existsb_exists; eexists; split; [exact Hin|reflexivity])); congruence.
Qed.

Lemma assignment_L k v :
  list_ascii_of_string (assignment k v) =
  list_ascii_of_string k ++ "="%char :: list_ascii_of_string v ++ ["010"%char].
Proof. unfold assignment. by rewrite !L_app. Qed.

Lemma assignment_line_ok k v :
  env_key_ok k = true -> has_newline v = false -> line_ok (assignment k v).
Proof.
  intros Hk Hv. unfold line_ok. rewrite assignment_L.
  exists (list_ascii_of_string k ++ "="%char :: list_ascii_of_string v).
  split; [by rewrite <- app_assoc|].
  apply env_key_no_eq in Hk as [_ Hk]. apply has_newline_false in Hv.
  rewrite in_app_iff. simpl. intros [H|[H|H]]; [tauto|discriminate|tauto].
Qed.

(** A stripped, non-empty value ends with a non-space character. *)
Lemma strip_last v a :
  strip v = v -> last (list_ascii_of_string v) = Some a -> is_space a = false.
Proof.
  intros Hv. rewrite <- Hv. unfold strip.
  rewrite list_ascii_of_string_of_list_ascii. apply rdw_last.
Qed.

Lemma strip_assignment k v :
  env_key_ok k = true -> strip v = v ->
  strip (assignment k v) = String.append k (String.append "=" v).
Proof.
  intros Hk Hv. apply L_inj. rewrite !L_app.
  unfold strip. rewrite list_ascii_of_string_of_list_ascii, assignment_L.
  rewrite (dw_id is_space (list_ascii_of_string k ++ _)).
  2:{ intros a l' E. unfold env_key_ok in Hk. apply andb_true_iff in Hk as [_ Hk].
      destruct (list_ascii_of_string k) as [|b k'].
      - simpl in E. injection E as <- _. reflexivity.
      - simpl in E. injection E as <- _. by apply negb_true_iff in Hk. }
  rewrite rev_app_distr. simpl. rewrite rev_app_distr. simpl.
  rewrite <- app_assoc. simpl.
  rewrite (dw_id is_space (rev (list_ascii_of_string v) ++ _)).
  2:{ intros a l' E. destruct (rev (list_ascii_of_string v)) as [|b r] eqn:Er.
      - simpl in E. injection E as <- _. reflexivity.
      - simpl in E. injection E as <- _. apply (strip_last v); [done|].
        rewrite <- (rev_involutive (list_ascii_of_string v)), Er. simpl.
        apply last_snoc. }
  rewrite rev_app_distr, rev_involutive. simpl. rewrite rev_involutive, <- app_assoc. done.
Qed.

Lemma sappend_nil s : String.append "" s = s.
Proof. reflexivity. Qed.

Lemma sappend_cons a s t : String.append (String a s) t = String a (String.append s t).
Proof. reflexivity. Qed.

(** Prefix test of [k' ++ "="] against [k ++ "=" ++ v], for keys without ["="]. *)
Lemma prefix_key k' k v :
  ~ In "="%char (list_ascii_of_string k') -> ~ In "="%char (list_ascii_of_string k) ->
  String.prefix (String.append k' "=") (String.append k (String.append "=" v)) = String.eqb k' k.
Proof.
  revert k. induction k' as [|a k' IH]; intros [|b k] Hk' Hk;
    rewrite ?sappend_nil, ?sappend_cons; cbn -[ascii_dec Ascii.eqb String.append] in *.
  - destruct (ascii_dec "=" "=") as [_|n]; [|congruence]. by destruct v.
  - destruct (ascii_dec "=" b) as [<-|]; [exfalso; apply Hk; by left|done].
  - destruct (ascii_dec a "=") as [->|]; [exfalso; apply Hk'; by left|done].
  - destruct (ascii_dec a b) as [<-|Hab].
    + rewrite Ascii.eqb_refl. apply IH; [intros H; apply Hk'; by right|intros H; apply Hk; by right].
    + by rewrite (proj2 (Ascii.eqb_neq a b) Hab).
Qed.

Lemma prefix_spec p s : String.prefix p s = true -> exists t, s = String.append p t.
Proof.
  revert s. induction p as [|a p IH]; intros s H; [by exists s|].
  destruct s as [|b s]; simpl in H; [done|].
  destruct (ascii_dec a b) as [<-|]; [|done].
  destruct (IH s H) as [t ->]. by exists t.
Qed.

Lemma find_ext_in {A} (f g : A -> bool) l :
  (forall x, In x l -> f x = g x) -> List.find f l = List.find g l.
Proof.
  induction l as [|x l IH]; intros H; simpl; [done|].
  rewrite (H x (or_introl eq_refl)). destruct (g x); [done|].
  apply IH. intros y Hy. apply H. by right.
Qed.

Lemma nodup_fst_unique (U : list (string * string)) k v v' :
  NoDup (map fst U) -> In (k, v) U -> In (k, v') U -> v = v'.
Proof.
  induction U as [|[k0 v0] U IH]; simpl; [done|].
  intros Hnd H1 H2. apply NoDup_cons in Hnd as [Hn Hnd].
  destruct H1 as [E1|H1], H2 as [E2|H2].
  - congruence.
  - injection E1 as -> ->. exfalso. apply Hn. apply list_elem_of_In, in_map_iff. by exists (k, v').
  - injection E2 as -> ->. exfalso. apply Hn. apply list_elem_of_In, in_map_iff. by exists (k, v).
  - by apply IH.
Qed.

Lemma find_key (U : list (string * string)) k v :
  NoDup (map fst U) -> In (k, v) U ->
  List.find (fun kv => String.eqb kv.1 k) U = Some (k, v).
Proof.
  intros Hnd Hin. destruct (List.find (fun kv => String.eqb kv.1 k) U) as [[k' v']|] eqn:E.
  - apply find_some in E as [E1 E2]. simpl in E2. apply String.eqb_eq in E2 as ->.
    by rewrite (nodup_fst_unique U k v v').
  - exfalso. eapply find_none in E; [|exact Hin]. simpl in E. by rewrite String.eqb_refl in E.
Qed.

Lemma update_line_assignment U k v :
  updates_ok U -> In (k, v) U -> update_line U (assignment k v) = (Some k, assignment k v).
Proof.
  intros [Hnd HU] Hin. destruct (HU k v Hin) as (Hk & Hv & _ & _).
  unfold update_line. rewrite strip_assignment by done.
  rewrite (find_ext_in _ (fun kv => String.eqb kv.1 k)).
  - by rewrite (find_key U k v).
  - intros [k' v'] Hin'. simpl. destruct (HU k' v' Hin') as (Hk' & _).
    apply prefix_key; apply env_key_no_eq; done.
Qed.

Lemma strip_assignment_prefix U k v k' v' :
  updates_ok U -> In (k, v) U -> In (k', v') U ->
  String.prefix (String.append k "=") (strip (assignment k' v')) = true -> k = k' /\ v = v'.
Proof.
  intros [Hnd HU] Hin Hin' Hp.
  destruct (HU k v Hin) as (Hk & _), (HU k' v' Hin') as (Hk' & Hv' & _).
  rewrite strip_assignment, prefix_key in Hp by (try apply env_key_no_eq; done).
  apply String.eqb_eq in Hp as ->. split; [done|]. by apply (nodup_fst_unique U k').
Qed.


Lemma collect_updates_spec py_str keys data U :
  collect_updates py_str keys data = inr U ->
  map fst U `sublist_of` keys /\
  (forall k v, In (k, v) U <->
     In k keys /\ exists val, assoc k data = Some val /\ val <> PNone /\
                              v = strip (to_str py_str val) /\ v <> ""%string) /\
  (forall k v, In (k, v) U -> has_newline v = false).
Proof.
  revert U. induction keys as [|k ks IH]; intros U HC; simpl in HC.
  - injection HC as <-. split; [done|]. split; [|done]. intros k v. simpl. tauto.
  - destruct (assoc k data) as [val|] eqn:Ea.
    2:{ destruct (IH U HC) as (H1 & H2 & H3). split; [by apply sublist_cons|].
        split; [|done]. intros k' v. rewrite H2. simpl. split; [tauto|].
        intros [[<-|Hk] Hex]; [destruct Hex as (val & Hv & _); congruence|tauto]. }
    assert ((val = PNone /\ collect_updates py_str ks data = inr U) \/
            (val <> PNone /\
             (if String.eqb (strip (to_str py_str val)) "" then collect_updates py_str ks data
              else if has_newline (strip (to_str py_str val)) then inl k
              else match collect_updates py_str ks data with
                   | inl e => inl e | inr u => inr ((k, strip (to_str py_str val)) :: u) end)
             = inr U)) as [[-> HC']|[Hn HC']].
    { destruct val; try (right; split; [discriminate|exact HC]). by left. }
    { destruct (IH U HC') as (H1 & H2 & H3). split; [by apply sublist_cons|].
      split; [|done]. intros k' v. rewrite H2. simpl. split; [tauto|].
      intros [[<-|Hk] Hex]; [destruct Hex as (val' & Hv & Hn' & _); congruence|tauto]. }
    clear HC. rename HC' into HC.
    destruct (String.eqb_spec (strip (to_str py_str val)) "") as [He|He].
    { destruct (IH U HC) as (H1 & H2 & H3). split; [by apply sublist_cons|].
      split; [|done]. intros k' v. rewrite H2. simpl. split; [tauto|].
      intros [[<-|Hk] Hex]; [destruct Hex as (val' & Hv & _ & -> & Hne); congruence|tauto]. }
    destruct (has_newline (strip (to_str py_str val))) eqn:Hnl; [done|].
    destruct (collect_updates py_str ks data) as [e|u]; [done|].
    injection HC as <-. destruct (IH u eq_refl) as (H1 & H2 & H3).
    split; [by apply sublist_skip|]. split.
    + intros k' v. simpl. rewrite H2. split.
      * intros [[= <- <-]|(Hk & Hv)]; [|tauto]. split; [by left|]. by exists val.
      * intros [[<-|Hk] (val' & Hv & Hn' & -> & Hne)].
        -- left. congruence.
        -- right. split; [done|]. by exists val'.
    + intros k' v [[= <- <-]|Hin]; [done|]. by apply (H3 k').
Qed.

Lemma updates_ok_of py_str keys data U :
  NoDup keys -> Forall (fun k => env_key_ok k = true) keys ->
  collect_updates py_str keys data = inr U -> updates_ok U.
Proof.
  intros Hnd Hok HC. destruct (collect_updates_spec _ _ _ _ HC) as (H1 & H2 & H3).
  split; [by eapply sublist_NoDup|].
  intros k v Hin. pose proof (H3 k v Hin) as Hnl.
  apply H2 in Hin as (Hk & val & _ & _ & -> & Hne). repeat split; try done.
  - rewrite Forall_forall in Hok. apply Hok. by apply list_elem_of_In.
  - apply strip_idem.
Qed.

Lemma api_post_inv py_str keys data env ks c' :
  api_env_keys_post py_str keys data env = (EnvUpdated ks, Some c') ->
  exists U, collect_updates py_str keys data = inr U /\ ks = map fst U /\
    c' = writelines (new_env_lines U (readlines (default "" env))).
Proof.
  unfold api_env_keys_post. destruct (collect_updates py_str keys data) as [e|U]; [done|].
  destruct U as [|kv U]; [done|]. intros [= <- <-]. exists (kv :: U).
  split; [done|]. split; [done|]. by destruct env.
Qed.

Lemma update_line_cases U line :
  (update_line U line = (None, line) /\
   forall k v, In (k, v) U -> String.prefix (String.append k "=") (strip line) = false) \/
  exists k v, In (k, v) U /\ update_line U line = (Some k, assignment k v).
Proof.
  unfold update_line.
  destruct (List.find (fun kv => String.prefix (String.append kv.1 "=") (strip line)) U)
    as [[k v]|] eqn:E.
  - right. apply find_some in E as [E _]. by exists k, v.
  - left. split; [done|]. intros k v Hin. by apply (find_none _ _ E (k, v)).
Qed.

Lemma new_line_cases U L0 l :
  In l (new_env_lines U L0) ->
  (In l L0 /\ update_line U l = (None, l)) \/ exists k v, In (k, v) U /\ l = assignment k v.
Proof.
  unfold new_env_lines. rewrite in_app_iff, map_map.
  intros [Hl|Hl].
  - apply in_map_iff in Hl as (l0 & <- & Hl0).
    destruct (update_line_cases U l0) as [[E _]|(k & v & Hin & E)]; rewrite E.
    + left. by split.
    + right. by exists k, v.
  - apply in_map_iff in Hl as ([k v] & <- & Hin). apply List.filter_In in Hin as [Hin _].
    right. by exists k, v.
Qed.

Lemma new_env_lines_ok U L0 :
  updates_ok U -> Forall line_ok L0 -> Forall line_ok (new_env_lines U L0).
Proof.
  intros HU HL. apply Forall_forall. intros l Hl. apply list_elem_of_In in Hl.
  destruct (new_line_cases U L0 l Hl) as [[Hin _]|(k & v & Hin & ->)].
  - rewrite Forall_forall in HL. apply HL. by apply list_elem_of_In.
  - destruct HU as [_ HU]. destruct (HU k v Hin) as (Hk & _ & _ & Hnl).
    by apply assignment_line_ok.
Qed.

Lemma assignment_in_new_lines U L0 k v :
  updates_ok U -> In (k, v) U -> In (assignment k v) (new_env_lines U L0).
Proof.
  intros HU Hin. unfold new_env_lines. rewrite in_app_iff.
  destruct (existsb (String.eqb k) (omap fst (map (update_line U) L0))) eqn:Ew.
  - left. apply existsb_exists in Ew as (k' & Hk' & Ek). apply String.eqb_eq in Ek as <-.
    apply list_elem_of_In, list_elem_of_omap in Hk' as (r & Hr & Er).
    apply list_elem_of_In, in_map_iff in Hr as (l0 & <- & Hl0).
    destruct (update_line_cases U l0) as [[E _]|(k' & v' & Hin' & E)]; rewrite E in Er; [done|].
    simpl in Er. injection Er as ->.
    assert (v' = v) as -> by (destruct HU as [Hnd _]; by apply (nodup_fst_unique U k)).
    apply in_map_iff. exists (Some k, assignment k v). split; [done|].
    apply in_map_iff. by exists l0.
  - right. apply in_map_iff. exists (k, v). split; [done|].
    apply List.filter_In. split; [done|]. simpl. by rewrite Ew.
Qed.

Lemma readlines_post py_str keys data env c' U :
  NoDup keys -> Forall (fun k => env_key_ok k = true) keys ->
  ends_nl (default "" env) = true ->
  collect_updates py_str keys data = inr U ->
  c' = writelines (new_env_lines U (readlines (default "" env))) ->
  readlines c' = new_env_lines U (readlines (default "" env)).
Proof.
  intros Hnd Hok He HC ->. apply readlines_writelines, new_env_lines_ok.
  - by apply (updates_ok_of py_str keys data).
  - by apply ends_nl_lines.
Qed.

(** X17 (server.py, [api_env_keys_post]): for keys without ["="] or
    ["\n"] and an [.env] text that ends with a newline, a successful post
    reports exactly the keys given a non-blank value; afterwards each such
    key has its line [key=value] in the file, every line of the file that
    starts (after strip) with [key=] is that line, and the lines that
    start with no updated key are kept. *)
Theorem env_post_file py_str keys data env ks c' :
  NoDup keys -> Forall (fun k => env_key_ok k = true) keys ->
  ends_nl (default "" env) = true ->
  api_env_keys_post py_str keys data env = (EnvUpdated ks, Some c') ->
  (forall k, k ∈ ks <->
     k ∈ keys /\ exists val, assoc k data = Some val /\ val <> PNone /\
                            strip (to_str py_str val) <> ""%string) /\
  (forall k val, k ∈ ks -> assoc k data = Some val ->
     assignment k (strip (to_str py_str val)) ∈ readlines c' /\
     forall l, l ∈ readlines c' -> String.prefix (String.append k "=") (strip l) = true ->
       l = assignment k (strip (to_str py_str val))) /\
  (forall l, l ∈ readlines (default "" env) ->
     (forall k, k ∈ ks -> String.prefix (String.append k "=") (strip l) = false) ->
     l ∈ readlines c').
Proof.
  intros Hnd Hok He Hpost.
  destruct (api_post_inv _ _ _ _ _ _ Hpost) as (U & HC & -> & Hc').
  pose proof (updates_ok_of _ _ _ _ Hnd Hok HC) as HU.
  pose proof (readlines_post _ _ _ _ _ U Hnd Hok He HC Hc') as Hr.
  destruct (collect_updates_spec _ _ _ _ HC) as (_ & Hspec & _).
  assert (forall k, k ∈ map fst U <-> exists v, In (k, v) U) as Hfst.
  { intros k. rewrite list_elem_of_In, in_map_iff. split.
    - intros ([k' v] & <- & Hin). by exists v.
    - intros [v Hin]. by exists (k, v). }
  split; [|split].
  - intros k. rewrite Hfst. split.
    + intros [v Hin]. apply Hspec in Hin as (Hk & val & Ha & Hn & -> & Hne).
      split; [by apply list_elem_of_In|]. by exists val.
    + intros [Hk (val & Ha & Hn & Hne)]. exists (strip (to_str py_str val)).
      apply Hspec. split; [by apply list_elem_of_In|]. by exists val.
  - intros k val Hk Ha. apply Hfst in Hk as [v Hin].
    assert (v = strip (to_str py_str val)) as <-.
    { apply Hspec in Hin as (_ & val' & Ha' & _ & -> & _). congruence. }
    rewrite Hr. split.
    + apply list_elem_of_In. by apply assignment_in_new_lines.
    + intros l Hl Hp. apply list_elem_of_In in Hl.
      destruct (new_line_cases U _ l Hl) as [[_ E]|(k' & v' & Hin' & ->)].
      * unfold update_line in E.
        destruct (List.find (fun kv => String.prefix (String.append kv.1 "=") (strip l)) U)
          eqn:Ef; [by destruct p|].
        pose proof (find_none _ _ Ef (k, v) Hin) as Hf. simpl in Hf. congruence.
      * by destruct (strip_assignment_prefix U k v k' v' HU Hin Hin' Hp) as [-> ->].
  - intros l Hl Hno. rewrite Hr. apply list_elem_of_In.
    unfold new_env_lines. apply in_app_iff. left. rewrite map_map.
    apply in_map_iff. exists l. split; [|by apply list_elem_of_In].
    destruct (update_line_cases U l) as [[-> _]|(k & v & Hin & E)]; [done|].
    exfalso. unfold update_line in E.
    destruct (List.find (fun kv => String.prefix (String.append kv.1 "=") (strip l)) U)
      as [[k' v']|] eqn:Ef; [|done].
    apply find_some in Ef as [Hin' Ep]. simpl in Ep.
    assert (k' ∈ map fst U) as Hk' by (apply Hfst; by exists v').
    by rewrite (Hno k' Hk') in Ep.
Qed.

(** X18 (server.py, [api_env_keys_post]): when no line of [.env] starts
    (after strip) with an updated [key=], the new text is the old text
    followed by the [key=value] lines, with no newline put in between. *)
Theorem env_post_append py_str keys data env U ks c' :
  collect_updates py_str keys data = inr U ->
  api_env_keys_post py_str keys data env = (EnvUpdated ks, Some c') ->
  (forall l k, l ∈ readlines (default "" env) -> k ∈ ks ->
     String.prefix (String.append k "=") (strip l) = false) ->
  c' = String.append (default "" env) (writelines (map (fun kv => assignment kv.1 kv.2) U)).
Proof.
  intros HC Hpost Hno.
  destruct (api_post_inv _ _ _ _ _ _ Hpost) as (U' & HC' & -> & ->).
  rewrite HC in HC'. injection HC' as <-.
  set (L0 := readlines (default "" env)).
  assert (map (update_line U) L0 = map (fun l => (None, l)) L0) as Em.
  { apply map_ext_in. intros l Hl.
    destruct (update_line_cases U l) as [[-> _]|(k & v & Hin & E)]; [done|].
    exfalso. unfold update_line in E.
    destruct (List.find (fun kv => String.prefix (String.append kv.1 "=") (strip l)) U)
      as [[k' v']|] eqn:Ef; [|done].
    apply find_some in Ef as [Hin' Ep]. simpl in Ep.
    rewrite (Hno l k') in Ep; [done|by apply list_elem_of_In|].
    apply list_elem_of_In, in_map_iff. by exists (k', v'). }
  unfold new_env_lines. rewrite Em.
  assert (forall W, W = [] ->
            List.filter (fun kv : string * string => negb (existsb (String.eqb kv.1) W)) U = U)
    as Ef.
  { intros W ->. clear. induction U as [|x U IH]; [done|]. cbn [List.filter]. rewrite IH. reflexivity. }
  rewrite Ef by (clear; induction L0; done).
  rewrite map_map, (map_ext (fun x : string => snd (None : option string, x)) id) by done.
  rewrite map_id, writelines_app. unfold L0. by rewrite writelines_readlines.
Qed.

(** X19 (server.py, [api_env_keys_post]): when the allowed keys are
    distinct, none holds ["="] or a newline or starts with a space, and the
    [.env] file is missing, empty or ends with a newline, posting the same
    data again to the file the route has written gives the same answer and
    the same text.  (Without the final newline a key not yet in the file is
    written at the end of the last line, where the second post does not
    find it, so it is appended again.) *)
Theorem env_post_idempotent py_str keys data env ks c' :
  NoDup keys -> Forall (fun k => env_key_ok k = true) keys ->
  ends_nl (default "" env) = true ->
  api_env_keys_post py_str keys data env = (EnvUpdated ks, Some c') ->
  api_env_keys_post py_str keys data (Some c') = (EnvUpdated ks, Some c').
Proof.
  intros Hnd Hok He Hpost.
  destruct (api_post_inv _ _ _ _ _ _ Hpost) as (U & HC & -> & Hc').
  pose proof (updates_ok_of _ _ _ _ Hnd Hok HC) as HU.
  pose proof (readlines_post _ _ _ _ _ U Hnd Hok He HC Hc') as Hr.
  unfold api_env_keys_post. rewrite HC.
  destruct U as [|kv U0] eqn:EU.
  { unfold api_env_keys_post in Hpost. by rewrite HC in Hpost. }
  rewrite <- EU in *. f_equal. f_equal. rewrite Hr.
  set (N := new_env_lines U (readlines (default "" env))).
  assert (forall l, In l N -> snd (update_line U l) = l) as Hsnd.
  { intros l Hl. destruct (new_line_cases U _ l Hl) as [[_ ->]|(k & v & Hin & ->)]; [done|].
    by rewrite update_line_assignment. }
  assert (forall kv, In kv U -> existsb (String.eqb kv.1) (omap fst (map (update_line U) N)) = true)
    as Hw.
  { intros [k v] Hin. apply existsb_exists. exists k. split; [|apply String.eqb_refl].
    apply list_elem_of_In, list_elem_of_omap. exists (Some k, assignment k v).
    split; [|done]. apply list_elem_of_In, in_map_iff. exists (assignment k v).
    split; [by apply update_line_assignment|]. by apply assignment_in_new_lines. }
  rewrite Hc'. fold N. f_equal. unfold new_env_lines at 1.
  rewrite map_map, (map_ext_in _ id) by (intros l Hl; by apply Hsnd).
  rewrite map_id.
  rewrite (List.filter_ext_in _ (fun _ => false)).
  - rewrite filter_false. by rewrite app_nil_r.
  - intros x Hin. by rewrite (Hw x Hin).
Qed.

Lemma sappend_nil_r s : String.append s "" = s.
Proof. induction s as [|a s IH]; [done|]. by rewrite sappend_cons, IH. Qed.

Lemma substring_all s : substring 0 (String.length s) s = s.
Proof. induction s as [|a s IH]; simpl; [done|]. by rewrite IH. Qed.

Lemma substring_suffix s n :
  n <= String.length s ->
  exists p, s = String.append p (substring n (String.length s - n) s) /\
            String.length (substring n (String.length s - n) s) = String.length s - n.
Proof.
  revert n. induction s as [|a s IH]; intros n Hn; simpl in *.
  - assert (n = 0) as -> by lia. by exists "".
  - destruct n as [|n].
    + exists "". rewrite Nat.sub_0_r. cbn match. rewrite substring_all. split; [done|]. simpl. lia.
    + destruct (IH n ltac:(lia)) as (p & Ep & Hl). exists (String a p).
      replace (S (String.length s) - S n) with (String.length s - n) by lia.
      rewrite sappend_cons, <- Ep. split; [done|]. exact Hl.
Qed.

(** X20 (server.py, [api_env_keys_get]): each key is answered [None]
    exactly when its value is empty, and otherwise by the mask followed by
    the last 4 characters of the value when it has at least 4, or by the
    mask alone; no more of the value is ever returned. *)
Theorem env_keys_get_mask keys environ k r :
  (k, r) ∈ api_env_keys_get keys environ ->
  k ∈ keys /\ (r = None <-> environ k = ""%string) /\
  forall m, r = Some m ->
    exists p s, environ k = String.append p s /\ m = String.append mask_dots s /\
                String.length s = (if 4 <=? String.length (environ k) then 4 else 0).
Proof.
  unfold api_env_keys_get. rewrite list_elem_of_fmap.
  intros (k' & Er & Hk'). cbn zeta in Er.
  destruct (4 <=? String.length (environ k')) eqn:E4.
  - injection Er as <- ->. split; [done|]. split.
    + split; [done|]. intros Hv. rewrite Hv in E4. done.
    + intros m [= <-]. apply Nat.leb_le in E4.
      destruct (substring_suffix (environ k) (String.length (environ k) - 4) ltac:(lia))
        as (p & Ep & Hl).
      replace (String.length (environ k) - (String.length (environ k) - 4)) with 4 in * by lia.
      exists p, (substring (String.length (environ k) - 4) 4 (environ k)).
      split; [done|]. split; [done|]. rewrite (proj2 (Nat.leb_le _ _) E4). exact Hl.
  - destruct (String.eqb_spec (environ k') "") as [Ev|Ev]; simpl in Er; injection Er as <- ->.
    + split; [done|]. split; [done|]. done.
    + split; [done|]. split; [split; [done|congruence]|].
      intros m [= <-]. exists (environ k), "". rewrite E4. split; [|done].
      by rewrite sappend_nil_r.
Qed.


Lemma env_post_file_witness :
  api_env_keys_post (fun _ => ""%string) _ENV_ALLOWED_KEYS ex_env_data (Some ex_env_text)
    = (EnvUpdated ["YOUTUBE_API_KEY"%string], Some ex_env_new) /\
  forall l, l ∈ readlines ex_env_new ->
    String.prefix (String.append "YOUTUBE_API_KEY" "=") (strip l) = true ->
    l = assignment "YOUTUBE_API_KEY" "abc".
Proof.
  assert (Hp : api_env_keys_post (fun _ => ""%string) _ENV_ALLOWED_KEYS ex_env_data (Some ex_env_text)
                 = (EnvUpdated ["YOUTUBE_API_KEY"%string], Some ex_env_new)) by (vm_compute; reflexivity).
  split; [exact Hp|].
  destruct (env_post_file (fun _ => ""%string) _ENV_ALLOWED_KEYS ex_env_data (Some ex_env_text)
              ["YOUTUBE_API_KEY"%string] ex_env_new) as (_ & H2 & _).
  - apply (bool_decide_unpack _). vm_compute. reflexivity.
  - repeat constructor.
  - reflexivity.
  - exact Hp.
  - exact (proj2 (H2 "YOUTUBE_API_KEY"%string (PStr " abc ") (list_elem_of_here _ _) eq_refl)).
Defined.

Lemma env_post_append_witness :
  api_env_keys_post (fun _ => ""%string) _ENV_ALLOWED_KEYS ex_env_data (Some "A=1"%string)
    = (EnvUpdated ["YOUTUBE_API_KEY"%string],
       Some (String.append "A=1YOUTUBE_API_KEY=abc" nl)) /\
  String.append "A=1YOUTUBE_API_KEY=abc" nl =
    String.append "A=1" (writelines [assignment "YOUTUBE_API_KEY" "abc"]).
Proof.
  assert (Hp : api_env_keys_post (fun _ => ""%string) _ENV_ALLOWED_KEYS ex_env_data (Some "A=1"%string)
                 = (EnvUpdated ["YOUTUBE_API_KEY"%string],
                    Some (String.append "A=1YOUTUBE_API_KEY=abc" nl))) by (vm_compute; reflexivity).
  split; [exact Hp|].
  apply (env_post_append (fun _ => ""%string) _ENV_ALLOWED_KEYS ex_env_data (Some "A=1"%string)
           [("YOUTUBE_API_KEY"%string, "abc"%string)] ["YOUTUBE_API_KEY"%string]).
  - vm_compute. reflexivity.
  - exact Hp.
  - intros l k Hl Hk.
    assert (E : readlines (default "" (Some "A=1"%string)) = ["A=1"%string]) by reflexivity.
    rewrite E in Hl. apply list_elem_of_singleton in Hl as ->.
    apply list_elem_of_singleton in Hk as ->. reflexivity.
Defined.

Lemma env_post_idempotent_witness :
  api_env_keys_post (fun _ => ""%string) _ENV_ALLOWED_KEYS ex_env_data (Some ex_env_new)
    = (EnvUpdated ["YOUTUBE_API_KEY"%string], Some ex_env_new).
Proof.
  apply (env_post_idempotent (fun _ => ""%string) _ENV_ALLOWED_KEYS ex_env_data (Some ex_env_text)).
  - apply (bool_decide_unpack _). vm_compute. reflexivity.
  - repeat constructor.
  - reflexivity.
  - vm_compute. reflexivity.
Defined.

Lemma env_keys_get_mask_witness :
  ("YOUTUBE_API_KEY"%string, Some (String.append mask_dots "t123"))
    ∈ api_env_keys_get _ENV_ALLOWED_KEYS ex_environ /\
  exists p s, ex_environ "YOUTUBE_API_KEY" = String.append p s /\
              String.append mask_dots "t123" = String.append mask_dots s /\ String.length s = 4.
Proof.
  assert (E : api_env_keys_get _ENV_ALLOWED_KEYS ex_environ =
              [("YOUTUBE_API_KEY"%string, Some (String.append mask_dots "t123"));
               ("ANTHROPIC_API_KEY"%string, None)]) by reflexivity.
  assert (H : ("YOUTUBE_API_KEY"%string, Some (String.append mask_dots "t123"))
                ∈ api_env_keys_get _ENV_ALLOWED_KEYS ex_environ)
    by (rewrite E; apply list_elem_of_here).
  split; [exact H|].
  destruct (env_keys_get_mask _ _ _ _ H) as (_ & _ & H3).
  destruct (H3 _ eq_refl) as (p & s & E1 & E2 & E3).
  exists p, s. split; [exact E1|]. split; [exact E2|]. rewrite E3. reflexivity.
Defined.

Lemma esc_safe_witness : esc "it's" = "it's"%string.
Proof.
  apply (proj2 (esc_safe "it's")). repeat constructor; vm_compute; discriminate.
Defined.

Lemma esc_injective_witness : esc "<b>" = esc "<b>" /\ "<b>"%string = "<b>"%string.
Proof. split; [reflexivity|]. apply esc_injective. reflexivity. Defined.


Lemma fold_delete_lookup {A} (L : list string) (m : gmap string A) i :
  fold_left (fun m jid => delete jid m) L m !! i = if bool_decide (i ∈ L) then None else m !! i.
Proof.
  revert m. induction L as [|k L IH]; intros m; cbn [fold_left].
  - rewrite bool_decide_false; [done|]. apply not_elem_of_nil.
  - rewrite IH. destruct (bool_decide_reflect (i ∈ L)) as [Hi|Hi].
    + rewrite bool_decide_true; [done|]. by apply list_elem_of_further.
    + destruct (decide (k = i)) as [<-|Hne].
      * rewrite lookup_delete_eq, bool_decide_true; [done|]. apply list_elem_of_here.
      * rewrite lookup_delete_ne by done. rewrite bool_decide_false; [done|].
        rewrite elem_of_cons. intros [->|H]; [done|tauto].
Qed.

Lemma cleanup_lookup {job} (fa : job -> option Q) now jobs jid :
  _cleanup_stale_jobs fa now jobs !! jid =
  match jobs !! jid with
  | Some j => if is_stale fa now j then None else Some j
  | None => None
  end.
Proof.
  unfold _cleanup_stale_jobs. cbn zeta. rewrite fold_delete_lookup.
  destruct (jobs !! jid) as [j|] eqn:E.
  - destruct (is_stale fa now j) eqn:Es.
    + rewrite bool_decide_true; [done|]. apply list_elem_of_fmap. exists (jid, j).
      split; [done|]. apply list_elem_of_In, List.filter_In. split; [|done].
      apply list_elem_of_In, elem_of_map_to_list. done.
    + rewrite bool_decide_false; [done|]. intros Hin.
      apply list_elem_of_fmap in Hin as ([i j'] & Ei & Hin). simpl in Ei. subst i.
      apply list_elem_of_In, List.filter_In in Hin as [Hin Hs].
      apply list_elem_of_In, elem_of_map_to_list in Hin. simpl in Hs. congruence.
  - destruct (bool_decide (jid ∈ _)); done.
Qed.

Lemma is_stale_mono {job} (fa : job -> option Q) now1 now2 j :
  (now1 <= now2)%Q -> is_stale fa now1 j = true -> is_stale fa now2 j = true.
Proof.
  unfold is_stale. intros Hle. destruct (fa j) as [f|]; [|done].
  intros [H0 H1]%andb_true_iff. rewrite H0. simpl.
  apply negb_true_iff in H1. apply negb_true_iff.
  destruct (Qle_bool (now2 - f) _JOB_TTL) eqn:E; [|done].
  apply Qle_bool_iff in E.
  assert (now1 - f <= _JOB_TTL)%Q as E1.
  { eapply Qle_trans; [|exact E]. unfold Qminus. by apply Qplus_le_compat; [|apply Qle_refl]. }
  apply Qle_bool_iff in E1. congruence.
Qed.

(** X21 (server.py, [_cleanup_stale_jobs]): after a cleanup at time
    [now], a job id is present exactly when it was present and its job is
    not stale, i.e. has no (or a zero) [finished_at] or finished at most
    [_JOB_TTL] seconds before [now]; a job it keeps is unchanged. *)
Theorem cleanup_stale_jobs_lookup {job} (fa : job -> option Q) now jobs jid :
  _cleanup_stale_jobs fa now jobs !! jid =
  match jobs !! jid with
  | Some j => if is_stale fa now j then None else Some j
  | None => None
  end.
Proof. apply cleanup_lookup. Qed.

(** X22 (server.py, [_cleanup_stale_jobs]): a cleanup at an earlier time
    followed by one at a later time removes the same jobs as the later
    cleanup alone. *)
Theorem cleanup_stale_jobs_compose {job} (fa : job -> option Q) now1 now2 jobs :
  (now1 <= now2)%Q ->
  _cleanup_stale_jobs fa now2 (_cleanup_stale_jobs fa now1 jobs) = _cleanup_stale_jobs fa now2 jobs.
Proof.
  intros Hle. apply map_eq. intros jid. rewrite !cleanup_lookup.
  destruct (jobs !! jid) as [j|]; [|done].
  destruct (is_stale fa now1 j) eqn:E1.
  - by rewrite (is_stale_mono fa now1 now2 j Hle E1).
  - done.
Qed.

Lemma cleanup_stale_jobs_compose_witness :
  (4000 <= 9000)%Q /\
  _cleanup_stale_jobs id 9000 (_cleanup_stale_jobs id 4000 ex_jobs) = _cleanup_stale_jobs id 9000 ex_jobs.
Proof.
  assert (H : (4000 <= 9000)%Q) by (apply Qle_bool_iff; reflexivity).
  split; [exact H|]. apply (cleanup_stale_jobs_compose id 4000 9000 ex_jobs H).
Defined.
